(** * useHttpRequest: a shallow embedding of [src/useHttpRequest.js]

    The hook keeps two module-level [Map]s ([cache], [inFlightMap]) and,
    per mounted component, three pieces of React state ([data], [error],
    [isLoading]) and three refs ([controller], [timeoutRef],
    [didSetInFlight]).  The embedding threads all of it through an explicit
    [world]; promises, abort controllers and timers are objects of that
    world, addressed by their allocation index.

    JavaScript runs the reactions of a settled promise to completion
    before the next task starts, so the settlement of one [fetchPromise]
    (the two [.then] stages, the originator's [await] continuation and the
    reactions attached through [inFlightMap]) is one step of the model. *)

From Stdlib Require Import ZArith Ascii String List Lia.
From stdpp Require Import gmap strings list fin_maps pretty sorting.

Local Open Scope Z_scope.

(** ** JavaScript values *)

#[local] Set Warnings "-register-all".

(** The values that travel through the hook: option values, header values
    and decoded JSON bodies.  Numbers are the integers. *)
Inductive jsval : Type :=
  | JUndefined
  | JNull
  | JBool (b : bool)
  | JNum (n : Z)
  | JStr (s : string)
  | JArr (items : list jsval)
  | JObj (props : list (string * jsval)).

(** ToBoolean: what [x || y], [x && y], [!x] and [if (x)] look at. *)
Definition truthy (v : jsval) : bool :=
  match v with
  | JUndefined | JNull => false
  | JBool b => b
  | JNum n => negb (n =? 0)
  | JStr s => negb (bool_decide (s = ""%string))
  | JArr _ | JObj _ => true
  end.

(** [a || b] *)
Definition js_or (a b : jsval) : jsval := if truthy a then a else b.

(** Property read on an object literal; an absent key reads [undefined]. *)
Fixpoint obj_get (props : list (string * jsval)) (k : string) : jsval :=
  match props with
  | [] => JUndefined
  | (k', v) :: rest => if bool_decide (k' = k) then v else obj_get rest k
  end.

(** Property write [o[k] = v]: in place when the key exists, appended
    otherwise. *)
Fixpoint obj_set (props : list (string * jsval)) (k : string) (v : jsval)
  : list (string * jsval) :=
  match props with
  | [] => [(k, v)]
  | (k', v') :: rest =>
      if bool_decide (k' = k) then (k, v) :: rest
      else (k', v') :: obj_set rest k v
  end.

(** [{ ...v }]: the own enumerable properties of [v].  Objects give their
    properties, arrays and strings their indexed elements, every other
    value nothing. *)
Definition spread (v : jsval) : list (string * jsval) :=
  match v with
  | JObj props => props
  | JArr items => imap (fun i x => (pretty i, x)) items
  | JStr s =>
      imap (fun i c => (pretty i, JStr (String c EmptyString)))
           (list_ascii_of_string s)
  | _ => []
  end.

(** ToNumber, on the values where it needs no parsing.  Strings, arrays and
    objects go through string-to-number conversion, which the embedding
    leaves out: [None]. *)
Definition to_number (v : jsval) : option Z :=
  match v with
  | JNum n => Some n
  | JBool b => Some (if b then 1 else 0)
  | JNull => Some 0
  | _ => None
  end.

Definition upper_ascii (c : ascii) : ascii :=
  let n := nat_of_ascii c in
  if ((97 <=? n)%nat && (n <=? 122)%nat)%bool then ascii_of_nat (n - 32) else c.

(** [String.prototype.toUpperCase] on ASCII text. *)
Fixpoint toUpperCase (s : string) : string :=
  match s with
  | EmptyString => EmptyString
  | String c rest => String (upper_ascii c) (toUpperCase rest)
  end.

(** ** The JavaScript [Map] behind [cache]

    A [Map] iterates in insertion order: [set] on a present key keeps the
    key's position, [set] on an absent key appends, [delete] removes.  The
    list is that order, oldest first. *)
Module JsMap.
Abbreviation t := (list (string * jsval)).

Definition has (k : string) (m : t) : bool :=
  bool_decide (k ∈ m.*1).

Fixpoint get (k : string) (m : t) : jsval :=
  match m with
  | [] => JUndefined
  | (k', v) :: rest => if bool_decide (k' = k) then v else get k rest
  end.

Fixpoint set (k : string) (v : jsval) (m : t) : t :=
  match m with
  | [] => [(k, v)]
  | (k', v') :: rest =>
      if bool_decide (k' = k) then (k, v) :: rest
      else (k', v') :: set k v rest
  end.

Definition delete (k : string) (m : t) : t :=
  filter (fun kv => kv.1 ≠ k) m.

Definition size (m : t) : Z := Z.of_nat (length m).

(** [m.keys().next().value] *)
Definition first_key (m : t) : option string :=
  match m with
  | [] => None
  | (k, _) :: _ => Some k
  end.
End JsMap.

Definition MAX_CACHE_SIZE : Z := 100.

(** Lines 95-101, the body of [if (shouldCache && result)]. *)
Definition cache_commit (url : string) (result : jsval) (c : JsMap.t) : JsMap.t :=
  let c :=
    if MAX_CACHE_SIZE <=? JsMap.size c then
      match JsMap.first_key c with
      | Some firstValue => JsMap.delete firstValue c
      | None => c
      end
    else c in
  JsMap.set url result c.

(** ** Errors, responses and the network *)

(** A thrown [Error]-like object: the handlers read [name] and [message]. *)
Record js_error : Type := mk_error { err_name : string; err_message : string }.

(** What [fetch] rejects with once its signal has been aborted.  The text
    of the message varies between platforms; no handler reads it. *)
Definition abort_error : js_error :=
  mk_error "AbortError" "The operation was aborted.".

(** What the transport hands back for one [fetch] call, as far as lines
    88-93 look at it: a rejection (network unreachable, DNS, ...), or a
    response with its [ok] flag, its status, and what [response.json()]
    then settles to. *)
Inductive net_outcome : Type :=
  | NetReject (e : js_error)
  | NetResponse (ok : bool) (status : Z) (json : jsval + js_error).

Inductive settled : Type :=
  | Fulfilled (v : jsval)
  | Rejected (e : js_error).

(** Lines 88-93: the first [.then] of the chain.  A signal aborted before
    the chain completes rejects it with the abort error whatever the
    network was about to deliver. *)
Definition response_stage (aborted : bool) (net : net_outcome) : settled :=
  if aborted then Rejected abort_error
  else match net with
       | NetReject e => Rejected e
       | NetResponse ok status json =>
           if negb ok then
             Rejected (mk_error "Error" ("HTTP error! status: " +:+ pretty status))
           else match json with
                | inl v => Fulfilled v
                | inr e => Rejected e
                end
       end.

(** ** Requests, promises, timers, hook instances *)

(** What the closure [runFetch] captures (lines 39-50 and 76). *)
Record request : Type := mk_request {
  r_url : string;
  r_method : string;
  r_headers : list (string * jsval);
  (** [Some v] stands for the text [JSON.stringify(v)], [None] for
      [undefined] *)
  r_body : option jsval;
  r_signal : nat
}.

(** Line 50. *)
Definition shouldCache (method : string) : bool := bool_decide (method = "GET"%string).

Inductive pstate : Type :=
  | Pending
  | Settled (s : settled).

(** One call of [fetch] and the [fetchPromise] built on it.  [f_hook] is
    the instance whose [runFetch] awaits it, [f_attached] the instances
    that attached reactions through [inFlightMap.get(url)], oldest first. *)
Record fetch_call : Type := mk_fetch {
  f_hook : nat;
  f_req : request;
  f_time : Z;
  f_state : pstate;
  f_attached : list nat
}.

(** A pending [setTimeout(runFetch, debounce)]. *)
Record timer : Type := mk_timer {
  t_due : Z;
  t_hook : nat;
  t_req : request
}.

(** One instance of the hook: its three [useState] cells, its three refs,
    and the inputs of its current render, which the closures [fetchData]
    and the effect's cleanup capture.  [h_active] says that an effect is
    installed whose cleanup has not run. *)
Record hook : Type := mk_hook {
  data : jsval;
  error : option string;
  isLoading : bool;
  controller : option nat;
  timeoutRef : option nat;
  didSetInFlight : bool;
  h_url : option string;
  h_options : gmap string jsval;
  h_active : bool
}.

(** Lines 18-24. *)
Definition init_hook : hook :=
  mk_hook JNull None true None None false None ∅ false.

Record world : Type := mk_world {
  cache : JsMap.t;
  inFlightMap : gmap string nat;
  (** every [fetch] call made so far, in call order *)
  fetches : list fetch_call;
  (** the [AbortController]s created so far: [signal.aborted] *)
  controllers : list bool;
  (** the timers created so far; [None] once fired or cleared *)
  timers : list (option timer);
  hooks : gmap nat hook;
  now : Z
}.

Definition init_world : world := mk_world [] ∅ [] [] [] ∅ 0.

Definition set_cache (c : JsMap.t) (w : world) : world :=
  mk_world c (inFlightMap w) (fetches w) (controllers w) (timers w) (hooks w) (now w).
Definition set_inFlightMap (m : gmap string nat) (w : world) : world :=
  mk_world (cache w) m (fetches w) (controllers w) (timers w) (hooks w) (now w).
Definition set_fetches (l : list fetch_call) (w : world) : world :=
  mk_world (cache w) (inFlightMap w) l (controllers w) (timers w) (hooks w) (now w).
Definition set_controllers (l : list bool) (w : world) : world :=
  mk_world (cache w) (inFlightMap w) (fetches w) l (timers w) (hooks w) (now w).
Definition set_timers (l : list (option timer)) (w : world) : world :=
  mk_world (cache w) (inFlightMap w) (fetches w) (controllers w) l (hooks w) (now w).
Definition set_hooks (m : gmap nat hook) (w : world) : world :=
  mk_world (cache w) (inFlightMap w) (fetches w) (controllers w) (timers w) m (now w).
Definition set_now (t : Z) (w : world) : world :=
  mk_world (cache w) (inFlightMap w) (fetches w) (controllers w) (timers w) (hooks w) t.

Definition hook_of (w : world) (h : nat) : hook := default init_hook (hooks w !! h).

Definition upd_hook (h : nat) (f : hook → hook) (w : world) : world :=
  set_hooks (<[h := f (hook_of w h)]> (hooks w)) w.

Definition with_data (v : jsval) (k : hook) : hook :=
  mk_hook v (error k) (isLoading k) (controller k) (timeoutRef k)
          (didSetInFlight k) (h_url k) (h_options k) (h_active k).
Definition with_error (e : option string) (k : hook) : hook :=
  mk_hook (data k) e (isLoading k) (controller k) (timeoutRef k)
          (didSetInFlight k) (h_url k) (h_options k) (h_active k).
Definition with_isLoading (b : bool) (k : hook) : hook :=
  mk_hook (data k) (error k) b (controller k) (timeoutRef k)
          (didSetInFlight k) (h_url k) (h_options k) (h_active k).
Definition with_controller (c : option nat) (k : hook) : hook :=
  mk_hook (data k) (error k) (isLoading k) c (timeoutRef k)
          (didSetInFlight k) (h_url k) (h_options k) (h_active k).
Definition with_timeoutRef (t : option nat) (k : hook) : hook :=
  mk_hook (data k) (error k) (isLoading k) (controller k) t
          (didSetInFlight k) (h_url k) (h_options k) (h_active k).
Definition with_didSetInFlight (b : bool) (k : hook) : hook :=
  mk_hook (data k) (error k) (isLoading k) (controller k) (timeoutRef k)
          b (h_url k) (h_options k) (h_active k).
Definition with_inputs (url : option string) (options : gmap string jsval)
    (k : hook) : hook :=
  mk_hook (data k) (error k) (isLoading k) (controller k) (timeoutRef k)
          (didSetInFlight k) url options true.
Definition with_active (b : bool) (k : hook) : hook :=
  mk_hook (data k) (error k) (isLoading k) (controller k) (timeoutRef k)
          (didSetInFlight k) (h_url k) (h_options k) b.

Definition setData (h : nat) (v : jsval) : world → world := upd_hook h (with_data v).
Definition setError (h : nat) (e : option string) : world → world :=
  upd_hook h (with_error e).
Definition setIsLoading (h : nat) (b : bool) : world → world :=
  upd_hook h (with_isLoading b).

(** ** Lines 26-34: [stableOptions] *)

Record StableOptions : Type := mk_so {
  so_method : jsval;
  so_headers : jsval;
  so_body : jsval;
  so_debounce : jsval
}.

(** [options.k]; the options object is a map from its keys to values. *)
Definition opt (options : gmap string jsval) (k : string) : jsval :=
  default JUndefined (options !! k).

Definition stableOptions (options : gmap string jsval) : StableOptions :=
  mk_so (js_or (opt options "method") (JStr "GET"))
        (js_or (opt options "headers") (JObj []))
        (js_or (opt options "body") JNull)
        (js_or (opt options "debounce") (JNum 0)).

(** ** Platform objects: timers and abort controllers *)

(** [new AbortController()]: the new controller's index is the length of
    the list before the call. *)
Definition new_controller (w : world) : world :=
  set_controllers (controllers w ++ [false]) w.

(** [controller.abort()] *)
Definition abort (c : nat) (w : world) : world :=
  set_controllers (<[c := true]> (controllers w)) w.

Definition signal_aborted (w : world) (c : nat) : bool :=
  default false (controllers w !! c).

(** [clearTimeout(t)]; a fired or cleared timer is left as it is. *)
Definition clearTimeout (t : nat) (w : world) : world :=
  set_timers (<[t := None]> (timers w)) w.

(** [timeoutRef.current = setTimeout(runFetch, d)].  A timer handle is
    always truthy. *)
Definition setTimeout (h : nat) (rq : request) (d : Z) (w : world) : world :=
  let t := length (timers w) in
  upd_hook h (with_timeoutRef (Some t))
    (set_timers (timers w ++ [Some (mk_timer (now w + d) h rq)]) w).

(** ** Lines 78-121: [runFetch] up to its [await], and what follows it *)

(** Lines 79-108: the two state writes, the [fetch] call, and the
    registration of [fetchPromise]. *)
Definition runFetch (h : nat) (rq : request) (w : world) : world :=
  let w := setIsLoading h true w in
  let w := setError h None w in
  let pid := length (fetches w) in
  let w := set_fetches (fetches w ++ [mk_fetch h rq (now w) Pending []]) w in
  if shouldCache (r_method rq) then
    upd_hook h (with_didSetInFlight true)
      (set_inFlightMap (<[r_url rq := pid]> (inFlightMap w)) w)
  else w.

(** Lines 94-103: the second [.then] of the chain. *)
Definition cache_stage (rq : request) (s : settled) (w : world) : world :=
  match s with
  | Fulfilled result =>
      if (shouldCache (r_method rq) && truthy result)%bool
      then set_cache (cache_commit (r_url rq) result (cache w)) w
      else w
  | Rejected _ => w
  end.

(** [err.name !== "AbortError"] *)
Definition not_abort (e : js_error) : bool :=
  negb (bool_decide (err_name e = "AbortError"%string)).

(** Lines 110-120: [runFetch] after its [await]. *)
Definition resume (h : nat) (rq : request) (s : settled) (w : world) : world :=
  let w :=
    match s with
    | Fulfilled result => setData h result w
    | Rejected err =>
        if not_abort err then setError h (Some (err_message err)) w else w
    end in
  let w := setIsLoading h false w in
  if shouldCache (r_method rq)
  then set_inFlightMap (delete (r_url rq) (inFlightMap w)) w
  else w.

(** Lines 64-71: the reactions an attached caller put on the shared
    promise. *)
Definition react (h : nat) (s : settled) (w : world) : world :=
  let w :=
    match s with
    | Fulfilled result => setError h None (setData h result w)
    | Rejected err =>
        if not_abort err then setError h (Some (err_message err)) w else w
    end in
  setIsLoading h false w.

Definition with_state (st : pstate) (f : fetch_call) : fetch_call :=
  mk_fetch (f_hook f) (f_req f) (f_time f) st (f_attached f).
Definition with_attached (l : list nat) (f : fetch_call) : fetch_call :=
  mk_fetch (f_hook f) (f_req f) (f_time f) (f_state f) l.

(** The network call behind promise [pid] completes with [net]: the chain
    runs, then the originator's continuation, then the attached reactions
    in the order they were attached.  A promise settles once. *)
Definition settle (pid : nat) (net : net_outcome) (w : world) : world :=
  match fetches w !! pid with
  | Some f =>
      match f_state f with
      | Pending =>
          let s := response_stage (signal_aborted w (r_signal (f_req f))) net in
          let w := cache_stage (f_req f) s w in
          let w := set_fetches (<[pid := with_state (Settled s) f]> (fetches w)) w in
          let w := resume (f_hook f) (f_req f) s w in
          foldl (fun w h => react h s w) w (f_attached f)
      | Settled _ => w
      end
  | None => w
  end.

(** Lines 62-71: [inFlightMap.get(url).then(..).catch(..).finally(..)].
    On a pending promise the reactions wait; on a settled one they run
    in the next microtask. *)
Definition attach (h : nat) (pid : nat) (w : world) : world :=
  match fetches w !! pid with
  | Some f =>
      match f_state f with
      | Pending =>
          set_fetches (<[pid := with_attached (f_attached f ++ [h]) f]> (fetches w)) w
      | Settled s => react h s w
      end
  | None => w
  end.

(** ** Lines 36-130: [fetchData] *)

(** Lines 39-48 and 76: the method, headers, body and signal that
    [runFetch] will hand to [fetch], from the method string [m]. *)
Definition request_of (url m : string) (so : StableOptions) (c : nat) : request :=
  let method := toUpperCase m in
  let headers := spread (so_headers so) in
  let body :=
    if (negb (bool_decide (method = "GET"%string)) && truthy (so_body so))%bool
    then Some (so_body so) else None in
  let headers :=
    if (bool_decide (is_Some body)
        && negb (truthy (obj_get headers "Content-Type")))%bool
    then obj_set headers "Content-Type" (JStr "application/json")
    else headers in
  mk_request url method headers body c.

(** Lines 75 and 123: a fresh controller in [controller.current], and the
    timer in [timeoutRef.current], if any, cleared. *)
Definition arm (h : nat) (w : world) : world :=
  let c := length (controllers w) in
  let w := upd_hook h (with_controller (Some c)) (new_controller w) in
  match timeoutRef (hook_of w h) with
  | Some t => clearTimeout t w
  | None => w
  end.

(** [None]: the call throws ([method] has no [toUpperCase]) or compares a
    [debounce] that [to_number] does not cover. *)
Definition fetchData (h : nat) (url : option string) (so : StableOptions)
    (w : world) : option world :=
  match url with
  | None => Some w
  | Some url =>
      if bool_decide (url = ""%string) then Some w else
      match so_method so with
      | JStr m =>
          let method := toUpperCase m in
          if (shouldCache method && JsMap.has url (cache w))%bool then
            Some (setError h None
                    (setIsLoading h false
                       (setData h (JsMap.get url (cache w)) w)))
          else
          match (if shouldCache method then inFlightMap w !! url else None) with
          | Some pid => Some (attach h pid (setIsLoading h true w))
          | None =>
              let rq := request_of url m so (length (controllers w)) in
              let w := arm h w in
              match to_number (so_debounce so) with
              | Some d =>
                  if 0 <? d then Some (setTimeout h rq d w)
                  else Some (runFetch h rq w)
              | None => None
              end
          end
      | _ => None
      end
  end.

(** ** Lines 132-140: the effect *)

(** The cleanup closure, with the [url] of the render that installed it.
    Map keys are strings here, so [delete] on an absent [url] finds
    nothing. *)
Definition cleanup (h : nat) (url : option string) (w : world) : world :=
  let k := hook_of w h in
  let w := match controller k with Some c => abort c w | None => w end in
  let w := match timeoutRef k with Some t => clearTimeout t w | None => w end in
  if didSetInFlight k then
    match url with
    | Some u => set_inFlightMap (delete u (inFlightMap w)) w
    | None => w
    end
  else w.

(** Lines 7-15. *)
Definition clearCache (w : world) : world :=
  set_inFlightMap ∅ (set_cache [] w).

Definition invalidateURL (url : string) (w : world) : world :=
  set_inFlightMap (delete url (inFlightMap w))
    (set_cache (JsMap.delete url (cache w)) w).

(** ** Timers coming due *)

(** A due timer runs its [runFetch]. *)
Definition fire (t : nat) (w : world) : world :=
  match timers w !! t with
  | Some (Some tm) =>
      runFetch (t_hook tm) (t_req tm)
        (set_now (Z.max (now w) (t_due tm))
           (set_timers (<[t := None]> (timers w)) w))
  | _ => w
  end.

Fixpoint insert_due (x : Z * nat) (l : list (Z * nat)) : list (Z * nat) :=
  match l with
  | [] => [x]
  | y :: rest => if x.1 <? y.1 then x :: l else y :: insert_due x rest
  end.

(** The pending timers of [ts] due by [target] with their handles, the
    first handle being [i]. *)
Fixpoint pending_from (i : nat) (target : Z) (ts : list (option timer))
  : list (Z * nat) :=
  match ts with
  | [] => []
  | x :: rest =>
      match x with
      | Some tm =>
          if t_due tm <=? target then (t_due tm, i) :: pending_from (S i) target rest
          else pending_from (S i) target rest
      | None => pending_from (S i) target rest
      end
  end.

(** The handles of the pending timers due by [target], earliest first,
    equal due times in creation order. *)
Definition due_by (target : Z) (ts : list (option timer)) : list nat :=
  (foldl (fun acc x => insert_due x acc) [] (pending_from 0 target ts)).*2.

(** [dt] milliseconds pass: every timer due by then fires, at its due
    time. *)
Definition elapse (dt : Z) (w : world) : world :=
  let target := now w + Z.max 0 dt in
  set_now target (foldl (fun w t => fire t w) w (due_by target (timers w))).

(** ** The life of the system as a sequence of events *)

Inductive event : Type :=
  (** the effect runs for new inputs: first mount, or a render that changed
      [url] or one of the four options (the old effect's cleanup first) *)
  | Render (h : nat) (url : option string) (options : gmap string jsval)
  (** the consumer calls the returned [refetch] *)
  | Refetch (h : nat)
  (** the component unmounts: the cleanup runs *)
  | Unmount (h : nat)
  | Elapse (dt : Z)
  | Settle (pid : nat) (net : net_outcome)
  | ClearCache
  | InvalidateURL (url : string).

Definition render (h : nat) (url : option string) (options : gmap string jsval)
    (w : world) : option world :=
  let k := hook_of w h in
  let w := if h_active k then cleanup h (h_url k) w else w in
  let w := upd_hook h (with_inputs url options) w in
  fetchData h url (stableOptions options) w.

Definition refetch (h : nat) (w : world) : option world :=
  let k := hook_of w h in
  fetchData h (h_url k) (stableOptions (h_options k)) w.

Definition unmount (h : nat) (w : world) : world :=
  let k := hook_of w h in
  if h_active k then upd_hook h (with_active false) (cleanup h (h_url k) w)
  else w.

Definition step (w : world) (e : event) : option world :=
  match e with
  | Render h url options => render h url options w
  | Refetch h => refetch h w
  | Unmount h => Some (unmount h w)
  | Elapse dt => Some (elapse dt w)
  | Settle pid net => Some (settle pid net w)
  | ClearCache => Some (clearCache w)
  | InvalidateURL url => Some (invalidateURL url w)
  end.

Fixpoint run (w : world) (tr : list event) : option world :=
  match tr with
  | [] => Some w
  | e :: rest =>
      match step w e with
      | Some w' => run w' rest
      | None => None
      end
  end.

Definition reachable (w : world) : Prop :=
  ∃ tr, run init_world tr = Some w.

(** ** Vocabulary of the properties *)

(** [!url] *)
Definition falsy_url (url : option string) : bool :=
  match url with
  | None => true
  | Some u => bool_decide (u = ""%string)
  end.

(** An event that gives instance [h] no truthy URL. *)
Definition no_url_for (h : nat) (e : event) : Prop :=
  match e with
  | Render h' url _ => h' = h → falsy_url url = true
  | _ => True
  end.

(** The cache is a well-formed [Map] within its bound. *)
Definition cache_ok (c : JsMap.t) : Prop :=
  NoDup c.*1 ∧ JsMap.size c ≤ MAX_CACHE_SIZE.

(** Every registry entry names a pending GET promise for its own URL. *)
Definition registry_pending (w : world) : Prop :=
  ∀ u pid, inFlightMap w !! u = Some pid →
    ∃ f, fetches w !! pid = Some f ∧ f_state f = Pending ∧
         r_url (f_req f) = u ∧ shouldCache (r_method (f_req f)) = true.

(** The registry and the cache never hold the same URL. *)
Definition exclusive (w : world) : Prop :=
  ∀ u, JsMap.has u (cache w) = true → inFlightMap w !! u = None.

(** Supplying a positive number under the option key [key] debounces the
    request: for a URL with no cache entry and no registry entry, the call
    sends nothing and leaves a timer that is due one delay later. *)
Definition debounced_by (key : string) : Prop :=
  ∀ h u options d w,
    u ≠ ""%string → options !! key = Some (JNum d) → 0 < d →
    (∃ m, so_method (stableOptions options) = JStr m) →
    JsMap.has u (cache w) = false → inFlightMap w !! u = None →
    ∃ w' tm,
      fetchData h (Some u) (stableOptions options) w = Some w' ∧
      fetches w' = fetches w ∧
      timers w' !! length (timers w) = Some (Some tm) ∧
      t_due tm = now w + d ∧ t_hook tm = h ∧ r_url (t_req tm) = u.

(** A positive [debounce] postpones everything a call does: at the moment
    of the call no state cell of the caller has changed and no promise has
    been created or attached to. *)
Definition delays_all_steps : Prop :=
  ∀ h u so d w w',
    u ≠ ""%string → to_number (so_debounce so) = Some d → 0 < d →
    fetchData h (Some u) so w = Some w' →
    data (hook_of w' h) = data (hook_of w h) ∧
    isLoading (hook_of w' h) = isLoading (hook_of w h) ∧
    fetches w' = fetches w.

(** Promise [pid] is the pending promise [f0], with the callers [f0] knew
    still attached and possibly more behind them. *)
Definition awaits (pid : nat) (f0 : fetch_call) (w : world) : Prop :=
  ∃ l, fetches w !! pid = Some (with_attached (f_attached f0 ++ l) f0).

(** The event settles promise [pid]. *)
Definition settles (pid : nat) (e : event) : bool :=
  match e with
  | Settle p _ => bool_decide (p = pid)
  | _ => false
  end.

(** The three state cells an instance returns to its consumer. *)
Definition cells (k : hook) : jsval * option string * bool :=
  (data k, error k, isLoading k).

(** Instance [h] has made a [fetch] call with method GET. *)
Definition get_originator (h : nat) (w : world) : Prop :=
  ∃ pid f, fetches w !! pid = Some f ∧ f_hook f = h ∧
           r_method (f_req f) = "GET"%string.

(** Only instances that made a GET call have [didSetInFlight.current]
    set. *)
Definition flags_backed (w : world) : Prop :=
  ∀ h, didSetInFlight (hook_of w h) = true → get_originator h w.

(** From [w] to [w'] no flag was set without a GET call to show for it,
    and no call left the log. *)
Definition carries_on (w w' : world) : Prop :=
  (∀ h, didSetInFlight (hook_of w' h) = true →
        didSetInFlight (hook_of w h) = true ∨ get_originator h w') ∧
  (∀ h, get_originator h w → get_originator h w').

(** Every value in the cache is truthy. *)
Definition cache_truthy (c : JsMap.t) : Prop :=
  ∀ kv, kv ∈ c → truthy kv.2 = true.

(** Every pending timer is the one its instance holds in [timeoutRef]. *)
Definition timers_owned (w : world) : Prop :=
  ∀ t tm, timers w !! t = Some (Some tm) →
          timeoutRef (hook_of w (t_hook tm)) = Some t.

(** The [fetch] calls instance [h] has made, in call order. *)
Definition calls_of (h : nat) (w : world) : list fetch_call :=
  filter (fun f => f_hook f = h) (fetches w).

(** Instance [h] shows the cells [c], has made the calls [l], has a falsy
    URL, and has nothing outstanding: no pending promise that it created
    or is attached to, and no pending timer. *)
Definition at_rest (h : nat) (c : jsval * option string * bool)
    (l : list fetch_call) (w : world) : Prop :=
  cells (hook_of w h) = c ∧ calls_of h w = l ∧
  falsy_url (h_url (hook_of w h)) = true ∧
  (∀ pid f, fetches w !! pid = Some f → f_state f = Pending →
            f_hook f ≠ h ∧ h ∉ f_attached f) ∧
  (∀ t tm, timers w !! t = Some (Some tm) → t_hook tm ≠ h).

(** Timer [t], if pending in [w], is to run a GET request for a URL that
    is in the cache of [w]. *)
Definition late (w : world) (t : nat) : bool :=
  match timers w !! t with
  | Some (Some tm) =>
      shouldCache (r_method (t_req tm)) && JsMap.has (r_url (t_req tm)) (cache w)
  | _ => false
  end.

(** The step [e] taken from [w] fires the debounce timer of a GET request
    whose URL is cached. *)
Definition fires_on_cached (w : world) (e : event) : bool :=
  match e with
  | Elapse dt => existsb (late w) (due_by (now w + Z.max 0 dt) (timers w))
  | _ => false
  end.

(** No step of [tr], run from [w], does. *)
Fixpoint no_fire_on_cached (w : world) (tr : list event) : bool :=
  match tr with
  | [] => true
  | e :: rest =>
      negb (fires_on_cached w e) &&
      match step w e with
      | Some w' => no_fire_on_cached w' rest
      | None => true
      end
  end.

(** [w'] differs from [w] in the hook instances at most. *)
Definition hooks_only (w w' : world) : Prop :=
  cache w' = cache w ∧ inFlightMap w' = inFlightMap w ∧
  fetches w' = fetches w ∧ controllers w' = controllers w ∧
  timers w' = timers w ∧ now w' = now w.

(** What [react] and [resume] do to the state cells of their instance. *)
Definition react_hook (s : settled) (k : hook) : hook :=
  with_isLoading false
    match s with
    | Fulfilled result => with_error None (with_data result k)
    | Rejected err =>
        if not_abort err then with_error (Some (err_message err)) k else k
    end.

Definition resume_hook (s : settled) (k : hook) : hook :=
  with_isLoading false
    match s with
    | Fulfilled result => with_data result k
    | Rejected err =>
        if not_abort err then with_error (Some (err_message err)) k else k
    end.

(** ** Scenarios *)

Definition ok_json (v : jsval) : net_outcome := NetResponse true 200 (inl v).

(** The world a sequence of events leads to from the start. *)
Definition world_after (tr : list event) : world :=
  default init_world (run init_world tr).

(** [n] components, each fetching a URL of its own with success. *)
Definition fill_trace (n : nat) : list event :=
  flat_map (fun i => [Render i (Some ("/" +:+ pretty i)) ∅;
                      Settle i (ok_json (JNum 1))])
           (seq 0 n).

(** Component 0 has fetched "/a" with success. *)
Definition cached_a : list event :=
  [Render 0 (Some "/a"%string) ∅; Settle 0 (ok_json (JNum 1))].

(** Component 0 fetches "/a" and the request fails; component 1 then
    fetches "/a" and its request is in flight. *)
Definition teardown_scenario : list event :=
  [Render 0 (Some "/a"%string) ∅;
   Settle 0 (NetReject (mk_error "TypeError" "Failed to fetch"));
   Render 1 (Some "/a"%string) ∅].

(** Two components ask for "/a" with [{debounce: 500}] in the same tick,
    and 500 ms pass. *)
Definition debounced_pair : list event :=
  [Render 0 (Some "/a"%string) {[ "debounce"%string := JNum 500 ]};
   Render 1 (Some "/a"%string) {[ "debounce"%string := JNum 500 ]};
   Elapse 500].

(** Component 0 asks for "/a" with [{debounce: 500}]; before its timer is
    due component 1 fetches "/a" with success; then the timer fires. *)
Definition late_timer : list event :=
  [Render 0 (Some "/a"%string) {[ "debounce"%string := JNum 500 ]};
   Render 1 (Some "/a"%string) ∅;
   Settle 0 (ok_json (JNum 1));
   Elapse 500].

(** A component restarts its debounce twice by [refetch]; a second
    component arms a debounce of its own. *)
Definition restarted_debounce : list event :=
  [Render 0 (Some "/q"%string) {[ "debounce"%string := JNum 500 ]};
   Elapse 100; Refetch 0; Elapse 100; Refetch 0;
   Render 1 (Some "/q"%string) {[ "debounce"%string := JNum 300 ]}].

(** A GET timer for "/a" and a POST timer for "/b" fire while neither URL
    is cached; "/a" is then cached and component 2 is served from the
    cache. *)
Definition harmless_timers : list event :=
  [Render 0 (Some "/a"%string) {[ "debounce"%string := JNum 500 ]};
   Render 1 (Some "/b"%string)
     {[ "method"%string := JStr "POST"; "debounce"%string := JNum 100 ]};
   Elapse 500; Settle 1 (ok_json (JNum 1)); Render 2 (Some "/a"%string) ∅;
   Elapse 1000].

(** Component 0 has fetched "/a" with success and is then rendered
    with an empty URL. *)
Definition emptied_url : list event :=
  [Render 0 (Some "/a"%string) ∅; Settle 0 (ok_json (JNum 1));
   Render 0 (Some ""%string) ∅].

(** Two components are mounted without a URL. *)
Definition mounted_pair : list event := [Render 0 None ∅; Render 1 None ∅].

(** Component 0 has fetched "/a" with success; component 1 has a
    debounce timer for "/other" pending, due at 300. *)
Definition others_at_work : list event :=
  [Render 0 (Some "/a"%string) ∅; Settle 0 (ok_json (JNum 1));
   Render 1 (Some "/other"%string) {[ "debounce"%string := JNum 300 ]}].

Ltac wsimpl :=
  cbn [cache inFlightMap fetches controllers timers hooks now
       set_cache set_inFlightMap set_fetches set_controllers set_timers
       set_hooks set_now upd_hook setData setError setIsLoading
       new_controller abort clearTimeout setTimeout] in *.

(** * Properties *)

(** ** The [Map] operations *)

Section JsMapFacts.
Implicit Types (m : JsMap.t) (k : string) (v : jsval).

Lemma has_true k m : JsMap.has k m = true ↔ k ∈ m.*1.
Proof. unfold JsMap.has. by rewrite bool_decide_eq_true. Qed.

Lemma has_false k m : JsMap.has k m = false ↔ k ∉ m.*1.
Proof. unfold JsMap.has. by rewrite bool_decide_eq_false. Qed.

Lemma set_keys_present k v m : k ∈ m.*1 → (JsMap.set k v m).*1 = m.*1.
Proof.
  induction m as [|[k' v'] m IH]; simpl; intros Hin.
  - by apply elem_of_nil in Hin.
  - case_bool_decide as Hk; simpl; [by subst|].
    f_equal. apply IH. apply elem_of_cons in Hin as [->|]; [done|done].
Qed.

Lemma set_keys_absent k v m : k ∉ m.*1 → (JsMap.set k v m).*1 = m.*1 ++ [k].
Proof.
  induction m as [|[k' v'] m IH]; simpl; intros Hin; [done|].
  apply not_elem_of_cons in Hin as [Hne Hin].
  case_bool_decide; [congruence|]. simpl. f_equal. by apply IH.
Qed.

Lemma set_elem_of k k' v m : k' ∈ (JsMap.set k v m).*1 ↔ k' = k ∨ k' ∈ m.*1.
Proof.
  destruct (decide (k ∈ m.*1)) as [Hin|Hin].
  - rewrite set_keys_present by done. split; [by right|]. by intros [->|].
  - rewrite set_keys_absent by done. rewrite elem_of_app, list_elem_of_singleton.
    tauto.
Qed.

Lemma set_NoDup k v m : NoDup m.*1 → NoDup (JsMap.set k v m).*1.
Proof.
  intros Hnd. destruct (decide (k ∈ m.*1)) as [Hin|Hin].
  - by rewrite set_keys_present.
  - rewrite set_keys_absent by done. apply NoDup_app. split_and!; [done| |].
    + intros x Hx Hx'. apply list_elem_of_singleton in Hx'. by subst.
    + apply NoDup_singleton.
Qed.

Lemma set_length k v m :
  length (JsMap.set k v m) = if JsMap.has k m then length m else S (length m).
Proof.
  destruct (JsMap.has k m) eqn:Hh.
  - apply has_true in Hh. rewrite <- (length_fmap fst), set_keys_present by done.
    by rewrite length_fmap.
  - apply has_false in Hh. rewrite <- (length_fmap fst), set_keys_absent by done.
    rewrite length_app, length_fmap. simpl. lia.
Qed.

Lemma delete_elem_of k k' m : k' ∈ (JsMap.delete k m).*1 ↔ k' ≠ k ∧ k' ∈ m.*1.
Proof.
  unfold JsMap.delete. rewrite !list_elem_of_fmap. split.
  - intros ([a b] & -> & Hin). apply list_elem_of_filter in Hin as [Hne Hin].
    split; [done|]. by exists (a, b).
  - intros (Hne & [a b] & -> & Hin). exists (a, b). split; [done|].
    by apply list_elem_of_filter.
Qed.

Lemma delete_NoDup k m : NoDup m.*1 → NoDup (JsMap.delete k m).*1.
Proof.
  induction m as [|[k' v'] m IH]; [done|].
  rewrite fmap_cons, NoDup_cons. intros [Hk Hnd]. unfold JsMap.delete.
  rewrite filter_cons. cbn [fst]. fold (JsMap.delete k m).
  case_decide; [|by apply IH]. rewrite fmap_cons. apply NoDup_cons.
  split; [|by apply IH].
  intros Hin. apply Hk. by apply (delete_elem_of k k' m) in Hin as [_ ?].
Qed.

Lemma delete_length k m : (length (JsMap.delete k m) ≤ length m)%nat.
Proof. apply length_filter. Qed.

Lemma delete_absent k m : k ∉ m.*1 → JsMap.delete k m = m.
Proof.
  induction m as [|[k' v'] m IH]; [done|].
  rewrite fmap_cons. intros [Hne Hin]%not_elem_of_cons. unfold JsMap.delete.
  rewrite filter_cons. cbn [fst] in *. fold (JsMap.delete k m).
  case_decide; [|congruence]. f_equal. by apply IH.
Qed.

(** Deleting the first key of a well-formed map removes exactly its
    first entry. *)
Lemma delete_first k v m : NoDup ((k, v) :: m).*1 → JsMap.delete k ((k, v) :: m) = m.
Proof.
  rewrite fmap_cons, NoDup_cons. intros [Hk _]. unfold JsMap.delete.
  rewrite filter_cons. cbn [fst] in *. fold (JsMap.delete k m).
  case_decide; [congruence|]. by apply delete_absent.
Qed.

Lemma cache_commit_below url v m :
  JsMap.size m < MAX_CACHE_SIZE → cache_commit url v m = JsMap.set url v m.
Proof.
  intros Hlt. unfold cache_commit.
  destruct (MAX_CACHE_SIZE <=? JsMap.size m) eqn:E; [|done].
  apply Z.leb_le in E. lia.
Qed.

Lemma cache_commit_full url v k0 v0 rest :
  NoDup ((k0, v0) :: rest).*1 →
  MAX_CACHE_SIZE ≤ JsMap.size ((k0, v0) :: rest) →
  cache_commit url v ((k0, v0) :: rest) = JsMap.set url v rest.
Proof.
  intros Hnd Hle. unfold cache_commit.
  destruct (MAX_CACHE_SIZE <=? _) eqn:E.
  - cbn [JsMap.first_key]. by rewrite delete_first.
  - apply Z.leb_gt in E. lia.
Qed.

Lemma cache_commit_ok url v m : cache_ok m → cache_ok (cache_commit url v m).
Proof.
  intros [Hnd Hsz]. destruct (decide (JsMap.size m < MAX_CACHE_SIZE)) as [Hlt|Hge].
  - rewrite cache_commit_below by done. split; [by apply set_NoDup|].
    unfold JsMap.size in *. rewrite set_length. destruct (JsMap.has url m); lia.
  - destruct m as [|[k0 v0] rest].
    { unfold JsMap.size, MAX_CACHE_SIZE in *. simpl in *. lia. }
    rewrite cache_commit_full by (done || lia).
    simpl in Hnd. apply NoDup_cons in Hnd as [_ Hnd].
    split; [by apply set_NoDup|].
    unfold JsMap.size in *. rewrite set_length. simpl in Hsz.
    destruct (JsMap.has url rest); lia.
Qed.

Lemma cache_commit_elem_of url v m k :
  k ∈ (cache_commit url v m).*1 → k = url ∨ k ∈ m.*1.
Proof.
  unfold cache_commit. intros Hin. apply set_elem_of in Hin as [?|Hin]; [by left|].
  right. destruct (MAX_CACHE_SIZE <=? _); [|done].
  destruct (JsMap.first_key m); [|done].
  by apply delete_elem_of in Hin as [_ ?].
Qed.

Lemma delete_ok k m : cache_ok m → cache_ok (JsMap.delete k m).
Proof.
  intros [Hnd Hsz]. split; [by apply delete_NoDup|].
  pose proof (delete_length k m). unfold JsMap.size in *. lia.
Qed.

Lemma empty_ok : cache_ok [].
Proof. split; [constructor|]. unfold JsMap.size, MAX_CACHE_SIZE. simpl. lia. Qed.
End JsMapFacts.

(** ** Frames: what each operation leaves alone *)

Lemma hook_of_upd_hook h h' f w :
  hook_of (upd_hook h f w) h' = if decide (h = h') then f (hook_of w h) else hook_of w h'.
Proof.
  unfold hook_of at 1. wsimpl. case_decide as E.
  - subst. by rewrite lookup_insert_eq.
  - by rewrite lookup_insert_ne.
Qed.

Lemma hook_of_upd_hook_eq h f w : hook_of (upd_hook h f w) h = f (hook_of w h).
Proof. rewrite hook_of_upd_hook. by case_decide. Qed.

Lemma hook_of_upd_hook_ne h h' f w : h ≠ h' → hook_of (upd_hook h f w) h' = hook_of w h'.
Proof. intros. rewrite hook_of_upd_hook. by case_decide. Qed.

Lemma hooks_only_refl w : hooks_only w w.
Proof. by repeat split. Qed.

Lemma hooks_only_trans w1 w2 w3 : hooks_only w1 w2 → hooks_only w2 w3 → hooks_only w1 w3.
Proof.
  intros (?&?&?&?&?&?) (?&?&?&?&?&?). repeat split; congruence.
Qed.

Lemma upd_hook_only h f w : hooks_only w (upd_hook h f w).
Proof. by repeat split. Qed.

Lemma react_only h s w : hooks_only w (react h s w).
Proof.
  unfold react. destruct s as [v|e]; [|destruct (not_abort e)]; by repeat split.
Qed.

Lemma foldl_react_only s l w : hooks_only w (foldl (fun w h => react h s w) w l).
Proof.
  revert w. induction l as [|h l IH]; intros w; simpl; [apply hooks_only_refl|].
  eapply hooks_only_trans; [apply react_only|apply IH].
Qed.

(** A property of worlds carried along a list of operations. *)
Lemma foldl_preserves {A} (P : world → Prop) (op : A → world → world) l w :
  (∀ a w, P w → P (op a w)) → P w → P (foldl (fun w a => op a w) w l).
Proof. intros Hop. revert w. induction l; simpl; auto. Qed.

Lemma run_preserves (P : world → Prop) :
  (∀ w e w', P w → step w e = Some w' → P w') →
  ∀ tr w w', P w → run w tr = Some w' → P w'.
Proof.
  intros Hstep tr. induction tr as [|e tr IH]; simpl; intros w w' Hw Hrun.
  - by injection Hrun as <-.
  - destruct (step w e) as [w1|] eqn:E; [|done]. eauto.
Qed.

(** ** The cache stays a bounded, duplicate-free [Map] *)

(** The four ways through [fetchData]. *)
Lemma fetchData_cases h url so w w' :
  fetchData h url so w = Some w' →
  (falsy_url url = true ∧ w' = w) ∨
  ∃ u m, url = Some u ∧ u ≠ ""%string ∧ so_method so = JStr m ∧
    ((shouldCache (toUpperCase m) = true ∧ JsMap.has u (cache w) = true ∧
      w' = setError h None (setIsLoading h false (setData h (JsMap.get u (cache w)) w)))
     ∨ (shouldCache (toUpperCase m) = true ∧ JsMap.has u (cache w) = false ∧
        ∃ pid, inFlightMap w !! u = Some pid ∧
               w' = attach h pid (setIsLoading h true w))
     ∨ ((shouldCache (toUpperCase m) = true →
           JsMap.has u (cache w) = false ∧ inFlightMap w !! u = None) ∧
        ∃ d, to_number (so_debounce so) = Some d ∧
          let rq := request_of u m so (length (controllers w)) in
          (0 < d ∧ w' = setTimeout h rq d (arm h w)
           ∨ d ≤ 0 ∧ w' = runFetch h rq (arm h w)))).
Proof.
  unfold fetchData. intros H.
  destruct url as [u|]; [|left; by injection H as <-].
  simpl. case_bool_decide as Hu; [left; by injection H as <-|].
  right. destruct (so_method so) as [| | | |m| |]; try done.
  exists u, m. split_and!; [done..|].
  destruct (shouldCache (toUpperCase m)) eqn:Hsc; simpl in H.
  - destruct (JsMap.has u (cache w)) eqn:Hhas.
    { left. by injection H as <-. }
    right. destruct (inFlightMap w !! u) as [pid|] eqn:Hfl.
    { left. injection H as <-. split_and!; [done..|]. by exists pid. }
    right. split; [done|].
    destruct (to_number _) as [d|]; [|done]. exists d. split; [done|].
    destruct (0 <? d) eqn:Hd; injection H as <-.
    + left. by apply Z.ltb_lt in Hd.
    + right. by apply Z.ltb_ge in Hd.
  - right; right. split; [done|].
    destruct (to_number _) as [d|]; [|done]. exists d. split; [done|].
    destruct (0 <? d) eqn:Hd; injection H as <-.
    + left. by apply Z.ltb_lt in Hd.
    + right. by apply Z.ltb_ge in Hd.
Qed.

Lemma arm_cache h w : cache (arm h w) = cache w.
Proof. unfold arm. cbv zeta. by destruct (timeoutRef _). Qed.

Lemma arm_inFlightMap h w : inFlightMap (arm h w) = inFlightMap w.
Proof. unfold arm. cbv zeta. by destruct (timeoutRef _). Qed.

Lemma arm_fetches h w : fetches (arm h w) = fetches w.
Proof. unfold arm. cbv zeta. by destruct (timeoutRef _). Qed.

Lemma arm_now h w : now (arm h w) = now w.
Proof. unfold arm. cbv zeta. by destruct (timeoutRef _). Qed.

Lemma runFetch_cache h rq w : cache (runFetch h rq w) = cache w.
Proof. unfold runFetch. wsimpl. by destruct (shouldCache _). Qed.

Lemma attach_cache h pid w : cache (attach h pid w) = cache w.
Proof.
  unfold attach. destruct (fetches w !! pid) as [f|]; [|done].
  destruct (f_state f) as [|s]; [done|].
  by destruct (react_only h s w) as [-> _].
Qed.

Lemma fetchData_cache h url so w w' : fetchData h url so w = Some w' → cache w' = cache w.
Proof.
  intros H. apply fetchData_cases in H
    as [[_ ->]|(u & m & _ & _ & _ & [(_ & _ & ->)|[(_ & _ & pid & _ & ->)|(_ & d & _ & H)]])];
    [done|done|by rewrite attach_cache|].
  destruct H as [[_ ->]|[_ ->]].
  - wsimpl. apply arm_cache.
  - by rewrite runFetch_cache, arm_cache.
Qed.

Lemma cleanup_cache h url w : cache (cleanup h url w) = cache w.
Proof.
  unfold cleanup. destruct (controller _), (timeoutRef _), (didSetInFlight _), url; done.
Qed.

Lemma fire_cache t w : cache (fire t w) = cache w.
Proof.
  unfold fire. destruct (timers w !! t) as [[tm|]|]; [|done..].
  by rewrite runFetch_cache.
Qed.

Lemma elapse_cache dt w : cache (elapse dt w) = cache w.
Proof.
  unfold elapse. wsimpl.
  apply (foldl_preserves (fun w' => cache w' = cache w) fire); [|done].
  intros t w' <-. apply fire_cache.
Qed.

Lemma resume_cache h rq s w : cache (resume h rq s w) = cache w.
Proof.
  unfold resume. destruct (shouldCache _), s as [v|e]; try destruct (not_abort e); done.
Qed.

(** What a step does to the cache: nothing, an administrative removal, or
    the commit of a truthy body by a GET promise that just fulfilled. *)
Lemma settle_cache pid net w :
  cache (settle pid net w) = cache w ∨
  ∃ f v, fetches w !! pid = Some f ∧ f_state f = Pending ∧
         r_method (f_req f) = "GET"%string ∧
         response_stage (signal_aborted w (r_signal (f_req f))) net = Fulfilled v ∧
         truthy v = true ∧
         cache (settle pid net w) = cache_commit (r_url (f_req f)) v (cache w).
Proof.
  unfold settle. destruct (fetches w !! pid) as [f|] eqn:Hf; [|by left].
  destruct (f_state f) eqn:Hst; [|by left].
  cbv zeta. set (s := response_stage _ _).
  match goal with
  | |- context [foldl _ ?w0 ?l] => destruct (foldl_react_only s l w0) as (-> & _)
  end.
  rewrite resume_cache. wsimpl.
  unfold cache_stage. destruct s as [v|e] eqn:Hs; [|by left].
  destruct (shouldCache _) eqn:Hsc; [|by left].
  destruct (truthy v) eqn:Htr; [|by left].
  right. exists f, v. apply bool_decide_eq_true in Hsc. by repeat split.
Qed.

Lemma step_cache w e w' :
  step w e = Some w' →
  cache w' = cache w ∨ cache w' = [] ∨
  (∃ u, cache w' = JsMap.delete u (cache w)) ∨
  (∃ u v, truthy v = true ∧ cache w' = cache_commit u v (cache w)).
Proof.
  destruct e as [h url options|h|h|dt|pid net| |u]; simpl; intros H.
  - left. unfold render in H. apply fetchData_cache in H as ->. wsimpl.
    destruct (h_active _); [apply cleanup_cache|done].
  - left. by apply fetchData_cache in H.
  - injection H as <-. left. unfold unmount.
    destruct (h_active _); [apply cleanup_cache|done].
  - injection H as <-. left. apply elapse_cache.
  - injection H as <-. destruct (settle_cache pid net w) as [?|(f & v & _ & _ & _ & _ & ? & ?)];
      [by left|]. right; right; right. by exists (r_url (f_req f)), v.
  - injection H as <-. right; by left.
  - injection H as <-. right; right; left. by exists u.
Qed.

Lemma step_cache_ok w e w' : cache_ok (cache w) → step w e = Some w' → cache_ok (cache w').
Proof.
  intros Hok H. apply step_cache in H as [->|[->|[(u & ->)|(u & v & _ & ->)]]].
  - done.
  - apply empty_ok.
  - by apply delete_ok.
  - by apply cache_commit_ok.
Qed.

Lemma reachable_cache_ok w : reachable w → cache_ok (cache w).
Proof.
  intros [tr Hrun].
  apply (run_preserves (fun w => cache_ok (cache w)) step_cache_ok tr init_world w);
    [apply empty_ok|done].
Qed.

(** ** Every registry entry names a pending promise *)

Lemma rp_ext w w' :
  inFlightMap w' = inFlightMap w → fetches w' = fetches w →
  registry_pending w → registry_pending w'.
Proof. unfold registry_pending. by intros -> ->. Qed.

Lemma rp_hooks_only w w' : hooks_only w w' → registry_pending w → registry_pending w'.
Proof. intros (_ & ? & ? & _). by apply rp_ext. Qed.

Lemma rp_delete u w :
  registry_pending w → registry_pending (set_inFlightMap (delete u (inFlightMap w)) w).
Proof.
  intros Hrp u' pid. wsimpl. intros Hl.
  apply lookup_delete_Some in Hl as [_ Hl]. by apply Hrp.
Qed.

Lemma rp_arm h w : registry_pending w → registry_pending (arm h w).
Proof. apply rp_ext; [apply arm_inFlightMap|apply arm_fetches]. Qed.

Lemma rp_runFetch h rq w : registry_pending w → registry_pending (runFetch h rq w).
Proof.
  intros Hrp u pid. unfold runFetch. cbv zeta.
  destruct (shouldCache (r_method rq)) eqn:Hsc; wsimpl.
  - destruct (decide (r_url rq = u)) as [<-|Hne].
    + rewrite lookup_insert_eq. intros [= <-].
      eexists. split; [by rewrite lookup_app_r, Nat.sub_diag|]. by split_and!.
    + rewrite lookup_insert_ne by done. intros Hl.
      destruct (Hrp u pid Hl) as (f & Hf & ?). exists f. split; [|done].
      by rewrite lookup_app_l by (by eapply lookup_lt_Some).
  - intros Hl. destruct (Hrp u pid Hl) as (f & Hf & ?). exists f. split; [|done].
    by rewrite lookup_app_l by (by eapply lookup_lt_Some).
Qed.

Lemma rp_attach h pid w : registry_pending w → registry_pending (attach h pid w).
Proof.
  intros Hrp. unfold attach. destruct (fetches w !! pid) as [f|] eqn:Hf; [|done].
  destruct (f_state f) as [|s] eqn:Hst; [|by eapply rp_hooks_only; [apply react_only|]].
  intros u pid' Hl. wsimpl. destruct (Hrp u pid' Hl) as (f' & Hf' & Hst' & Hu & Hsc).
  destruct (decide (pid = pid')) as [<-|Hne].
  - assert (f' = f) as -> by congruence.
    eexists. split; [apply list_lookup_insert_eq; by eapply lookup_lt_Some|].
    done.
  - exists f'. split; [|done]. by rewrite list_lookup_insert_ne.
Qed.

Lemma rp_settle pid net w : registry_pending w → registry_pending (settle pid net w).
Proof.
  intros Hrp. unfold settle. destruct (fetches w !! pid) as [f|] eqn:Hf; [|done].
  destruct (f_state f) eqn:Hst; [|done]. cbv zeta.
  set (s := response_stage _ _).
  eapply rp_hooks_only; [apply foldl_react_only|].
  intros u pid' Hl.
  assert (inFlightMap w !! u = Some pid' ∧
          (shouldCache (r_method (f_req f)) = true → u ≠ r_url (f_req f)))
    as [Hl' Hne].
  { revert Hl. unfold resume. cbv zeta.
    destruct (shouldCache (r_method (f_req f))) eqn:Hsc.
    - destruct s as [v|e]; [|destruct (not_abort e)]; wsimpl;
        unfold cache_stage; try destruct (_ && _)%bool; wsimpl;
        intros [? ?]%lookup_delete_Some; split; try done; by intros _ ->.
    - destruct s as [v|e]; [|destruct (not_abort e)]; wsimpl;
        unfold cache_stage; try destruct (_ && _)%bool; wsimpl; intros ?; by split. }
  destruct (Hrp u pid' Hl') as (f' & Hf' & Hst' & Hu & Hsc).
  assert (pid ≠ pid') as Hpid.
  { intros <-. assert (f' = f) as -> by congruence. by apply Hne. }
  exists f'. split; [|done].
  assert (∀ w0, fetches (resume (f_hook f) (f_req f) s w0) = fetches w0) as Hfr.
  { intros w0. unfold resume.
    by destruct (shouldCache _), s as [v|e]; try destruct (not_abort e). }
  rewrite Hfr. wsimpl. rewrite list_lookup_insert_ne by done.
  unfold cache_stage. by destruct s as [v|e]; try destruct (_ && _)%bool.
Qed.

Lemma rp_cleanup h url w : registry_pending w → registry_pending (cleanup h url w).
Proof.
  intros Hrp. unfold cleanup. cbv zeta.
  set (w1 := match controller (hook_of w h) with Some c => abort c w | None => w end).
  set (w2 := match timeoutRef (hook_of w h) with Some t => clearTimeout t w1 | None => w1 end).
  assert (registry_pending w2) as Hrp2.
  { apply (rp_ext w); [| |done]; subst w2 w1;
      by destruct (controller _), (timeoutRef _). }
  destruct (didSetInFlight _); [|done]. destruct url as [u|]; [|done].
  by apply rp_delete.
Qed.

Lemma rp_fetchData h url so w w' :
  registry_pending w → fetchData h url so w = Some w' → registry_pending w'.
Proof.
  intros Hrp H. apply fetchData_cases in H
    as [[_ ->]|(u & m & _ & _ & _ & [(_ & _ & ->)|[(_ & _ & pid & _ & ->)|(_ & d & _ & H)]])].
  - done.
  - by apply (rp_ext w).
  - apply rp_attach. by apply (rp_ext w).
  - destruct H as [[_ ->]|[_ ->]].
    + apply (rp_ext (arm h w)); [done..|]. by apply rp_arm.
    + by apply rp_runFetch, rp_arm.
Qed.

Lemma rp_fire t w : registry_pending w → registry_pending (fire t w).
Proof.
  intros Hrp. unfold fire. destruct (timers w !! t) as [[tm|]|]; [|done..].
  apply rp_runFetch. by apply (rp_ext w).
Qed.

Lemma rp_step w e w' : registry_pending w → step w e = Some w' → registry_pending w'.
Proof.
  intros Hrp. destruct e as [h url options|h|h|dt|pid net| |u]; simpl; intros H.
  - unfold render in H. eapply rp_fetchData; [|exact H].
    eapply rp_hooks_only; [apply upd_hook_only|].
    destruct (h_active _); [by apply rp_cleanup|done].
  - by eapply rp_fetchData.
  - injection H as <-. unfold unmount. destruct (h_active _); [|done].
    eapply rp_hooks_only; [apply upd_hook_only|]. by apply rp_cleanup.
  - injection H as <-. unfold elapse. cbv zeta.
    apply (rp_ext (foldl (fun w t => fire t w) w
                     (due_by (now w + Z.max 0 dt) (timers w)))); [done..|].
    apply (foldl_preserves registry_pending fire); [apply rp_fire|done].
  - injection H as <-. by apply rp_settle.
  - injection H as <-. intros u pid. unfold clearCache. wsimpl.
    by rewrite lookup_empty.
  - injection H as <-. unfold invalidateURL.
    apply (rp_delete u (set_cache (JsMap.delete u (cache w)) w)).
    by apply (rp_ext w).
Qed.

Lemma reachable_registry_pending w : reachable w → registry_pending w.
Proof.
  intros [tr Hrun].
  apply (run_preserves registry_pending rp_step tr init_world w); [|done].
  intros u pid. simpl. by rewrite lookup_empty.
Qed.

(** ** Requests that are not GET pass the cache and the registry by *)

Lemma set_absent k v (m : JsMap.t) : k ∉ m.*1 → JsMap.set k v m = m ++ [(k, v)].
Proof.
  induction m as [|[k' v'] m IH]; simpl; [done|].
  intros [Hne Hin]%not_elem_of_cons. case_bool_decide; [congruence|].
  f_equal. by apply IH.
Qed.

Lemma request_of_method u m so c : r_method (request_of u m so c) = toUpperCase m.
Proof. done. Qed.

Lemma request_of_url u m so c : r_url (request_of u m so c) = u.
Proof. done. Qed.

Lemma shouldCache_false m : m ≠ "GET"%string → shouldCache m = false.
Proof. intros. unfold shouldCache. by apply bool_decide_eq_false. Qed.






(** ** The state cells after a settlement *)

Lemma hook_of_set_inFlightMap m w h : hook_of (set_inFlightMap m w) h = hook_of w h.
Proof. done. Qed.

Lemma hook_of_react h' s w h :
  hook_of (react h' s w) h = if decide (h' = h) then react_hook s (hook_of w h) else hook_of w h.
Proof.
  unfold react, react_hook, setIsLoading, setError, setData. cbv zeta.
  destruct (decide (h' = h)) as [->|Hne].
  - destruct s as [v|e]; [|destruct (not_abort e)];
      by rewrite !hook_of_upd_hook_eq.
  - destruct s as [v|e]; [|destruct (not_abort e)];
      by rewrite !hook_of_upd_hook_ne by done.
Qed.

Lemma hook_of_resume h' rq s w h :
  hook_of (resume h' rq s w) h =
  if decide (h' = h) then resume_hook s (hook_of w h) else hook_of w h.
Proof.
  unfold resume, resume_hook, setIsLoading, setError, setData. cbv zeta.
  destruct (decide (h' = h)) as [->|Hne].
  - destruct (shouldCache _); rewrite ?hook_of_set_inFlightMap;
      (destruct s as [v|e]; [|destruct (not_abort e)]);
      by rewrite !hook_of_upd_hook_eq.
  - destruct (shouldCache _); rewrite ?hook_of_set_inFlightMap;
      (destruct s as [v|e]; [|destruct (not_abort e)]);
      by rewrite !hook_of_upd_hook_ne by done.
Qed.

Lemma hook_of_foldl_react s l w h :
  hook_of (foldl (fun w h' => react h' s w) w l) h =
  foldl (fun k h' => if decide (h' = h) then react_hook s k else k) (hook_of w h) l.
Proof.
  revert w. induction l as [|h' l IH]; intros w; simpl; [done|].
  by rewrite IH, hook_of_react.
Qed.

Lemma hook_of_cache_stage rq s w h : hook_of (cache_stage rq s w) h = hook_of w h.
Proof. unfold cache_stage. by destruct s as [v|e]; try destruct (_ && _)%bool. Qed.

(** The state cells of every instance after promise [pid] has settled. *)
Lemma hook_of_settle pid net w f h :
  fetches w !! pid = Some f → f_state f = Pending →
  let s := response_stage (signal_aborted w (r_signal (f_req f))) net in
  hook_of (settle pid net w) h =
  foldl (fun k h' => if decide (h' = h) then react_hook s k else k)
        (if decide (f_hook f = h) then resume_hook s (hook_of w h) else hook_of w h)
        (f_attached f).
Proof.
  intros Hf Hst s. unfold settle. rewrite Hf, Hst. cbv zeta. fold s.
  rewrite hook_of_foldl_react, hook_of_resume.
  match goal with
  | |- context [hook_of (set_fetches ?l ?w0) h] =>
      change (hook_of (set_fetches l w0) h) with (hook_of w0 h)
  end.
  by rewrite hook_of_cache_stage.
Qed.

Lemma error_foldl_react_quiet s (l : list nat) k h :
  (∀ e, s = Rejected e → not_abort e = false) → (∀ v, s ≠ Fulfilled v) →
  error (foldl (fun k h' => if decide (h' = h) then react_hook s k else k) k l) = error k.
Proof.
  intros Hab Hrej. revert k. induction l as [|h' l IH]; intros k; simpl; [done|].
  rewrite IH. case_decide; [|done]. unfold react_hook.
  destruct s as [v|e]; [by destruct (Hrej v)|]. by rewrite (Hab e eq_refl).
Qed.

Lemma error_foldl_react_loud e (l : list nat) k h :
  not_abort e = true →
  error (foldl (fun k h' => if decide (h' = h) then react_hook (Rejected e) k else k) k l)
  = if decide (h ∈ l) then Some (err_message e) else error k.
Proof.
  intros Hna. revert k. induction l as [|h' l IH]; intros k; cbn [foldl].
  - case_decide as Hin; [by apply elem_of_nil in Hin|done].
  - rewrite IH. destruct (decide (h' = h)) as [->|Hne].
    + rewrite (decide_True (P := h ∈ h :: l)) by left. case_decide; [done|].
      unfold react_hook. by rewrite Hna.
    + case_decide as Hin; case_decide as Hin'; try done.
      * exfalso. apply Hin'. by right.
      * exfalso. apply elem_of_cons in Hin' as [->|]; [done|]. by apply Hin.
Qed.


(** ** Frames of a settlement *)

Lemma settle_timers pid net w : timers (settle pid net w) = timers w.
Proof.
  unfold settle. destruct (fetches w !! pid) as [f|]; [|done].
  destruct (f_state f); [|done]. cbv zeta.
  set (s := response_stage _ _).
  match goal with
  | |- context [foldl _ ?w0 ?l] => destruct (foldl_react_only s l w0) as (_&_&_&_&->&_)
  end.
  unfold resume, cache_stage.
  by destruct (shouldCache _), s as [v|e]; try destruct (not_abort e);
    try destruct (truthy _).
Qed.

Lemma settle_fetches pid net w f :
  fetches w !! pid = Some f → f_state f = Pending →
  fetches (settle pid net w) =
  <[pid := with_state (Settled (response_stage (signal_aborted w (r_signal (f_req f))) net)) f]>
    (fetches w).
Proof.
  intros Hf Hst. unfold settle. rewrite Hf, Hst. cbv zeta.
  set (s := response_stage _ _).
  match goal with
  | |- context [foldl _ ?w0 ?l] => destruct (foldl_react_only s l w0) as (_&_&->&_)
  end.
  unfold resume, cache_stage.
  by destruct (shouldCache _), s as [v|e]; try destruct (not_abort e);
    try destruct (truthy _).
Qed.

Lemma foldl_skip s (l : list nat) k h :
  h ∉ l → foldl (fun k h' => if decide (h' = h) then react_hook s k else k) k l = k.
Proof.
  revert k. induction l as [|h' l IH]; intros k Hin; simpl; [done|].
  apply not_elem_of_cons in Hin as [Hne Hin].
  rewrite decide_False by done. by apply IH.
Qed.

Lemma fetchData_falsy h url so w : falsy_url url = true → fetchData h url so w = Some w.
Proof.
  unfold fetchData. destruct url as [u|]; [|done]. simpl. by intros ->.
Qed.

(** ** Option keys *)

Lemma arm_timers_length h w : length (timers (arm h w)) = length (timers w).
Proof.
  unfold arm. cbv zeta. destruct (timeoutRef _); wsimpl; [|done].
  by rewrite length_insert.
Qed.

Lemma fetchData_originate h u so m d w :
  u ≠ ""%string → so_method so = JStr m → to_number (so_debounce so) = Some d →
  (shouldCache (toUpperCase m) = true →
     JsMap.has u (cache w) = false ∧ inFlightMap w !! u = None) →
  fetchData h (Some u) so w =
  Some (let rq := request_of u m so (length (controllers w)) in
        if 0 <? d then setTimeout h rq d (arm h w) else runFetch h rq (arm h w)).
Proof.
  intros Hu Hm Hd Hmiss. unfold fetchData. rewrite bool_decide_eq_false_2 by done.
  rewrite Hm. cbv zeta.
  destruct (shouldCache (toUpperCase m)) eqn:Hsc.
  - destruct Hmiss as [-> ->]; [done|]. simpl. rewrite Hd. by destruct (0 <? d).
  - simpl. rewrite Hd. by destruct (0 <? d).
Qed.

Lemma stableOptions_debounce options d :
  options !! "debounce"%string = Some (JNum d) → 0 < d →
  so_debounce (stableOptions options) = JNum d.
Proof.
  intros Ho Hd. unfold stableOptions, opt. rewrite Ho. simpl. unfold js_or. simpl.
  destruct (d =? 0) eqn:E; [apply Z.eqb_eq in E; lia|done].
Qed.

(** ** Registry and cache exclude each other *)

Lemma exclusive_ext w w' :
  cache w' = cache w → inFlightMap w' = inFlightMap w → exclusive w → exclusive w'.
Proof. unfold exclusive. by intros -> ->. Qed.

Lemma exclusive_delete u w :
  exclusive w → exclusive (set_inFlightMap (delete u (inFlightMap w)) w).
Proof.
  intros Hex u' Hhas. wsimpl. apply lookup_delete_None. right. by apply Hex.
Qed.

Lemma attach_inFlightMap h pid w : inFlightMap (attach h pid w) = inFlightMap w.
Proof.
  unfold attach. destruct (fetches w !! pid) as [f|]; [|done].
  destruct (f_state f) as [|s]; [done|].
  by destruct (react_only h s w) as (_ & -> & _).
Qed.

Lemma exclusive_cleanup h url w : exclusive w → exclusive (cleanup h url w).
Proof.
  intros Hex. unfold cleanup. cbv zeta.
  set (w1 := match controller (hook_of w h) with Some c => abort c w | None => w end).
  set (w2 := match timeoutRef (hook_of w h) with Some t => clearTimeout t w1 | None => w1 end).
  assert (exclusive w2) as Hex2.
  { apply (exclusive_ext w); [| |done]; subst w2 w1;
      by destruct (controller _), (timeoutRef _). }
  destruct (didSetInFlight _); [|done]. destruct url as [u|]; [|done].
  by apply exclusive_delete.
Qed.

Lemma exclusive_fetchData h url so w w' :
  exclusive w → fetchData h url so w = Some w' → exclusive w'.
Proof.
  intros Hex H. apply fetchData_cases in H
    as [[_ ->]|(u & m & _ & _ & Hm & [(_ & _ & ->)|[(_ & _ & pid & _ & ->)|(Hmiss & d & _ & H)]])].
  - done.
  - by apply (exclusive_ext w).
  - apply (exclusive_ext w); [by rewrite attach_cache|by rewrite attach_inFlightMap|done].
  - destruct H as [[_ ->]|[_ ->]].
    + apply (exclusive_ext w); [apply arm_cache|apply arm_inFlightMap|done].
    + intros u'. rewrite runFetch_cache, arm_cache. intros Hhas.
      unfold runFetch. cbv zeta. rewrite request_of_method, request_of_url.
      destruct (shouldCache (toUpperCase m)) eqn:Hsc; wsimpl; rewrite arm_inFlightMap.
      * destruct (Hmiss eq_refl) as [Hnot _].
        rewrite lookup_insert_ne by (intros ->; congruence). by apply Hex.
      * by apply Hex.
Qed.

Lemma exclusive_settle pid net w : exclusive w → exclusive (settle pid net w).
Proof.
  intros Hex. unfold settle. destruct (fetches w !! pid) as [f|] eqn:Hf; [|done].
  destruct (f_state f) eqn:Hst; [|done]. cbv zeta.
  set (s := response_stage _ _).
  match goal with
  | |- context [foldl _ ?w0 ?l] =>
      destruct (foldl_react_only s l w0) as (Hc & Hi & _);
        apply (exclusive_ext w0); [done|done|]
  end.
  intros u. rewrite resume_cache. wsimpl. intros Hhas.
  unfold resume. cbv zeta. unfold cache_stage in *.
  destruct (shouldCache (r_method (f_req f))) eqn:Hsc.
  - assert (u = r_url (f_req f) ∨ JsMap.has u (cache w) = true) as [->|Hold].
    { destruct s as [v|e]; [|by right]. simpl in Hhas.
      destruct (truthy v); [|by right]. wsimpl.
      apply has_true, cache_commit_elem_of in Hhas as [?|?]; [by left|right].
      by apply has_true. }
    + destruct s as [v|e]; [|destruct (not_abort e)]; try destruct (_ && _)%bool;
        wsimpl; apply lookup_delete_eq.
    + destruct s as [v|e]; [|destruct (not_abort e)]; try destruct (_ && _)%bool;
        wsimpl; apply lookup_delete_None; right; by apply Hex.
  - simpl in Hhas.
    destruct s as [v|e]; [|destruct (not_abort e)]; wsimpl; by apply Hex.
Qed.

(** ** Two callers, one promise *)

Lemma runFetch_get h rq w :
  r_method rq = "GET"%string →
  runFetch h rq w =
  upd_hook h (with_didSetInFlight true)
    (set_inFlightMap (<[r_url rq := length (fetches w)]> (inFlightMap w))
       (set_fetches (fetches w ++ [mk_fetch h rq (now w) Pending []])
          (setError h None (setIsLoading h true w)))).
Proof. intros Hm. unfold runFetch. cbv zeta. by rewrite Hm. Qed.

(** A GET call that finds the URL registered attaches to the registered
    promise, whatever its [debounce]. *)
Lemma fetchData_attach h u so m pid w :
  u ≠ ""%string → so_method so = JStr m → toUpperCase m = "GET"%string →
  JsMap.has u (cache w) = false → inFlightMap w !! u = Some pid →
  fetchData h (Some u) so w = Some (attach h pid (setIsLoading h true w)).
Proof.
  intros Hu Hm Hget Hhas Hfl. unfold fetchData.
  rewrite bool_decide_eq_false_2 by done. rewrite Hm. cbv zeta. rewrite Hget.
  change (shouldCache "GET") with true. by rewrite Hhas, Hfl.
Qed.

(** ** A pending promise keeps its callers until it settles *)

Lemma awaits_ext pid f0 w w' : fetches w' = fetches w → awaits pid f0 w → awaits pid f0 w'.
Proof. unfold awaits. by intros ->. Qed.

Lemma awaits_runFetch pid f0 h rq w : awaits pid f0 w → awaits pid f0 (runFetch h rq w).
Proof.
  intros [l Hl]. exists l. unfold runFetch. cbv zeta.
  destruct (shouldCache _); wsimpl; by rewrite lookup_app_l by (by eapply lookup_lt_Some).
Qed.

Lemma awaits_attach pid f0 h pid' w :
  f_state f0 = Pending → awaits pid f0 w → awaits pid f0 (attach h pid' w).
Proof.
  intros Hst [l Hl]. unfold attach.
  destruct (fetches w !! pid') as [f|] eqn:Hf; [|by exists l].
  destruct (f_state f) as [|s] eqn:Hfs.
  - destruct (decide (pid' = pid)) as [->|Hne].
    + rewrite Hl in Hf. injection Hf as <-. exists (l ++ [h]). wsimpl.
      rewrite list_lookup_insert_eq by (by eapply lookup_lt_Some).
      simpl. by rewrite app_assoc.
    + exists l. wsimpl. by rewrite list_lookup_insert_ne.
  - exists l. by destruct (react_only h s w) as (_ & _ & -> & _).
Qed.

Lemma awaits_settle pid f0 pid' net w :
  pid' ≠ pid → awaits pid f0 w → awaits pid f0 (settle pid' net w).
Proof.
  intros Hne [l Hl]. exists l.
  destruct (fetches w !! pid') as [f|] eqn:Hf; [|unfold settle; by rewrite Hf].
  destruct (f_state f) eqn:Hst; [|unfold settle; by rewrite Hf, Hst].
  rewrite (settle_fetches pid' net w f Hf Hst). by rewrite list_lookup_insert_ne.
Qed.

Lemma cleanup_fetches h url w : fetches (cleanup h url w) = fetches w.
Proof.
  unfold cleanup. by destruct (controller _), (timeoutRef _), (didSetInFlight _), url.
Qed.

Lemma awaits_fetchData pid f0 h url so w w' :
  f_state f0 = Pending → awaits pid f0 w → fetchData h url so w = Some w' →
  awaits pid f0 w'.
Proof.
  intros Hst Haw H. apply fetchData_cases in H
    as [[_ ->]|(u & m & _ & _ & _ & [(_ & _ & ->)|[(_ & _ & pid' & _ & ->)|(_ & d & _ & H)]])].
  - done.
  - by apply (awaits_ext pid f0 w).
  - apply awaits_attach; [done|]. by apply (awaits_ext pid f0 w).
  - destruct H as [[_ ->]|[_ ->]].
    + apply (awaits_ext pid f0 w); [|done]. wsimpl. apply arm_fetches.
    + apply awaits_runFetch. apply (awaits_ext pid f0 w); [apply arm_fetches|done].
Qed.

Lemma awaits_fire pid f0 t w : awaits pid f0 w → awaits pid f0 (fire t w).
Proof.
  intros Haw. unfold fire. destruct (timers w !! t) as [[tm|]|]; [|done..].
  apply awaits_runFetch. by apply (awaits_ext pid f0 w).
Qed.

Lemma awaits_step pid f0 w e w' :
  f_state f0 = Pending → awaits pid f0 w → settles pid e = false →
  step w e = Some w' → awaits pid f0 w'.
Proof.
  intros Hst Haw Hns. destruct e as [h url options|h|h|dt|pid' net| |u]; simpl; intros H.
  - unfold render in H. eapply awaits_fetchData; [done| |exact H].
    apply (awaits_ext pid f0 w); [|done]. wsimpl.
    destruct (h_active _); [apply cleanup_fetches|done].
  - by eapply awaits_fetchData.
  - injection H as <-. apply (awaits_ext pid f0 w); [|done]. unfold unmount.
    destruct (h_active _); [apply cleanup_fetches|done].
  - injection H as <-. unfold elapse. cbv zeta.
    apply (awaits_ext pid f0 (foldl (fun w t => fire t w) w
                                (due_by (now w + Z.max 0 dt) (timers w)))); [done|].
    apply (foldl_preserves (awaits pid f0) fire); [apply awaits_fire|done].
  - injection H as <-. simpl in Hns. apply bool_decide_eq_false in Hns.
    by apply awaits_settle.
  - injection H as <-. by apply (awaits_ext pid f0 w).
  - injection H as <-. by apply (awaits_ext pid f0 w).
Qed.

Lemma awaits_run pid f0 tr w w' :
  f_state f0 = Pending → awaits pid f0 w →
  Forall (fun e => settles pid e = false) tr → run w tr = Some w' →
  awaits pid f0 w'.
Proof.
  intros Hst. revert w. induction tr as [|e tr IH]; simpl; intros w Haw Hall Hrun.
  - by injection Hrun as <-.
  - apply Forall_cons in Hall as [He Hall].
    destruct (step w e) as [w1|] eqn:E; [|done].
    eapply IH; [|done|done]. by eapply awaits_step.
Qed.

Lemma data_foldl_react_fulfilled v (l : list nat) k h :
  data (foldl (fun k h' => if decide (h' = h) then react_hook (Fulfilled v) k else k) k l)
  = if decide (h ∈ l) then v else data k.
Proof.
  revert k. induction l as [|h' l IH]; intros k; cbn [foldl].
  - case_decide as Hin; [by apply elem_of_nil in Hin|done].
  - rewrite IH. destruct (decide (h' = h)) as [->|Hne].
    + rewrite (decide_True (P := h ∈ h :: l)) by left. by case_decide.
    + case_decide as Hin; case_decide as Hin'; try done.
      * exfalso. apply Hin'. by right.
      * exfalso. apply elem_of_cons in Hin' as [->|]; [done|]. by apply Hin.
Qed.

Lemma isLoading_foldl_react s (l : list nat) k h :
  isLoading (foldl (fun k h' => if decide (h' = h) then react_hook s k else k) k l)
  = if decide (h ∈ l) then false else isLoading k.
Proof.
  revert k. induction l as [|h' l IH]; intros k; cbn [foldl].
  - case_decide as Hin; [by apply elem_of_nil in Hin|done].
  - rewrite IH. destruct (decide (h' = h)) as [->|Hne].
    + rewrite (decide_True (P := h ∈ h :: l)) by left. by case_decide.
    + case_decide as Hin; case_decide as Hin'; try done.
      * exfalso. apply Hin'. by right.
      * exfalso. apply elem_of_cons in Hin' as [->|]; [done|]. by apply Hin.
Qed.

(** What the originator and every attached caller hold once the promise
    has settled. *)
Lemma settle_outcome pid net w f h :
  fetches w !! pid = Some f → f_state f = Pending →
  h = f_hook f ∨ h ∈ f_attached f →
  let w' := settle pid net w in
  isLoading (hook_of w' h) = false ∧
  match response_stage (signal_aborted w (r_signal (f_req f))) net with
  | Fulfilled v => data (hook_of w' h) = v
  | Rejected e =>
      if not_abort e then error (hook_of w' h) = Some (err_message e)
      else error (hook_of w' h) = error (hook_of w h)
  end.
Proof.
  intros Hf Hst Hh w'. subst w'. rewrite (hook_of_settle pid net w f h Hf Hst).
  cbv zeta. set (s := response_stage _ _). split.
  - rewrite isLoading_foldl_react. case_decide as Hin; [done|].
    destruct Hh as [->|Hh]; [|done]. by rewrite decide_True.
  - destruct s as [v|e]; [|destruct (not_abort e) eqn:Hna].
    + rewrite data_foldl_react_fulfilled. case_decide as Hin; [done|].
      destruct Hh as [->|Hh]; [|done]. by rewrite decide_True.
    + rewrite error_foldl_react_loud by done. case_decide as Hin; [done|].
      destruct Hh as [->|Hh]; [|done]. rewrite decide_True by done.
      unfold resume_hook. by rewrite Hna.
    + rewrite error_foldl_react_quiet; [|by intros ? [= <-]|done].
      case_decide; [|done]. unfold resume_hook. by rewrite Hna.
Qed.

(** ** Frames of the operations on one instance *)

Lemma cache_commit_has k v (m : JsMap.t) : JsMap.has k (cache_commit k v m) = true.
Proof. apply has_true. unfold cache_commit. apply set_elem_of. by left. Qed.

Lemma cleanup_hooks h url w : hooks (cleanup h url w) = hooks w.
Proof.
  unfold cleanup. by destruct (controller _), (timeoutRef _), (didSetInFlight _), url.
Qed.

Lemma cleanup_timers h url w :
  timers (cleanup h url w) =
  match timeoutRef (hook_of w h) with
  | Some t => <[t := None]> (timers w)
  | None => timers w
  end.
Proof.
  unfold cleanup. by destruct (controller _), (timeoutRef _), (didSetInFlight _), url.
Qed.

Lemma cleanup_controllers h url w :
  controllers (cleanup h url w) =
  match controller (hook_of w h) with
  | Some c => <[c := true]> (controllers w)
  | None => controllers w
  end.
Proof.
  unfold cleanup. by destruct (controller _), (timeoutRef _), (didSetInFlight _), url.
Qed.

Lemma cleanup_now h url w : now (cleanup h url w) = now w.
Proof.
  unfold cleanup. by destruct (controller _), (timeoutRef _), (didSetInFlight _), url.
Qed.

Lemma arm_hook h w :
  hook_of (arm h w) h = with_controller (Some (length (controllers w))) (hook_of w h).
Proof.
  unfold arm. cbv zeta.
  assert (∀ t w0, hook_of (clearTimeout t w0) h = hook_of w0 h) as Hct by done.
  destruct (timeoutRef (hook_of (upd_hook _ _ _) h)); rewrite ?Hct;
    by rewrite hook_of_upd_hook_eq.
Qed.

Lemma arm_hook_ne h h' w : h ≠ h' → hook_of (arm h w) h' = hook_of w h'.
Proof.
  intros Hne. unfold arm. cbv zeta.
  assert (∀ t w0, hook_of (clearTimeout t w0) h' = hook_of w0 h') as Hct by done.
  destruct (timeoutRef (hook_of (upd_hook _ _ _) h)); rewrite ?Hct;
    by rewrite hook_of_upd_hook_ne.
Qed.

Lemma arm_controllers h w : controllers (arm h w) = controllers w ++ [false].
Proof. unfold arm. cbv zeta. by destruct (timeoutRef _). Qed.

Lemma runFetch_hook h rq w :
  hook_of (runFetch h rq w) h =
  (if shouldCache (r_method rq) then with_didSetInFlight true else id)
    (with_error None (with_isLoading true (hook_of w h))).
Proof.
  unfold runFetch, setError, setIsLoading. cbv zeta. destruct (shouldCache _).
  - rewrite hook_of_upd_hook_eq.
    change (hook_of (set_inFlightMap ?mm (set_fetches ?l ?w0)) h) with (hook_of w0 h).
    by rewrite !hook_of_upd_hook_eq.
  - change (hook_of (set_fetches ?l ?w0) h) with (hook_of w0 h).
    by rewrite !hook_of_upd_hook_eq.
Qed.

Lemma runFetch_hook_ne h h' rq w : h ≠ h' → hook_of (runFetch h rq w) h' = hook_of w h'.
Proof.
  intros Hne. unfold runFetch, setError, setIsLoading. cbv zeta. destruct (shouldCache _).
  - rewrite hook_of_upd_hook_ne by done.
    change (hook_of (set_inFlightMap ?mm (set_fetches ?l ?w0)) h') with (hook_of w0 h').
    by rewrite !hook_of_upd_hook_ne.
  - change (hook_of (set_fetches ?l ?w0) h') with (hook_of w0 h').
    by rewrite !hook_of_upd_hook_ne.
Qed.

Lemma runFetch_controllers h rq w : controllers (runFetch h rq w) = controllers w.
Proof. unfold runFetch. cbv zeta. by destruct (shouldCache _). Qed.

Lemma runFetch_fetches h rq w :
  fetches (runFetch h rq w) = fetches w ++ [mk_fetch h rq (now w) Pending []].
Proof. unfold runFetch. cbv zeta. by destruct (shouldCache _). Qed.

Lemma cells_setTimeout h h' rq d w :
  cells (hook_of (setTimeout h rq d w) h') = cells (hook_of w h').
Proof.
  unfold setTimeout. cbv zeta. rewrite hook_of_upd_hook. by case_decide; subst.
Qed.

Lemma cells_arm h h' w : cells (hook_of (arm h w) h') = cells (hook_of w h').
Proof.
  destruct (decide (h = h')) as [<-|Hne].
  - by rewrite arm_hook.
  - by rewrite arm_hook_ne.
Qed.

(** ** Pending timers and their instances *)

Lemma owned_same w w' :
  (∀ h, timeoutRef (hook_of w' h) = timeoutRef (hook_of w h)) →
  (∀ t tm, timers w' !! t = Some (Some tm) → timers w !! t = Some (Some tm)) →
  timers_owned w → timers_owned w'.
Proof.
  intros Href Hsub Hw t tm Hl. rewrite Href. by apply Hw, Hsub.
Qed.

Lemma owned_cells h g w :
  (∀ k, timeoutRef (g k) = timeoutRef k) → timers_owned w → timers_owned (upd_hook h g w).
Proof.
  intros Hg. apply owned_same; [|done].
  intros h'. rewrite hook_of_upd_hook. case_decide; [subst; apply Hg|done].
Qed.

Lemma owned_hooks_timers w w' :
  hooks w' = hooks w → timers w' = timers w → timers_owned w → timers_owned w'.
Proof.
  intros Hh Ht. apply owned_same; [intros h; unfold hook_of; by rewrite Hh|].
  by rewrite Ht.
Qed.

Lemma insert_None_pending (ts : list (option timer)) t0 t tm :
  <[t0 := None]> ts !! t = Some (Some tm) → t ≠ t0 ∧ ts !! t = Some (Some tm).
Proof.
  intros [(_ & ? & _)|[Hne Hl]]%list_lookup_insert_Some; [done|]. by split.
Qed.

Lemma arm_timers h w :
  timers (arm h w) =
  match timeoutRef (hook_of w h) with
  | Some t => <[t := None]> (timers w)
  | None => timers w
  end.
Proof.
  unfold arm. cbv zeta. rewrite hook_of_upd_hook_eq. simpl.
  change (hook_of (new_controller w) h) with (hook_of w h).
  by destruct (timeoutRef (hook_of w h)).
Qed.

Lemma arm_timeoutRef h h' w :
  timeoutRef (hook_of (arm h w) h') = timeoutRef (hook_of w h').
Proof.
  destruct (decide (h = h')) as [<-|Hne]; [by rewrite arm_hook|by rewrite arm_hook_ne].
Qed.

Lemma owned_arm h w : timers_owned w → timers_owned (arm h w).
Proof.
  apply owned_same; [intros h'; apply arm_timeoutRef|].
  intros t tm. rewrite arm_timers. destruct (timeoutRef (hook_of w h)); [|done].
  by intros [_ ?]%insert_None_pending.
Qed.

Lemma arm_frees h w t tm :
  timers_owned w → timers (arm h w) !! t = Some (Some tm) → t_hook tm ≠ h.
Proof.
  intros Hw Hl Hh. rewrite arm_timers in Hl.
  destruct (timeoutRef (hook_of w h)) as [t0|] eqn:Href.
  - apply insert_None_pending in Hl as [Hne Hl]. apply Hw in Hl.
    rewrite Hh, Href in Hl. congruence.
  - apply Hw in Hl. rewrite Hh, Href in Hl. congruence.
Qed.

Lemma owned_setTimeout h rq d w :
  timers_owned w → timers_owned (setTimeout h rq d (arm h w)).
Proof.
  intros Hw t tm. unfold setTimeout. cbv zeta. wsimpl.
  intros [[_ Hl]|[-> [= <-]]]%lookup_snoc_Some.
  - pose proof (arm_frees h w t tm Hw Hl) as Hne.
    rewrite hook_of_upd_hook_ne by done.
    by apply (owned_arm h w Hw).
  - simpl. by rewrite hook_of_upd_hook_eq.
Qed.

Lemma timeoutRef_runFetch h h' rq w :
  timeoutRef (hook_of (runFetch h rq w) h') = timeoutRef (hook_of w h').
Proof.
  destruct (decide (h = h')) as [<-|Hne].
  - rewrite runFetch_hook. by destruct (shouldCache _).
  - by rewrite runFetch_hook_ne.
Qed.

Lemma runFetch_timers h rq w : timers (runFetch h rq w) = timers w.
Proof. unfold runFetch. cbv zeta. by destruct (shouldCache _). Qed.

Lemma owned_runFetch h rq w : timers_owned w → timers_owned (runFetch h rq w).
Proof.
  apply owned_same; [intros h'; apply timeoutRef_runFetch|]. by rewrite runFetch_timers.
Qed.

Lemma timeoutRef_foldl_react s (l : list nat) k h :
  timeoutRef (foldl (fun k h' => if decide (h' = h) then react_hook s k else k) k l)
  = timeoutRef k.
Proof.
  revert k. induction l as [|h' l IH]; intros k; cbn [foldl]; [done|].
  rewrite IH. case_decide; [|done]. unfold react_hook.
  by destruct s as [v|e]; [|destruct (not_abort e)].
Qed.

Lemma owned_react h s w : timers_owned w → timers_owned (react h s w).
Proof.
  apply owned_same.
  - intros h'. rewrite hook_of_react. case_decide; [|done]. unfold react_hook.
    by destruct s as [v|e]; [|destruct (not_abort e)].
  - by destruct (react_only h s w) as (_ & _ & _ & _ & -> & _).
Qed.

Lemma owned_attach h pid w : timers_owned w → timers_owned (attach h pid w).
Proof.
  unfold attach. destruct (fetches w !! pid) as [f|]; [|done].
  destruct (f_state f) as [|s]; [by apply owned_hooks_timers|apply owned_react].
Qed.

Lemma owned_settle pid net w : timers_owned w → timers_owned (settle pid net w).
Proof.
  destruct (fetches w !! pid) as [f|] eqn:Hf; [|unfold settle; by rewrite Hf].
  destruct (f_state f) eqn:Hst; [|unfold settle; by rewrite Hf, Hst].
  apply owned_same.
  - intros h. rewrite (hook_of_settle pid net w f h Hf Hst). cbv zeta.
    rewrite timeoutRef_foldl_react. case_decide; [|done]. unfold resume_hook.
    by destruct (response_stage _ _) as [v|e]; [|destruct (not_abort e)].
  - by rewrite settle_timers.
Qed.

Lemma owned_cleanup h url w : timers_owned w → timers_owned (cleanup h url w).
Proof.
  apply owned_same; [intros h'; unfold hook_of; by rewrite cleanup_hooks|].
  intros t tm. rewrite cleanup_timers. destruct (timeoutRef _); [|done].
  by intros [_ ?]%insert_None_pending.
Qed.

Lemma owned_fetchData h url so w w' :
  timers_owned w → fetchData h url so w = Some w' → timers_owned w'.
Proof.
  intros Hw H. apply fetchData_cases in H
    as [[_ ->]|(u & m & _ & _ & _ & [(_ & _ & ->)|[(_ & _ & pid & _ & ->)|(_ & d & _ & H)]])].
  - done.
  - unfold setError, setIsLoading, setData. by do 3 (apply owned_cells; [done|]).
  - apply owned_attach. unfold setIsLoading. by apply owned_cells.
  - destruct H as [[_ ->]|[_ ->]].
    + by apply owned_setTimeout.
    + by apply owned_runFetch, owned_arm.
Qed.

Lemma owned_fire t w : timers_owned w → timers_owned (fire t w).
Proof.
  intros Hw. unfold fire. destruct (timers w !! t) as [[tm|]|]; [|done..].
  apply owned_runFetch. revert Hw. apply owned_same; [done|].
  intros t' tm'. wsimpl. by intros [_ ?]%insert_None_pending.
Qed.

Lemma owned_step w e w' : timers_owned w → step w e = Some w' → timers_owned w'.
Proof.
  intros Hw. destruct e as [h url options|h|h|dt|pid net| |u]; simpl; intros H.
  - unfold render in H. eapply owned_fetchData; [|exact H].
    apply owned_cells; [done|]. destruct (h_active _); [by apply owned_cleanup|done].
  - by eapply owned_fetchData.
  - injection H as <-. unfold unmount. destruct (h_active _); [|done].
    apply owned_cells; [done|]. by apply owned_cleanup.
  - injection H as <-. unfold elapse. cbv zeta.
    apply (owned_hooks_timers (foldl (fun w t => fire t w) w
                                 (due_by (now w + Z.max 0 dt) (timers w)))); [done..|].
    apply (foldl_preserves timers_owned fire); [apply owned_fire|done].
  - injection H as <-. by apply owned_settle.
  - injection H as <-. by apply (owned_hooks_timers w).
  - injection H as <-. by apply (owned_hooks_timers w).
Qed.

Lemma run_timers_owned tr w : run init_world tr = Some w → timers_owned w.
Proof.
  apply (run_preserves timers_owned owned_step tr init_world w).
  intros t tm Hl. by destruct t.
Qed.

Lemma owned_unique w t t' tm tm' :
  timers_owned w →
  timers w !! t = Some (Some tm) → timers w !! t' = Some (Some tm') →
  t_hook tm = t_hook tm' → t = t'.
Proof.
  intros Hw Hl Hl' Hh. apply Hw in Hl. apply Hw in Hl'. rewrite Hh in Hl. congruence.
Qed.

Lemma owned_elapse dt w : timers_owned w → timers_owned (elapse dt w).
Proof. intros Hw. by apply (owned_step w (Elapse dt)). Qed.

(** ** The timers that come due *)

Lemma insert_due_perm x l : insert_due x l ≡ₚ x :: l.
Proof.
  induction l as [|y l IH]; simpl; [done|].
  destruct (x.1 <? y.1); [done|]. rewrite IH. apply Permutation_swap.
Qed.

Lemma sort_due_perm l acc :
  foldl (fun acc x => insert_due x acc) acc l ≡ₚ l ++ acc.
Proof.
  revert acc. induction l as [|x l IH]; intros acc; simpl; [done|].
  rewrite IH, insert_due_perm. by rewrite Permutation_middle.
Qed.

Lemma elem_of_pending_from i target ts d t :
  (d, t) ∈ pending_from i target ts ↔
  ∃ tm, (i ≤ t)%nat ∧ ts !! (t - i)%nat = Some (Some tm) ∧ t_due tm = d ∧ d ≤ target.
Proof.
  revert i. induction ts as [|x ts IH]; intros i; simpl.
  - split; [by intros ?%elem_of_nil|by intros (? & _ & ? & _)].
  - assert ((d, t) ∈ pending_from (S i) target ts ↔
            ∃ tm, (S i ≤ t)%nat ∧ (x :: ts) !! (t - i)%nat = Some (Some tm) ∧
                  t_due tm = d ∧ d ≤ target) as Htail.
    { rewrite IH. split; intros (tm & Hle & Hl & Hd); exists tm; (split; [done|]).
      - by replace (t - i)%nat with (S (t - S i)) by lia.
      - by replace (t - i)%nat with (S (t - S i)) in Hl by lia. }
    assert (∀ tm0, x = Some tm0 → t_due tm0 ≤ target →
              ((d, t) = (t_due tm0, i) ↔
               ∃ tm, t = i ∧ (x :: ts) !! (t - i)%nat = Some (Some tm) ∧
                     t_due tm = d ∧ d ≤ target)) as Hhead.
    { intros tm0 -> Hdue. split.
      - intros [= -> ->]. exists tm0. by rewrite Nat.sub_diag.
      - intros (tm & -> & Hl & <- & _). rewrite Nat.sub_diag in Hl. by injection Hl as ->. }
    destruct x as [tm0|].
    + destruct (t_due tm0 <=? target) eqn:E.
      * apply Z.leb_le in E. rewrite elem_of_cons, Htail, (Hhead tm0 eq_refl E).
        split.
        -- intros [(tm & -> & ?)|(tm & ? & ?)]; exists tm; (split; [lia|done]).
        -- intros (tm & Hle & Hrest). destruct (decide (t = i)) as [->|Hne].
           ++ left. by exists tm.
           ++ right. exists tm. split; [lia|done].
      * apply Z.leb_gt in E. rewrite Htail. split.
        -- intros (tm & ? & ?). exists tm. split; [lia|done].
        -- intros (tm & Hle & Hl & Hd & Ht). destruct (decide (t = i)) as [->|Hne].
           ++ rewrite Nat.sub_diag in Hl. injection Hl as ->. lia.
           ++ exists tm. split; [lia|done].
    + rewrite Htail. split.
      * intros (tm & ? & ?). exists tm. split; [lia|done].
      * intros (tm & Hle & Hl & Hrest). destruct (decide (t = i)) as [->|Hne].
        -- by rewrite Nat.sub_diag in Hl.
        -- exists tm. split; [lia|done].
Qed.

Lemma pending_from_handles i target ts :
  NoDup (pending_from i target ts).*2 ∧
  ∀ t, t ∈ (pending_from i target ts).*2 → (i ≤ t)%nat.
Proof.
  revert i. induction ts as [|x ts IH]; intros i; simpl.
  - split; [constructor|by intros ? ?%elem_of_nil].
  - destruct (IH (S i)) as [Hnd Hge].
    assert (∀ t, t ∈ (pending_from (S i) target ts).*2 → (i ≤ t)%nat) as Hge'.
    { intros t Ht. specialize (Hge t Ht). lia. }
    destruct x as [tm|]; [|done]. destruct (t_due tm <=? target); [|done].
    simpl. split.
    + constructor; [|done]. intros Hin. specialize (Hge i Hin). lia.
    + intros t [->|Ht]%elem_of_cons; [lia|by apply Hge'].
Qed.

Lemma elem_of_due_by target ts t :
  t ∈ due_by target ts ↔ ∃ tm, ts !! t = Some (Some tm) ∧ t_due tm ≤ target.
Proof.
  unfold due_by. rewrite sort_due_perm, app_nil_r, list_elem_of_fmap. split.
  - intros ([d t'] & -> & Hin). apply elem_of_pending_from in Hin
      as (tm & _ & Hl & <- & Hd). exists tm. by rewrite Nat.sub_0_r in Hl.
  - intros (tm & Hl & Hd). exists (t_due tm, t). split; [done|].
    apply elem_of_pending_from. exists tm. rewrite Nat.sub_0_r. split_and!; [lia|done..].
Qed.

Lemma NoDup_due_by target ts : NoDup (due_by target ts).
Proof.
  unfold due_by. rewrite sort_due_perm, app_nil_r. apply pending_from_handles.
Qed.

Lemma insert_due_sorted x l :
  StronglySorted (fun a b : Z * nat => a.1 ≤ b.1) l →
  StronglySorted (fun a b : Z * nat => a.1 ≤ b.1) (insert_due x l).
Proof.
  induction 1 as [|y l Hs IH Hall]; simpl; [repeat constructor|].
  destruct (x.1 <? y.1) eqn:E.
  - apply Z.ltb_lt in E. constructor; [by constructor|].
    constructor; [lia|]. eapply Forall_impl; [exact Hall|]. simpl. intros; lia.
  - apply Z.ltb_ge in E. constructor; [done|].
    rewrite insert_due_perm. by constructor.
Qed.

Lemma sort_due_sorted l acc :
  StronglySorted (fun a b : Z * nat => a.1 ≤ b.1) acc →
  StronglySorted (fun a b : Z * nat => a.1 ≤ b.1)
    (foldl (fun acc x => insert_due x acc) acc l).
Proof.
  revert acc. induction l as [|x l IH]; intros acc Hs; simpl; [done|].
  by apply IH, insert_due_sorted.
Qed.

(** The timers fired before [t0] in one passage of time are due no later
    than [t0]. *)
Lemma due_by_earlier target ts l1 t0 l2 tm0 :
  due_by target ts = l1 ++ t0 :: l2 → ts !! t0 = Some (Some tm0) →
  ∀ t tm, t ∈ l1 → ts !! t = Some (Some tm) → t_due tm ≤ t_due tm0.
Proof.
  unfold due_by. intros Hsplit Hl0 t tm Hin Hl.
  set (ps := foldl (fun acc x => insert_due x acc) [] (pending_from 0 target ts)) in *.
  assert (StronglySorted (fun a b : Z * nat => a.1 ≤ b.1) ps) as Hs
    by (apply sort_due_sorted; constructor).
  assert (∀ d t', (d, t') ∈ ps → ∃ tm', ts !! t' = Some (Some tm') ∧ t_due tm' = d) as Hps.
  { intros d t'. subst ps. rewrite sort_due_perm, app_nil_r.
    intros (tm' & _ & Hl' & Hd & _)%elem_of_pending_from.
    exists tm'. by rewrite Nat.sub_0_r in Hl'. }
  apply fmap_app_inv in Hsplit as (p1 & p2 & -> & Hp2 & Hpp).
  symmetry in Hp2. apply fmap_cons_inv in Hp2 as ([d0 t0'] & p2' & Ht0 & -> & ->).
  simpl in Ht0. subst t0'.
  apply list_elem_of_fmap in Hin as ([d t'] & -> & Hin). simpl in *.
  rewrite Hpp in Hs.
  assert (d ≤ d0) as Hle.
  { clear -Hs Hin. induction p1 as [|y p1 IH]; [by apply elem_of_nil in Hin|].
    simpl in Hs. apply StronglySorted_inv in Hs as [Hs Hall].
    apply elem_of_cons in Hin as [<-|Hin]; [|by apply IH].
    rewrite Forall_app, Forall_cons in Hall. by destruct Hall as (_ & ? & _). }
  destruct (Hps d t') as (tm' & Hl' & <-); [rewrite Hpp; set_solver|].
  destruct (Hps d0 t0) as (tm0' & Hl0' & <-); [rewrite Hpp; set_solver|].
  rewrite Hl in Hl'. injection Hl' as <-. rewrite Hl0 in Hl0'. by injection Hl0' as <-.
Qed.

(** ** What a passage of time does to one instance *)

Lemma fire_timers t w :
  timers (fire t w) =
  match timers w !! t with
  | Some (Some _) => <[t := None]> (timers w)
  | _ => timers w
  end.
Proof.
  unfold fire. destruct (timers w !! t) as [[tm|]|]; [|done..].
  by rewrite runFetch_timers.
Qed.

Lemma fire_keeps t t' w : t' ≠ t → timers (fire t w) !! t' = timers w !! t'.
Proof.
  intros Hne. rewrite fire_timers. destruct (timers w !! t) as [[tm|]|]; [|done..].
  by rewrite list_lookup_insert_ne.
Qed.

Lemma fire_pending t t' tm w :
  timers (fire t w) !! t' = Some (Some tm) → t' ≠ t ∧ timers w !! t' = Some (Some tm).
Proof.
  rewrite fire_timers. destruct (timers w !! t) as [[tm0|]|] eqn:Hl.
  - by intros ?%insert_None_pending.
  - intros Hl'. split; [|done]. intros ->. congruence.
  - intros Hl'. split; [|done]. intros ->. congruence.
Qed.

Lemma fire_now_le t w b :
  now w ≤ b → (∀ tm, timers w !! t = Some (Some tm) → t_due tm ≤ b) →
  now (fire t w) ≤ b.
Proof.
  intros Hn Hd. unfold fire. destruct (timers w !! t) as [[tm|]|]; [|done..].
  specialize (Hd tm eq_refl).
  unfold runFetch. cbv zeta. destruct (shouldCache _); simpl; lia.
Qed.

Lemma calls_of_runFetch h h' rq w :
  calls_of h (runFetch h' rq w) =
  calls_of h w ++ (if decide (h' = h) then [mk_fetch h' rq (now w) Pending []] else []).
Proof.
  unfold calls_of. by rewrite runFetch_fetches, filter_app.
Qed.

Lemma fire_other h t w :
  (∀ tm, timers w !! t = Some (Some tm) → t_hook tm ≠ h) →
  hook_of (fire t w) h = hook_of w h ∧ calls_of h (fire t w) = calls_of h w.
Proof.
  intros Hne. unfold fire. destruct (timers w !! t) as [[tm|]|]; [|done..].
  specialize (Hne tm eq_refl). split.
  - by rewrite runFetch_hook_ne.
  - rewrite calls_of_runFetch, decide_False by done. by rewrite app_nil_r.
Qed.

Lemma fire_own t tm w :
  timers w !! t = Some (Some tm) →
  calls_of (t_hook tm) (fire t w) =
  (calls_of (t_hook tm) w ++
   [mk_fetch (t_hook tm) (t_req tm) (Z.max (now w) (t_due tm)) Pending []]) ∧
  cells (hook_of (fire t w) (t_hook tm)) = (data (hook_of w (t_hook tm)), None, true).
Proof.
  intros Hl. unfold fire. rewrite Hl. split.
  - by rewrite calls_of_runFetch, decide_True.
  - rewrite runFetch_hook. by destruct (shouldCache _).
Qed.

Lemma fires_keep (l : list nat) t w :
  t ∉ l → timers (foldl (fun w t => fire t w) w l) !! t = timers w !! t.
Proof.
  revert w. induction l as [|t' l IH]; intros w Hin; simpl; [done|].
  apply not_elem_of_cons in Hin as [Hne Hin]. rewrite IH by done. by apply fire_keeps.
Qed.

Lemma fires_pending (l : list nat) t tm w :
  timers (foldl (fun w t => fire t w) w l) !! t = Some (Some tm) →
  (t ∉ l) ∧ timers w !! t = Some (Some tm).
Proof.
  revert w. induction l as [|t' l IH]; intros w; simpl.
  - intros ?. split; [apply not_elem_of_nil|done].
  - intros [Hin [Hne Hl]%fire_pending]%IH. split; [|done].
    by apply not_elem_of_cons.
Qed.

Lemma fires_now_le (l : list nat) w b :
  now w ≤ b →
  (∀ t tm, t ∈ l → timers w !! t = Some (Some tm) → t_due tm ≤ b) →
  now (foldl (fun w t => fire t w) w l) ≤ b.
Proof.
  revert w. induction l as [|t l IH]; intros w Hn Hd; simpl; [done|].
  apply IH.
  - apply fire_now_le; [done|]. intros tm. apply Hd. by left.
  - intros t' tm Hin [_ Hl]%fire_pending. apply (Hd t' tm); [by right|done].
Qed.

Lemma fires_others h (l : list nat) w :
  (∀ t tm, t ∈ l → timers w !! t = Some (Some tm) → t_hook tm ≠ h) →
  hook_of (foldl (fun w t => fire t w) w l) h = hook_of w h ∧
  calls_of h (foldl (fun w t => fire t w) w l) = calls_of h w.
Proof.
  revert w. induction l as [|t l IH]; intros w Hl; simpl; [done|].
  destruct (fire_other h t w) as [Hk Hc]; [intros tm; apply Hl; by left|].
  destruct (IH (fire t w)) as [Hk' Hc'].
  { intros t' tm Hin [_ Hl']%fire_pending. apply (Hl t' tm); [by right|done]. }
  split; congruence.
Qed.

Lemma elapse_now dt w : now (elapse dt w) = now w + Z.max 0 dt.
Proof. done. Qed.

(** No timer of instance [h] comes due: the instance is left alone. *)
Lemma elapse_others h dt w :
  (∀ t tm, timers w !! t = Some (Some tm) → t_due tm ≤ now w + Z.max 0 dt →
           t_hook tm ≠ h) →
  hook_of (elapse dt w) h = hook_of w h ∧ calls_of h (elapse dt w) = calls_of h w.
Proof.
  intros Hno. unfold elapse. cbv zeta.
  change (hook_of (set_now ?n ?w0) h) with (hook_of w0 h).
  change (calls_of h (set_now ?n ?w0)) with (calls_of h w0).
  apply fires_others. intros t tm Hin Hl.
  apply elem_of_due_by in Hin as (tm' & Hl' & Hd).
  rewrite Hl in Hl'. injection Hl' as <-. by apply (Hno t tm).
Qed.

(** The one pending timer of its instance comes due: the instance makes
    one [fetch] call, at the time the timer was due. *)
Lemma elapse_own dt w t0 tm0 :
  timers w !! t0 = Some (Some tm0) →
  (∀ t tm, timers w !! t = Some (Some tm) → t_hook tm = t_hook tm0 → t = t0) →
  now w ≤ t_due tm0 → t_due tm0 ≤ now w + Z.max 0 dt →
  calls_of (t_hook tm0) (elapse dt w) =
  (calls_of (t_hook tm0) w ++
   [mk_fetch (t_hook tm0) (t_req tm0) (t_due tm0) Pending []]) ∧
  cells (hook_of (elapse dt w) (t_hook tm0)) = (data (hook_of w (t_hook tm0)), None, true).
Proof.
  intros Hl0 Huniq Hlo Hhi. unfold elapse. cbv zeta.
  change (hook_of (set_now ?n ?w0) ?h) with (hook_of w0 h).
  change (calls_of ?h (set_now ?n ?w0)) with (calls_of h w0).
  set (l := due_by (now w + Z.max 0 dt) (timers w)).
  assert (t0 ∈ l) as Hin by (apply elem_of_due_by; by exists tm0).
  apply list_elem_of_split in Hin as (l1 & l2 & Hsplit).
  pose proof (NoDup_due_by (now w + Z.max 0 dt) (timers w)) as Hnd.
  fold l in Hnd. rewrite Hsplit in Hnd.
  apply NoDup_app in Hnd as (_ & Hdisj & [Hnot2 _]%NoDup_cons).
  assert (t0 ∉ l1) as Hnot1 by (intros Hin; apply (Hdisj t0 Hin); by left).
  rewrite Hsplit, foldl_app. simpl.
  set (wa := foldl (fun w t => fire t w) w l1).
  assert (timers wa !! t0 = Some (Some tm0)) as Hla by (subst wa; by rewrite fires_keep).
  destruct (fires_others (t_hook tm0) l1 w) as [Hka Hca].
  { intros t tm Hin Hl Hh. apply Hnot1. by rewrite <- (Huniq t tm Hl Hh). }
  fold wa in Hka, Hca.
  assert (now wa ≤ t_due tm0) as Hna.
  { apply fires_now_le; [done|]. intros t tm Hin Hl.
    by apply (due_by_earlier _ _ _ _ _ _ Hsplit Hl0 t tm). }
  destruct (fire_own t0 tm0 wa Hla) as [Hcb Hkb].
  destruct (fires_others (t_hook tm0) l2 (fire t0 wa)) as [Hkc Hcc].
  { intros t tm Hin [Hne Hl]%fire_pending Hh. apply Hne. apply (Huniq t tm); [|done].
    by apply (fires_pending l1 t tm w). }
  rewrite Hkc, Hcc, Hcb, Hkb, Hca, Hka. by rewrite Z.max_r.
Qed.

(** A debounced call that gets past the cache and the registry sends
    nothing, leaves the caller one pending timer due one delay later, and
    changes neither cache nor registry nor any state cell. *)
Lemma debounced_call h u so m d w :
  u ≠ ""%string → so_method so = JStr m → to_number (so_debounce so) = Some d →
  0 < d →
  (shouldCache (toUpperCase m) = true →
     JsMap.has u (cache w) = false ∧ inFlightMap w !! u = None) →
  timers_owned w →
  ∃ w' t, fetchData h (Some u) so w = Some w' ∧ timers_owned w' ∧
          timers w' !! t =
          Some (Some (mk_timer (now w + d) h
                        (request_of u m so (length (controllers w))))) ∧
          cache w' = cache w ∧ inFlightMap w' = inFlightMap w ∧
          fetches w' = fetches w ∧ now w' = now w ∧
          ∀ h', cells (hook_of w' h') = cells (hook_of w h').
Proof.
  intros Hu Hm Hd Hpos Hmiss Hown.
  rewrite (fetchData_originate h u so m d w) by done. cbv zeta.
  rewrite (proj2 (Z.ltb_lt 0 d) Hpos).
  eexists _, (length (timers (arm h w))). split; [done|].
  split; [by apply owned_setTimeout|]. split_and!.
  - unfold setTimeout. cbv zeta. wsimpl.
    by rewrite lookup_app_r, Nat.sub_diag, arm_now.
  - unfold setTimeout. cbv zeta. wsimpl. apply arm_cache.
  - unfold setTimeout. cbv zeta. wsimpl. apply arm_inFlightMap.
  - unfold setTimeout. cbv zeta. wsimpl. apply arm_fetches.
  - unfold setTimeout. cbv zeta. wsimpl. apply arm_now.
  - intros h'. by rewrite cells_setTimeout, cells_arm.
Qed.

(** While its timer waits, the instance makes no call and keeps its
    cells; once the timer is due it has made one call. *)
Lemma waiting h t rq due dt w :
  timers_owned w → timers w !! t = Some (Some (mk_timer due h rq)) →
  now w + Z.max 0 dt < due →
  hook_of (elapse dt w) h = hook_of w h ∧ calls_of h (elapse dt w) = calls_of h w.
Proof.
  intros Hw Hl Hlt. apply elapse_others. intros t' tm' Hl' Hd Hh.
  assert (t' = t) as -> by (by apply (owned_unique w t' t tm' _ Hw Hl' Hl)).
  rewrite Hl in Hl'. injection Hl' as <-. simpl in Hd. lia.
Qed.

Lemma coming_due h t rq due dt w :
  timers_owned w → timers w !! t = Some (Some (mk_timer due h rq)) →
  now w ≤ due → due ≤ now w + Z.max 0 dt →
  calls_of h (elapse dt w) = calls_of h w ++ [mk_fetch h rq due Pending []] ∧
  cells (hook_of (elapse dt w) h) = (data (hook_of w h), None, true).
Proof.
  intros Hw Hl Hlo Hhi.
  apply (elapse_own dt w t (mk_timer due h rq)); [done| |done..].
  intros t' tm' Hl' Hh. by apply (owned_unique w t' t tm' _ Hw Hl' Hl).
Qed.

(** ** Registry and cache: which timers may fire *)

Lemma exclusive_fire t w :
  exclusive w → late w t = false → exclusive (fire t w).
Proof.
  intros Hex Hlate. unfold fire, late in *.
  destruct (timers w !! t) as [[tm|]|]; [|done..].
  intros u. rewrite runFetch_cache. wsimpl. intros Hhas.
  unfold runFetch. cbv zeta. destruct (shouldCache (r_method (t_req tm))) eqn:Hsc.
  - wsimpl. simpl in Hlate.
    rewrite lookup_insert_ne by (intros <-; congruence). by apply Hex.
  - by apply Hex.
Qed.

Lemma late_fire t t' w : late (fire t w) t' = true → late w t' = true.
Proof.
  unfold late. rewrite fire_cache.
  destruct (timers (fire t w) !! t') as [[tm|]|] eqn:Hl; [|done..].
  apply fire_pending in Hl as [_ ->]. done.
Qed.

Lemma exclusive_fires (l : list nat) w :
  exclusive w → existsb (late w) l = false →
  exclusive (foldl (fun w t => fire t w) w l).
Proof.
  revert w. induction l as [|t l IH]; intros w Hex Hl; simpl in *; [done|].
  apply orb_false_iff in Hl as [Ht Hl]. apply IH; [by apply exclusive_fire|].
  apply not_true_is_false. intros (t' & Hin & Hlate)%existsb_exists.
  apply late_fire in Hlate.
  assert (existsb (late w) l = true) as Hex' by (apply existsb_exists; eauto).
  congruence.
Qed.

Lemma fire_registered t u w :
  is_Some (inFlightMap w !! u) → is_Some (inFlightMap (fire t w) !! u).
Proof.
  intros Hreg. unfold fire. destruct (timers w !! t) as [[tm|]|]; [|done..].
  unfold runFetch. cbv zeta. destruct (shouldCache _); [|done]. wsimpl.
  apply lookup_insert_is_Some. destruct (decide (r_url (t_req tm) = u)); auto.
Qed.

Lemma fire_registers t tm w :
  timers w !! t = Some (Some tm) → shouldCache (r_method (t_req tm)) = true →
  is_Some (inFlightMap (fire t w) !! r_url (t_req tm)).
Proof.
  intros Hl Hsc. unfold fire. rewrite Hl. unfold runFetch. cbv zeta. rewrite Hsc.
  wsimpl. rewrite lookup_insert_eq. by eexists.
Qed.

Lemma fires_register (l : list nat) t tm w :
  t ∈ l → timers w !! t = Some (Some tm) → shouldCache (r_method (t_req tm)) = true →
  is_Some (inFlightMap (foldl (fun w t => fire t w) w l) !! r_url (t_req tm)).
Proof.
  intros Hin Hl Hsc.
  assert (∀ (l : list nat) w, is_Some (inFlightMap w !! r_url (t_req tm)) →
            is_Some (inFlightMap (foldl (fun w t => fire t w) w l) !! r_url (t_req tm)))
    as Hkeep.
  { clear. intros l. induction l as [|t' l IH]; intros w Hreg; simpl; [done|].
    by apply IH, fire_registered. }
  revert w Hl. induction l as [|t' l IH]; intros w Hl; [by apply elem_of_nil in Hin|].
  simpl. destruct (decide (t' = t)) as [->|Hne].
  - by apply Hkeep, fire_registers.
  - apply elem_of_cons in Hin as [->|Hin]; [done|].
    apply IH; [done|]. by rewrite fire_keeps.
Qed.

Lemma exclusive_step w e w' :
  exclusive w → fires_on_cached w e = false → step w e = Some w' → exclusive w'.
Proof.
  intros Hex Hq. destruct e as [h url options|h|h|dt|pid net| |u]; simpl; intros H.
  - unfold render in H. eapply exclusive_fetchData; [|exact H].
    apply (exclusive_ext (if h_active (hook_of w h)
                          then cleanup h (h_url (hook_of w h)) w else w)); [done..|].
    destruct (h_active _); [by apply exclusive_cleanup|done].
  - by eapply exclusive_fetchData.
  - injection H as <-. unfold unmount. destruct (h_active _); [|done].
    apply (exclusive_ext (cleanup h (h_url (hook_of w h)) w)); [done..|].
    by apply exclusive_cleanup.
  - injection H as <-. unfold elapse. cbv zeta. simpl in Hq.
    apply (exclusive_ext (foldl (fun w t => fire t w) w
                            (due_by (now w + Z.max 0 dt) (timers w)))); [done..|].
    by apply exclusive_fires.
  - injection H as <-. by apply exclusive_settle.
  - injection H as <-. intros u. unfold clearCache. by wsimpl.
  - injection H as <-. unfold invalidateURL. intros u'. wsimpl.
    intros Hhas. apply lookup_delete_None. right. apply Hex.
    apply has_true. apply has_true in Hhas. by apply delete_elem_of in Hhas as [_ ?].
Qed.

Lemma fired_on_cached_breaks w e w' :
  fires_on_cached w e = true → step w e = Some w' → ¬ exclusive w'.
Proof.
  destruct e as [h url options|h|h|dt|pid net| |u]; simpl; try done.
  intros (t & Hin & Hlate)%existsb_exists [= <-] Hex.
  unfold late in Hlate. destruct (timers w !! t) as [[tm|]|] eqn:Hl; [|done..].
  apply andb_true_iff in Hlate as [Hsc Hhas].
  specialize (Hex (r_url (t_req tm))). rewrite elapse_cache in Hex.
  specialize (Hex Hhas).
  apply list_elem_of_In in Hin.
  pose proof (fires_register _ t tm w Hin Hl Hsc) as Hreg.
  unfold elapse in Hex. cbv zeta in Hex. wsimpl. rewrite Hex in Hreg.
  by destruct Hreg.
Qed.

(** ** An instance with a falsy URL and nothing outstanding *)

Section AtRest.
Variables (h : nat) (c : jsval * option string * bool) (l : list fetch_call).

Lemma rest_ext w w' :
  hook_of w' h = hook_of w h → fetches w' = fetches w → timers w' = timers w →
  at_rest h c l w → at_rest h c l w'.
Proof. unfold at_rest, calls_of. by intros -> -> ->. Qed.

Lemma rest_upd_hook h' g w : h' ≠ h → at_rest h c l w → at_rest h c l (upd_hook h' g w).
Proof. intros Hne. apply rest_ext; [by apply hook_of_upd_hook_ne|done..]. Qed.

Lemma rest_clearTimeout t w : at_rest h c l w → at_rest h c l (clearTimeout t w).
Proof.
  intros (?&?&?&?&Ht). split_and!; try done.
  intros t' tm. wsimpl. intros [_ Hl]%insert_None_pending. by eapply Ht.
Qed.

Lemma rest_arm h' w : h' ≠ h → at_rest h c l w → at_rest h c l (arm h' w).
Proof.
  intros Hne Hu. unfold arm. cbv zeta.
  assert (at_rest h c l (upd_hook h' (with_controller (Some (length (controllers w))))
                           (new_controller w))) as Hu'.
  { apply rest_upd_hook; [done|]. by apply (rest_ext w). }
  destruct (timeoutRef _); [by apply rest_clearTimeout|done].
Qed.

Lemma rest_setTimeout h' rq d w :
  h' ≠ h → at_rest h c l w → at_rest h c l (setTimeout h' rq d w).
Proof.
  intros Hne Hu. unfold setTimeout. cbv zeta.
  apply rest_upd_hook; [done|].
  destruct Hu as (?&?&?&?&Ht). split_and!; try done.
  intros t tm. wsimpl. intros Hl.
  apply lookup_snoc_Some in Hl as [[_ Hl]|[_ [= <-]]]; [by eapply Ht|done].
Qed.

Lemma rest_runFetch h' rq w :
  h' ≠ h → at_rest h c l w → at_rest h c l (runFetch h' rq w).
Proof.
  intros Hne (Hc & Hl & Hurl & Hf & Ht). unfold at_rest.
  rewrite runFetch_hook_ne, calls_of_runFetch, decide_False, app_nil_r by done.
  rewrite runFetch_fetches, runFetch_timers. split_and!; try done.
  intros pid f [[_ Hl']|[_ <-]]%lookup_snoc_Some; [by apply (Hf pid)|].
  intros _. split; [done|apply not_elem_of_nil].
Qed.

Lemma rest_react h' s w : h' ≠ h → at_rest h c l w → at_rest h c l (react h' s w).
Proof.
  intros Hne. destruct (react_only h' s w) as (_ & _ & ? & _ & ? & _).
  apply rest_ext; [|done..]. rewrite hook_of_react. by case_decide.
Qed.

(** Replacing a call that is not [h]'s by another that is not [h]'s. *)
Lemma calls_of_insert w pid f f' :
  fetches w !! pid = Some f → f_hook f ≠ h → f_hook f' ≠ h →
  calls_of h (set_fetches (<[pid := f']> (fetches w)) w) = calls_of h w.
Proof.
  unfold calls_of. simpl. generalize (fetches w). intros fs. revert pid.
  induction fs as [|x fs IH]; intros pid Hl Hf Hf'; [done|].
  destruct pid as [|pid]; simpl in *.
  - injection Hl as ->. by rewrite !filter_cons_False.
  - rewrite !filter_cons. by rewrite (IH pid).
Qed.

Lemma rest_attach h' pid w : h' ≠ h → at_rest h c l w → at_rest h c l (attach h' pid w).
Proof.
  intros Hne Hu. unfold attach. destruct (fetches w !! pid) as [f|] eqn:Hf; [|done].
  destruct (f_state f) as [|s] eqn:Hst; [|by apply rest_react].
  destruct Hu as (?&Hl&?&Hfs&Ht). destruct (Hfs pid f Hf Hst) as [Hown Hatt].
  unfold at_rest. rewrite (calls_of_insert w pid f) by done.
  split_and!; try done; wsimpl.
  intros pid' f' [(_ & <- & _)|[_ Hl']]%list_lookup_insert_Some; [|by eapply Hfs].
  intros _. split; [done|]. simpl.
  intros [Hin|Hin]%elem_of_app; [done|].
  apply list_elem_of_singleton in Hin. by subst.
Qed.

Lemma rest_cleanup h' url w : at_rest h c l w → at_rest h c l (cleanup h' url w).
Proof.
  intros (?&?&?&?&Ht). unfold at_rest, calls_of, hook_of.
  rewrite cleanup_hooks, cleanup_fetches, cleanup_timers. split_and!; try done.
  destruct (timeoutRef _); [|done].
  intros t' tm [_ Hl]%insert_None_pending. by eapply Ht.
Qed.

Lemma rest_settle pid net w : at_rest h c l w → at_rest h c l (settle pid net w).
Proof.
  intros Hu. destruct (fetches w !! pid) as [f|] eqn:Hf;
    [|unfold settle; by rewrite Hf].
  destruct (f_state f) eqn:Hst; [|unfold settle; by rewrite Hf, Hst].
  pose proof Hu as (?&?&?&Hfs&Ht).
  destruct (Hfs pid f Hf Hst) as [Hown Hatt].
  unfold at_rest. rewrite (hook_of_settle pid net w f h Hf Hst). cbv zeta.
  rewrite foldl_skip by done. rewrite decide_False by done.
  rewrite settle_timers. unfold calls_of.
  rewrite (settle_fetches pid net w f Hf Hst).
  pose proof (calls_of_insert w pid f
                (with_state (Settled (response_stage
                                        (signal_aborted w (r_signal (f_req f))) net)) f)
                Hf Hown Hown) as Hcalls.
  unfold calls_of in Hcalls. simpl in Hcalls. rewrite Hcalls.
  split_and!; try done.
  intros pid' f' [(_ & <- & _)|[_ Hl']]%list_lookup_insert_Some; [done|by eapply Hfs].
Qed.

Lemma rest_fire t w : at_rest h c l w → at_rest h c l (fire t w).
Proof.
  intros Hu. unfold fire. destruct (timers w !! t) as [[tm|]|] eqn:Hl; [|done..].
  apply rest_runFetch.
  - destruct Hu as (_&_&_&_&Ht). by eapply Ht.
  - apply (rest_clearTimeout t) in Hu. by apply (rest_ext (clearTimeout t w)).
Qed.

Lemma rest_fetchData_other h' url so w w' :
  h' ≠ h → at_rest h c l w → fetchData h' url so w = Some w' → at_rest h c l w'.
Proof.
  intros Hne Hu H. apply fetchData_cases in H
    as [[_ ->]|(u & m & _ & _ & _ & [(_ & _ & ->)|[(_ & _ & pid & _ & ->)|(_ & d & _ & H)]])].
  - done.
  - unfold setError, setIsLoading, setData. by do 3 (apply rest_upd_hook; [done|]).
  - apply rest_attach; [done|]. by apply rest_upd_hook.
  - destruct H as [[_ ->]|[_ ->]].
    + apply rest_setTimeout; [done|]. by apply rest_arm.
    + apply rest_runFetch; [done|]. by apply rest_arm.
Qed.

Lemma rest_step w e w' :
  at_rest h c l w → no_url_for h e → step w e = Some w' → at_rest h c l w'.
Proof.
  intros Hu Hno. destruct e as [h' url options|h'|h'|dt|pid net| |u]; simpl; intros H.
  - unfold render in H. destruct (decide (h' = h)) as [->|Hne].
    + assert (falsy_url url = true) as Hfalsy by by apply Hno.
      rewrite fetchData_falsy in H by done. injection H as <-.
      assert (at_rest h c l (if h_active (hook_of w h)
                             then cleanup h (h_url (hook_of w h)) w else w)) as Hu'.
      { destruct (h_active _); [by apply rest_cleanup|done]. }
      destruct Hu' as (?&?&?&?&?). unfold at_rest.
      rewrite hook_of_upd_hook_eq. by split_and!.
    + eapply rest_fetchData_other; [done| |exact H].
      apply rest_upd_hook; [done|].
      destruct (h_active _); [by apply rest_cleanup|done].
  - unfold refetch in H. destruct (decide (h' = h)) as [->|Hne].
    + rewrite fetchData_falsy in H by apply Hu. by injection H as <-.
    + by eapply rest_fetchData_other.
  - injection H as <-. unfold unmount. destruct (h_active (hook_of w h')) eqn:Hact; [|done].
    apply (rest_cleanup h' (h_url (hook_of w h'))) in Hu.
    destruct (decide (h' = h)) as [->|Hne]; [|by apply rest_upd_hook].
    destruct Hu as (?&?&?&?&?). unfold at_rest.
    rewrite hook_of_upd_hook_eq. by split_and!.
  - injection H as <-. unfold elapse. cbv zeta.
    apply (rest_ext (foldl (fun w t => fire t w) w
                       (due_by (now w + Z.max 0 dt) (timers w)))); [done..|].
    apply (foldl_preserves (at_rest h c l) fire); [apply rest_fire|done].
  - injection H as <-. by apply rest_settle.
  - injection H as <-. by apply (rest_ext w).
  - injection H as <-. by apply (rest_ext w).
Qed.

Lemma rest_run tr w w' :
  at_rest h c l w → Forall (no_url_for h) tr → run w tr = Some w' → at_rest h c l w'.
Proof.
  revert w. induction tr as [|e tr IH]; simpl; intros w Hu Hall Hrun.
  - by injection Hrun as <-.
  - apply Forall_cons in Hall as [He Hall].
    destruct (step w e) as [w1|] eqn:E; [|done].
    eapply IH; [|done|done]. by eapply rest_step.
Qed.

End AtRest.

Lemma rest_init h : at_rest h (JNull, None, true) [] init_world.
Proof.
  unfold at_rest, hook_of. simpl. rewrite lookup_empty. simpl.
  split_and!; try done; intros ? ? Hl; by rewrite lookup_nil in Hl.
Qed.

(** ** The [error] cells after a settlement *)

(** What a settlement does to the [error] cells: nothing when the chain
    rejects with an AbortError, and otherwise the message for the
    originator and for every attached instance. *)
Lemma settle_error w pid net f :
  fetches w !! pid = Some f → f_state f = Pending →
  ∀ e, response_stage (signal_aborted w (r_signal (f_req f))) net = Rejected e →
       if bool_decide (err_name e = "AbortError"%string)
       then ∀ h, error (hook_of (settle pid net w) h) = error (hook_of w h)
       else ∀ h, h = f_hook f ∨ h ∈ f_attached f →
                 error (hook_of (settle pid net w) h) = Some (err_message e).
Proof.
  intros Hf Hst e He. case_bool_decide as Hname.
  - intros h. rewrite (hook_of_settle pid net w f h Hf Hst). cbv zeta. rewrite He.
    assert (not_abort e = false) as Hna
      by (unfold not_abort; by rewrite bool_decide_eq_true_2).
    rewrite error_foldl_react_quiet; [|by intros ? [= <-]|done].
    case_decide; [|done]. unfold resume_hook. by rewrite Hna.
  - assert (not_abort e = true) as Hna
      by (unfold not_abort; by rewrite bool_decide_eq_false_2).
    intros h Hh. rewrite (hook_of_settle pid net w f h Hf Hst).
    cbv zeta. rewrite He, error_foldl_react_loud by done.
    case_decide as Hin; [done|]. destruct Hh as [->|Hh]; [|done].
    rewrite decide_True by done. unfold resume_hook. by rewrite Hna.
Qed.

(** * The claims *)

(** C1, evaluated on the code.  Two components ask for the same URL with
    [{debounce: 500}] in the same tick.  Neither has registered anything
    when the other checks the registry, and when the timers fire each one
    calls [fetch]: two transport invocations for the URL, both pending. *)
Theorem debounced_callers_both_fetch :
  ∃ w, run init_world debounced_pair = Some w ∧
       length (fetches w) = 2%nat ∧
       (f_hook <$> fetches w) = [0%nat; 1%nat] ∧
       (r_url ∘ f_req <$> fetches w) = ["/a"; "/a"]%string ∧
       (f_state <$> fetches w) = [Pending; Pending].
Proof.
  eexists. split; [vm_compute; reflexivity|].
  split_and!; vm_compute; reflexivity.
Qed.

(** The deduplication the code does give.  A GET call that is not
    debounced, for a URL with no cache entry and no registry entry, calls
    [fetch] once and registers the promise.  A second GET call for that
    URL, made at any later moment before the promise settles at which the
    registration is still in place and the URL is still uncached, calls
    nothing and attaches to the promise.  Whatever happens next, both
    callers stay on the promise until it settles, and then both stop
    loading: on success both hold the decoded body as [data], on a failure
    that is not an abort both hold the error's message as [error], and on
    an abort neither [error] changes. *)
Theorem concurrent_get_shares_one_fetch h1 h2 u so1 so2 m1 m2 d1 w :
  u ≠ ""%string →
  so_method so1 = JStr m1 → toUpperCase m1 = "GET"%string →
  so_method so2 = JStr m2 → toUpperCase m2 = "GET"%string →
  to_number (so_debounce so1) = Some d1 → d1 ≤ 0 →
  JsMap.has u (cache w) = false → inFlightMap w !! u = None →
  let pid := length (fetches w) in
  ∃ w1 f,
    fetchData h1 (Some u) so1 w = Some w1 ∧
    fetches w1 = fetches w ++ [f] ∧
    f_hook f = h1 ∧ f_state f = Pending ∧ r_url (f_req f) = u ∧
    inFlightMap w1 !! u = Some pid ∧ JsMap.has u (cache w1) = false ∧
    ∀ before w1',
      run w1 before = Some w1' →
      Forall (fun e => settles pid e = false) before →
      inFlightMap w1' !! u = Some pid → JsMap.has u (cache w1') = false →
      ∃ w2,
        fetchData h2 (Some u) so2 w1' = Some w2 ∧
        length (fetches w2) = length (fetches w1') ∧
        ∀ after w' net h,
          run w2 after = Some w' →
          Forall (fun e => settles pid e = false) after →
          h = h1 ∨ h = h2 →
          let w3 := settle pid net w' in
          isLoading (hook_of w3 h) = false ∧
          match response_stage (signal_aborted w' (r_signal (f_req f))) net with
          | Fulfilled v => data (hook_of w3 h) = v
          | Rejected e =>
              if not_abort e then error (hook_of w3 h) = Some (err_message e)
              else error (hook_of w3 h) = error (hook_of w' h)
          end.
Proof.
  intros Hu Hm1 Hg1 Hm2 Hg2 Hd1 Hle Hhas Hfl pid.
  set (rq := request_of u m1 so1 (length (controllers w))).
  set (w1 := runFetch h1 rq (arm h1 w)).
  set (f := mk_fetch h1 rq (now w) Pending []).
  assert (r_method rq = "GET"%string) as Hrq by done.
  assert (fetches w1 = fetches w ++ [f]) as Hf1.
  { subst w1. rewrite (runFetch_get _ _ _ Hrq). wsimpl. by rewrite arm_fetches, arm_now. }
  exists w1, f. split_and!; try done.
  { rewrite (fetchData_originate h1 u so1 m1 d1 w); [|done..]. cbv zeta.
    by rewrite (proj2 (Z.ltb_ge 0 d1) Hle). }
  { subst w1. rewrite (runFetch_get _ _ _ Hrq). wsimpl. rewrite arm_fetches.
    apply lookup_insert_eq. }
  { subst w1. by rewrite runFetch_cache, arm_cache. }
  intros before w1' Hrun1 Hbefore Hreg Hmiss.
  assert (awaits pid f w1) as Haw1.
  { exists []. rewrite Hf1. subst pid. by rewrite lookup_app_r, Nat.sub_diag. }
  destruct (awaits_run pid f before w1 w1' eq_refl Haw1 Hbefore Hrun1) as [l Hl].
  set (f2 := with_attached (l ++ [h2]) f).
  set (w2 := attach h2 pid (setIsLoading h2 true w1')).
  assert (fetches w2 = <[pid := f2]> (fetches w1')) as Hf2.
  { subst w2. unfold attach. wsimpl. by rewrite Hl. }
  exists w2. split_and!.
  - by apply (fetchData_attach h2 u so2 m2 pid w1').
  - by rewrite Hf2, length_insert.
  - intros after w' net h Hrun2 Hafter Hh w3.
    assert (awaits pid f2 w2) as Haw2.
    { exists []. rewrite Hf2, app_nil_r.
      rewrite list_lookup_insert_eq by (by eapply lookup_lt_Some). by destruct f2. }
    destruct (awaits_run pid f2 after w2 w' eq_refl Haw2 Hafter Hrun2) as [l' Hl'].
    destruct (settle_outcome pid net w' _ h Hl' eq_refl) as [Hload Hout]; [|by split].
    simpl. destruct Hh as [-> | ->]; [by left|right]. set_solver.
Qed.

Lemma concurrent_get_shares_one_fetch_witness :
  ∃ w1 w2 w',
    fetchData 0 (Some "/profile"%string) (stableOptions ∅) init_world = Some w1 ∧
    fetchData 1 (Some "/profile"%string)
      (stableOptions {[ "debounce"%string := JNum 500 ]}) w1 = Some w2 ∧
    length (fetches w2) = 1%nat ∧
    run w2 [Render 2 (Some "/profile"%string) ∅; Elapse 40] = Some w' ∧
    data (hook_of (settle 0 (ok_json (JStr "ada")) w') 0) = JStr "ada" ∧
    data (hook_of (settle 0 (ok_json (JStr "ada")) w') 1) = JStr "ada".
Proof.
  destruct (concurrent_get_shares_one_fetch 0 1 "/profile"
              (stableOptions ∅) (stableOptions {[ "debounce"%string := JNum 500 ]})
              "GET" "GET" 0 init_world)
    as (w1 & f & H1 & Hf & _ & _ & _ & Hreg & Hmiss & Hsecond);
    [done|vm_compute; reflexivity|vm_compute; reflexivity|vm_compute; reflexivity|
     vm_compute; reflexivity|vm_compute; reflexivity|lia|vm_compute; reflexivity|
     vm_compute; reflexivity|].
  destruct (Hsecond [] w1 eq_refl (Forall_nil_2 _) Hreg Hmiss) as (w2 & H2 & Hlen & Hafter).
  destruct (run w2 [Render 2 (Some "/profile"%string) ∅; Elapse 40]) as [w'|] eqn:Hrun.
  2:{ vm_compute in H1. injection H1 as <-. vm_compute in H2. injection H2 as <-.
      vm_compute in Hrun. discriminate Hrun. }
  exists w1, w2, w'. split_and!; [done|done|by rewrite Hlen, Hf|done| |].
  - destruct (Hafter _ w' (ok_json (JStr "ada")) 0%nat Hrun) as [_ Hd];
      [repeat constructor|by left|].
    vm_compute in H1. injection H1 as <-. vm_compute in H2. injection H2 as <-.
    simpl in Hf. injection Hf as <-.
    vm_compute in Hrun. injection Hrun as <-. exact Hd.
  - destruct (Hafter _ w' (ok_json (JStr "ada")) 1%nat Hrun) as [_ Hd];
      [repeat constructor|by right|].
    vm_compute in H1. injection H1 as <-. vm_compute in H2. injection H2 as <-.
    simpl in Hf. injection Hf as <-.
    vm_compute in Hrun. injection Hrun as <-. exact Hd.
Defined.

(** C2.  Along every sequence of events the cache holds at most
    [MAX_CACHE_SIZE] = 100 entries.  Render, refetch, unmount and the
    passing of time never touch the cache, so a cache hit does not reorder
    it; a settlement writes it through [cache_commit] or not at all.  A
    commit into a cache at capacity removes exactly the first entry of the
    insertion order, the oldest one, and then sets the new key; a new key
    goes to the end. *)
Theorem cache_bounded_fifo tr w :
  run init_world tr = Some w →
  JsMap.size (cache w) ≤ MAX_CACHE_SIZE ∧
  (∀ e w', step w e = Some w' →
     match e with
     | Render _ _ _ | Refetch _ | Unmount _ | Elapse _ => cache w' = cache w
     | Settle _ _ =>
         cache w' = cache w ∨
         ∃ url result, cache w' = cache_commit url result (cache w)
     | ClearCache => cache w' = []
     | InvalidateURL url => cache w' = JsMap.delete url (cache w)
     end) ∧
  (∀ url result,
     JsMap.size (cache w) = MAX_CACHE_SIZE →
     ∃ k0 v0 rest,
       cache w = (k0, v0) :: rest ∧
       cache_commit url result (cache w) = JsMap.set url result rest ∧
       (JsMap.has url rest = false →
        cache_commit url result (cache w) = rest ++ [(url, result)])).
Proof.
  intros Hrun.
  assert (cache_ok (cache w)) as Hok by (apply reachable_cache_ok; by exists tr).
  split_and!.
  - apply Hok.
  - intros e w' Hstep.
    destruct e as [h url options|h|h|dt|pid net| |u]; simpl in Hstep.
    + unfold render in Hstep. apply fetchData_cache in Hstep as ->. wsimpl.
      destruct (h_active _); [apply cleanup_cache|done].
    + by apply fetchData_cache in Hstep.
    + injection Hstep as <-. unfold unmount.
      destruct (h_active _); [apply cleanup_cache|done].
    + injection Hstep as <-. apply elapse_cache.
    + injection Hstep as <-.
      destruct (settle_cache pid net w) as [?|(f & v & _ & _ & _ & _ & _ & ?)];
        [by left|right]. by exists (r_url (f_req f)), v.
    + by injection Hstep as <-.
    + by injection Hstep as <-.
  - intros url result Hfull. destruct Hok as [Hnd _].
    destruct (cache w) as [|[k0 v0] rest] eqn:Hc.
    { unfold JsMap.size, MAX_CACHE_SIZE in Hfull. simpl in Hfull. lia. }
    exists k0, v0, rest. split; [done|].
    rewrite cache_commit_full by (done || lia). split; [done|].
    intros Hnew. apply set_absent. by apply has_false.
Qed.

Lemma cache_bounded_fifo_witness :
  ∃ w, run init_world (fill_trace 100) = Some w ∧
       JsMap.size (cache w) ≤ MAX_CACHE_SIZE ∧
       ∃ rest, cache w = ("/0"%string, JNum 1) :: rest ∧
               cache_commit "/new" (JNum 7) (cache w) = rest ++ [("/new"%string, JNum 7)].
Proof.
  eexists. split; [vm_compute; reflexivity|].
  match goal with
  | |- JsMap.size (cache ?w0) ≤ _ ∧ _ =>
      destruct (cache_bounded_fifo (fill_trace 100) w0) as (Hsz & _ & Hfifo);
        [vm_compute; reflexivity|]
  end.
  split; [exact Hsz|].
  eexists. split; [vm_compute; reflexivity|].
  vm_compute. reflexivity.
Defined.

(** C3.  An aborted signal rejects the chain with an AbortError; a
    transport failure, a response that is not [ok] and a body that fails
    to decode reject it with their own error, the second with the status
    in its message.  When the chain of a pending promise rejects with an
    AbortError no instance's [error] changes; with any other error the
    originator and every attached instance hold its message as [error].
    The originator is the instance whose [fetchData] call made the
    request, and its cleanup aborts the request's signal; an attached
    instance is one whose GET call for the URL found the registration.
    All of this holds whatever happens between the calls and the
    settlement. *)
Theorem cancellation_never_surfaces :
  (∀ aborted net,
     (aborted = true → response_stage aborted net = Rejected abort_error) ∧
     (aborted = false →
        match net with
        | NetReject e => response_stage aborted net = Rejected e
        | NetResponse false status _ =>
            response_stage aborted net =
            Rejected (mk_error "Error" ("HTTP error! status: " +:+ pretty status))
        | NetResponse true _ (inr e) => response_stage aborted net = Rejected e
        | NetResponse true _ (inl v) => response_stage aborted net = Fulfilled v
        end)) ∧
  (∀ w pid net f e,
     fetches w !! pid = Some f → f_state f = Pending →
     response_stage (signal_aborted w (r_signal (f_req f))) net = Rejected e →
     if bool_decide (err_name e = "AbortError"%string)
     then ∀ h, error (hook_of (settle pid net w) h) = error (hook_of w h)
     else ∀ h, h = f_hook f ∨ h ∈ f_attached f →
               error (hook_of (settle pid net w) h) = Some (err_message e)) ∧
  (∀ h u so m d w,
     u ≠ ""%string → so_method so = JStr m →
     to_number (so_debounce so) = Some d → d ≤ 0 →
     (shouldCache (toUpperCase m) = true →
        JsMap.has u (cache w) = false ∧ inFlightMap w !! u = None) →
     let pid := length (fetches w) in
     let c := length (controllers w) in
     ∃ w1,
       fetchData h (Some u) so w = Some w1 ∧
       (∀ url, signal_aborted (cleanup h url w1) c = true) ∧
       ∀ after w' net e,
         run w1 after = Some w' →
         Forall (fun e => settles pid e = false) after →
         response_stage (signal_aborted w' c) net = Rejected e →
         if bool_decide (err_name e = "AbortError"%string)
         then ∀ h', error (hook_of (settle pid net w') h') = error (hook_of w' h')
         else error (hook_of (settle pid net w') h) = Some (err_message e)) ∧
  (∀ h1 h2 u so1 so2 m1 m2 d1 w,
     u ≠ ""%string →
     so_method so1 = JStr m1 → toUpperCase m1 = "GET"%string →
     so_method so2 = JStr m2 → toUpperCase m2 = "GET"%string →
     to_number (so_debounce so1) = Some d1 → d1 ≤ 0 →
     JsMap.has u (cache w) = false → inFlightMap w !! u = None →
     let pid := length (fetches w) in
     let c := length (controllers w) in
     ∃ w1,
       fetchData h1 (Some u) so1 w = Some w1 ∧
       ∀ before w1',
         run w1 before = Some w1' →
         Forall (fun e => settles pid e = false) before →
         inFlightMap w1' !! u = Some pid → JsMap.has u (cache w1') = false →
         ∃ w2,
           fetchData h2 (Some u) so2 w1' = Some w2 ∧
           ∀ after w' net e,
             run w2 after = Some w' →
             Forall (fun e => settles pid e = false) after →
             response_stage (signal_aborted w' c) net = Rejected e →
             if bool_decide (err_name e = "AbortError"%string)
             then ∀ h', error (hook_of (settle pid net w') h') = error (hook_of w' h')
             else error (hook_of (settle pid net w') h1) = Some (err_message e) ∧
                  error (hook_of (settle pid net w') h2) = Some (err_message e)).
Proof.
  split_and!.
  - intros aborted net. split; intros ->; [done|].
    by destruct net as [e|[] status [v|e]].
  - intros w pid net f e Hf Hst He. by apply settle_error.
  - intros h u so m d w Hu Hm Hd Hle Hmiss pid c.
    set (rq := request_of u m so c).
    set (f := mk_fetch h rq (now w) Pending []).
    exists (runFetch h rq (arm h w)). split_and!.
    + rewrite (fetchData_originate h u so m d w); [|done..]. cbv zeta.
      by rewrite (proj2 (Z.ltb_ge 0 d) Hle).
    + intros url. unfold signal_aborted. rewrite cleanup_controllers.
      rewrite runFetch_hook, runFetch_controllers, arm_hook, arm_controllers.
      assert (controller
                ((if shouldCache (r_method rq) then with_didSetInFlight true else id)
                   (with_error None
                      (with_isLoading true
                         (with_controller (Some (length (controllers w))) (hook_of w h)))))
              = Some c) as -> by (by destruct (shouldCache _)).
      subst c. rewrite list_lookup_insert_eq; [done|]. rewrite length_app. simpl. lia.
    + intros after w' net e Hrun Hafter He.
      assert (awaits pid f (runFetch h rq (arm h w))) as Haw.
      { exists []. rewrite runFetch_fetches, arm_fetches, arm_now.
        subst pid. by rewrite lookup_app_r, Nat.sub_diag. }
      destruct (awaits_run pid f after _ w' eq_refl Haw Hafter Hrun) as [l Hl].
      pose proof (settle_error w' pid net _ Hl eq_refl e He) as Hout.
      case_bool_decide; [done|]. apply Hout. by left.
  - intros h1 h2 u so1 so2 m1 m2 d1 w Hu Hm1 Hg1 Hm2 Hg2 Hd1 Hle Hhas Hfl pid c.
    set (rq := request_of u m1 so1 c).
    set (w1 := runFetch h1 rq (arm h1 w)).
    set (f := mk_fetch h1 rq (now w) Pending []).
    assert (fetches w1 = fetches w ++ [f]) as Hf1.
    { subst w1. by rewrite runFetch_fetches, arm_fetches, arm_now. }
    exists w1. split.
    { rewrite (fetchData_originate h1 u so1 m1 d1 w); [|done..]. cbv zeta.
      by rewrite (proj2 (Z.ltb_ge 0 d1) Hle). }
    intros before w1' Hrun1 Hbefore Hreg Hmiss.
    assert (awaits pid f w1) as Haw1.
    { exists []. rewrite Hf1. subst pid. by rewrite lookup_app_r, Nat.sub_diag. }
    destruct (awaits_run pid f before w1 w1' eq_refl Haw1 Hbefore Hrun1) as [l Hl].
    set (f2 := with_attached (l ++ [h2]) f).
    set (w2 := attach h2 pid (setIsLoading h2 true w1')).
    assert (fetches w2 = <[pid := f2]> (fetches w1')) as Hf2.
    { subst w2. unfold attach. wsimpl. by rewrite Hl. }
    exists w2. split; [by apply (fetchData_attach h2 u so2 m2 pid w1')|].
    intros after w' net e Hrun2 Hafter He.
    assert (awaits pid f2 w2) as Haw2.
    { exists []. rewrite Hf2, app_nil_r.
      rewrite list_lookup_insert_eq by (by eapply lookup_lt_Some). by destruct f2. }
    destruct (awaits_run pid f2 after w2 w' eq_refl Haw2 Hafter Hrun2) as [l' Hl'].
    pose proof (settle_error w' pid net _ Hl' eq_refl e He) as Hout.
    case_bool_decide; [done|]. split; apply Hout; [by left|right]. simpl. set_solver.
Qed.

Lemma cancellation_never_surfaces_witness :
  ∃ w1 w2 w',
    fetchData 0 (Some "/a"%string) (stableOptions ∅) (world_after mounted_pair) = Some w1 ∧
    fetchData 1 (Some "/a"%string) (stableOptions ∅) w1 = Some w2 ∧
    error (hook_of (settle 0 (NetReject (mk_error "TypeError" "Failed to fetch")) w2) 0)
    = Some "Failed to fetch"%string ∧
    error (hook_of (settle 0 (NetReject (mk_error "TypeError" "Failed to fetch")) w2) 1)
    = Some "Failed to fetch"%string ∧
    run w2 [Unmount 0] = Some w' ∧
    error (hook_of (settle 0 (NetReject (mk_error "TypeError" "Failed to fetch")) w') 0)
    = None ∧
    error (hook_of (settle 0 (NetReject (mk_error "TypeError" "Failed to fetch")) w') 1)
    = None.
Proof.
  destruct cancellation_never_surfaces as (_ & _ & _ & Hshared).
  destruct (Hshared 0%nat 1%nat "/a"%string (stableOptions ∅) (stableOptions ∅)
              "GET"%string "GET"%string 0 (world_after mounted_pair))
    as (w1 & H1 & Hsecond);
    [done|reflexivity|reflexivity|reflexivity|reflexivity|reflexivity|lia|
     reflexivity|reflexivity|].
  destruct (Hsecond [] w1 eq_refl (Forall_nil_2 _)) as (w2 & H2 & Hafter).
  { vm_compute in H1. injection H1 as <-. reflexivity. }
  { vm_compute in H1. injection H1 as <-. reflexivity. }
  destruct (run w2 [Unmount 0]) as [w'|] eqn:Hrun; [|done].
  exists w1, w2, w'. split; [done|]. split; [done|].
  pose proof (Hafter [] w2 (NetReject (mk_error "TypeError" "Failed to fetch"))
                (mk_error "TypeError" "Failed to fetch") eq_refl (Forall_nil_2 _)) as Hloud.
  pose proof (Hafter [Unmount 0] w' (NetReject (mk_error "TypeError" "Failed to fetch"))
                abort_error Hrun) as Hquiet.
  vm_compute in H1. injection H1 as <-. vm_compute in H2. injection H2 as <-.
  vm_compute in Hrun. injection Hrun as <-.
  assert (Forall (fun e => settles 0 e = false) [Unmount 0]) as Hns
    by (repeat constructor).
  specialize (Hquiet Hns).
  match type of Hloud with
  | ?A → _ => assert A as Hfails by (vm_compute; reflexivity)
  end.
  match type of Hquiet with
  | ?A → _ => assert A as Haborts by (vm_compute; reflexivity)
  end.
  specialize (Hloud Hfails). specialize (Hquiet Haborts).
  change (bool_decide (err_name (mk_error "TypeError" "Failed to fetch") = "AbortError"%string))
    with false in Hloud.
  change (bool_decide (err_name abort_error = "AbortError"%string)) with true in Hquiet.
  destruct Hloud as [Hl0 Hl1].
  split; [exact Hl0|]. split; [exact Hl1|]. split; [reflexivity|].
  split; [exact (Hquiet 0%nat)|exact (Hquiet 1%nat)].
Defined.

(** C4.  When the network call of an originated GET request settles, with
    any outcome and any number of attached callers, the registry entry for
    its URL is gone after the settlement, the promise is settled, and every
    entry that remains in the registry names a promise that is still
    pending. *)
Theorem registry_entry_removed_on_settlement tr w pid net f :
  run init_world tr = Some w →
  fetches w !! pid = Some f →
  f_state f = Pending →
  r_method (f_req f) = "GET"%string →
  let w' := settle pid net w in
  inFlightMap w' !! r_url (f_req f) = None ∧
  (∃ s, f_state <$> fetches w' !! pid = Some (Settled s)) ∧
  (∀ u pid', inFlightMap w' !! u = Some pid' →
     ∃ f', fetches w' !! pid' = Some f' ∧ f_state f' = Pending).
Proof.
  intros Hrun Hf Hst Hget w'.
  assert (registry_pending w) as Hrp by (apply reachable_registry_pending; by exists tr).
  assert (registry_pending w') as Hrp' by by apply rp_settle.
  split_and!.
  - subst w'. unfold settle. rewrite Hf, Hst. cbv zeta.
    match goal with
    | |- context [foldl _ ?w0 ?l] =>
        destruct (foldl_react_only (response_stage (signal_aborted w (r_signal (f_req f))) net)
                    l w0) as (_ & -> & _)
    end.
    unfold resume. cbv zeta. rewrite Hget.
    change (shouldCache "GET") with true. wsimpl. apply lookup_delete_eq.
  - subst w'. unfold settle. rewrite Hf, Hst. cbv zeta.
    set (s := response_stage _ _). exists s.
    match goal with
    | |- context [foldl _ ?w0 ?l] =>
        destruct (foldl_react_only s l w0) as (_ & _ & -> & _)
    end.
    assert (∀ w0, fetches (resume (f_hook f) (f_req f) s w0) = fetches w0) as ->.
    { intros w0. unfold resume.
      by destruct (shouldCache _), s as [v|e]; try destruct (not_abort e). }
    wsimpl. rewrite list_lookup_insert_eq; [done|].
    assert (fetches (cache_stage (f_req f) s w) = fetches w) as ->.
    { unfold cache_stage. by destruct s as [v|e]; try destruct (_ && _)%bool. }
    by eapply lookup_lt_Some.
  - intros u pid' Hl. destruct (Hrp' u pid' Hl) as (f' & ? & ? & _). by exists f'.
Qed.

Lemma registry_entry_removed_on_settlement_witness :
  ∃ w, run init_world [Render 0 (Some "/a"%string) ∅; Render 1 (Some "/a"%string) ∅] = Some w ∧
       inFlightMap w !! "/a"%string = Some 0%nat ∧
       inFlightMap (settle 0 (NetReject (mk_error "TypeError" "Failed to fetch")) w)
         !! "/a"%string = None.
Proof.
  eexists. split; [vm_compute; reflexivity|]. split; [vm_compute; reflexivity|].
  match goal with
  | |- inFlightMap (settle ?pid ?net ?w0) !! _ = None =>
      edestruct (registry_entry_removed_on_settlement
                   [Render 0 (Some "/a"%string) ∅; Render 1 (Some "/a"%string) ∅]
                   w0 pid net) as (Hgone & _);
        [vm_compute; reflexivity ..|exact Hgone]
  end.
Defined.

(** C5 as stated fails.  Component 1 asks for the cached "/a" with
    [{debounce: 500}]: the cache check is not postponed, and at the moment
    of the call the component already holds the cached body with
    [isLoading = false]. *)
Lemma debounce_skipped_on_cache_hit : ¬ delays_all_steps.
Proof.
  intros H.
  destruct (run init_world cached_a) as [w|] eqn:Hw; [|by vm_compute in Hw].
  destruct (fetchData 1 (Some "/a"%string)
              (stableOptions {[ "debounce"%string := JNum 500 ]}) w) as [w'|] eqn:Hfd.
  - destruct (H 1%nat "/a"%string
                (stableOptions {[ "debounce"%string := JNum 500 ]}) 500 w w')
      as (Hdata & _);
      [done|vm_compute; reflexivity|lia|exact Hfd|].
    vm_compute in Hw. injection Hw as <-.
    vm_compute in Hfd. injection Hfd as <-.
    vm_compute in Hdata. discriminate Hdata.
  - vm_compute in Hw. injection Hw as <-. vm_compute in Hfd. discriminate Hfd.
Qed.

(** C5 as the code has it.  With a positive [debounce] the cache check and
    the registry check still run at the moment of the call: a cached GET
    URL is served at once, and a registered one is attached to at once.
    Only a call that gets past both is postponed.  Three such calls by one
    instance, each made before the previous delay has run out and each
    finding the URL uncached and unregistered, make the instance send
    nothing until one full delay after the third call, and exactly one
    request then, whatever timers of other instances fire meanwhile. *)
Theorem trailing_debounce h u so m d w :
  u ≠ ""%string → so_method so = JStr m →
  to_number (so_debounce so) = Some d → 0 < d →
  (shouldCache (toUpperCase m) = true → JsMap.has u (cache w) = true →
     fetchData h (Some u) so w =
     Some (setError h None
             (setIsLoading h false (setData h (JsMap.get u (cache w)) w)))) ∧
  (∀ pid,
     shouldCache (toUpperCase m) = true → JsMap.has u (cache w) = false →
     inFlightMap w !! u = Some pid →
     fetchData h (Some u) so w = Some (attach h pid (setIsLoading h true w))) ∧
  (∀ tr,
     run init_world tr = Some w →
     (shouldCache (toUpperCase m) = true →
        JsMap.has u (cache w) = false ∧ inFlightMap w !! u = None) →
     ∃ w1,
       fetchData h (Some u) so w = Some w1 ∧
       ∀ a,
         0 ≤ a < d →
         (shouldCache (toUpperCase m) = true → inFlightMap (elapse a w1) !! u = None) →
         ∃ w2,
           fetchData h (Some u) so (elapse a w1) = Some w2 ∧
           ∀ b,
             0 ≤ b < d →
             (shouldCache (toUpperCase m) = true →
                inFlightMap (elapse b w2) !! u = None) →
             ∃ w3 rq,
               fetchData h (Some u) so (elapse b w2) = Some w3 ∧
               r_url rq = u ∧ r_method rq = toUpperCase m ∧
               (∀ dt, 0 ≤ dt < d → calls_of h (elapse dt w3) = calls_of h w) ∧
               (∀ dt, d ≤ dt →
                  calls_of h (elapse dt w3) =
                  calls_of h w ++ [mk_fetch h rq (now w + a + b + d) Pending []])).
Proof.
  intros Hu Hm Hd Hpos. split_and!.
  - intros Hsc Hhas. unfold fetchData. rewrite bool_decide_eq_false_2 by done.
    rewrite Hm. cbv zeta. by rewrite Hsc, Hhas.
  - intros pid Hsc Hhas Hfl. unfold fetchData. rewrite bool_decide_eq_false_2 by done.
    rewrite Hm. cbv zeta. by rewrite Hsc, Hhas, Hfl.
  - intros tr Hrun Hmiss. apply run_timers_owned in Hrun as Hown.
    assert (shouldCache (toUpperCase m) = true → JsMap.has u (cache w) = false) as Hcold
      by (intros Hsc; by destruct (Hmiss Hsc)).
    destruct (debounced_call h u so m d w)
      as (w1 & t1 & H1 & Ho1 & Ht1 & Hc1 & _ & Hf1 & Hn1 & _); [done..|].
    exists w1. split; [done|]. intros a [Ha0 Ha] Hreg1.
    destruct (waiting h t1 _ _ a w1 Ho1 Ht1) as [_ Hk1]; [lia|].
    destruct (debounced_call h u so m d (elapse a w1))
      as (w2 & t2 & H2 & Ho2 & Ht2 & Hc2 & _ & Hf2 & Hn2 & _); [done..| | |].
    { intros Hsc. split; [|by apply Hreg1]. rewrite elapse_cache, Hc1. by apply Hcold. }
    { by apply owned_elapse. }
    exists w2. split; [done|]. intros b [Hb0 Hb] Hreg2.
    rewrite elapse_now, Hn1, Z.max_r in Ht2, Hn2 by done.
    destruct (waiting h t2 _ _ b w2 Ho2 Ht2) as [_ Hk2]; [lia|].
    destruct (debounced_call h u so m d (elapse b w2))
      as (w3 & t3 & H3 & Ho3 & Ht3 & Hc3 & _ & Hf3 & Hn3 & _); [done..| | |].
    { intros Hsc. split; [|by apply Hreg2].
      rewrite elapse_cache, Hc2, elapse_cache, Hc1. by apply Hcold. }
    { by apply owned_elapse. }
    rewrite elapse_now, Hn2, Z.max_r in Ht3, Hn3 by done.
    assert (calls_of h w3 = calls_of h w) as Hk3.
    { unfold calls_of in *. by rewrite Hf3, Hk2, Hf2, Hk1, Hf1. }
    exists w3, (request_of u m so (length (controllers (elapse b w2)))).
    split_and!; [done|done|done| |].
    + intros dt [Hdt0 Hdt]. destruct (waiting h t3 _ _ dt w3 Ho3 Ht3) as [_ Hw3]; [lia|].
      by rewrite Hw3.
    + intros dt Hdt. destruct (coming_due h t3 _ _ dt w3 Ho3 Ht3) as [Hdue _]; [lia..|].
      by rewrite Hdue, Hk3.
Qed.

Lemma trailing_debounce_witness :
  ∃ w1 w2 w3 rq,
    fetchData 2 (Some "/q"%string)
      (stableOptions {[ "debounce"%string := JNum 500 ]})
      (world_after others_at_work) = Some w1 ∧
    fetchData 2 (Some "/q"%string)
      (stableOptions {[ "debounce"%string := JNum 500 ]}) (elapse 100 w1) = Some w2 ∧
    fetchData 2 (Some "/q"%string)
      (stableOptions {[ "debounce"%string := JNum 500 ]}) (elapse 300 w2) = Some w3 ∧
    (f_hook <$> fetches w3) = [0%nat; 1%nat] ∧
    calls_of 2 (elapse 499 w3) = [] ∧
    calls_of 2 (elapse 500 w3) = [mk_fetch 2 rq 900 Pending []].
Proof.
  destruct (trailing_debounce 2 "/q" (stableOptions {[ "debounce"%string := JNum 500 ]})
              "GET" 500 (world_after others_at_work)) as (_ & _ & H);
    [done|vm_compute; reflexivity|vm_compute; reflexivity|lia|].
  destruct (H others_at_work) as (w1 & H1 & Hnext); [vm_compute; reflexivity| |].
  { intros _. split; vm_compute; reflexivity. }
  destruct (Hnext 100) as (w2 & H2 & Hlast); [lia| |].
  { intros _. vm_compute in H1. injection H1 as <-. vm_compute. reflexivity. }
  destruct (Hlast 300) as (w3 & rq & H3 & _ & _ & Hidle & Hfire); [lia| |].
  { intros _. vm_compute in H1. injection H1 as <-.
    vm_compute in H2. injection H2 as <-. vm_compute. reflexivity. }
  exists w1, w2, w3, rq. split_and!; [done|done|done| | |].
  - vm_compute in H1. injection H1 as <-. vm_compute in H2. injection H2 as <-.
    vm_compute in H3. injection H3 as <-. vm_compute. reflexivity.
  - apply (Hidle 499). lia.
  - apply (Hfire 500). lia.
Defined.

(** C6, evaluated on the code.  Component 0's own request has settled and
    the registry entry for "/a" is the one component 1 created; when
    component 0 unmounts, its cleanup still finds [didSetInFlight.current]
    true and deletes that entry, while component 1's request is pending. *)
Theorem teardown_deletes_foreign_entry :
  ∃ w w',
    run init_world teardown_scenario = Some w ∧
    (∃ s, f_state <$> fetches w !! 0%nat = Some (Settled s)) ∧
    inFlightMap w !! "/a"%string = Some 1%nat ∧
    f_hook <$> fetches w !! 1%nat = Some 1%nat ∧
    didSetInFlight (hook_of w 0) = true ∧
    step w (Unmount 0) = Some w' ∧
    inFlightMap w' !! "/a"%string = None ∧
    f_state <$> fetches w' !! 1%nat = Some Pending.
Proof.
  eexists _, _. split; [vm_compute; reflexivity|].
  split; [eexists; vm_compute; reflexivity|].
  split_and!; vm_compute; reflexivity.
Qed.

(** C7 as stated fails.  Inside a settlement the body is committed to the
    cache (line 100) while the registry entry is still there (it goes at
    line 119); and a debounce timer that fires after the URL was cached
    registers a pending promise next to the cache entry. *)
Lemma exclusion_broken :
  (∃ w f, run init_world [Render 0 (Some "/a"%string) ∅] = Some w ∧
          fetches w !! 0%nat = Some f ∧
          ¬ exclusive (cache_stage (f_req f) (Fulfilled (JNum 1)) w)) ∧
  (∃ w, run init_world late_timer = Some w ∧ ¬ exclusive w).
Proof.
  split.
  - eexists _, _. split; [vm_compute; reflexivity|]. split; [vm_compute; reflexivity|].
    intros Hex. specialize (Hex "/a"%string). vm_compute in Hex.
    by specialize (Hex eq_refl).
  - eexists. split; [vm_compute; reflexivity|].
    intros Hex. specialize (Hex "/a"%string). vm_compute in Hex.
    by specialize (Hex eq_refl).
Qed.

(** C7 as the code has it.  A step from a world in which no URL has both a
    registry entry and a cache entry leads to such a world again exactly
    when it does not fire the timer of a GET request whose URL is cached;
    so the two exclude each other in every world reached by a sequence of
    events none of which fires such a timer.  Inside the settlement of a
    successful GET request both exist: the body is committed to the cache
    (line 100) while the registry entry is still there, and the entry is
    removed (line 119) before the settlement ends. *)
Theorem exclusive_unless_fired_on_cached :
  (∀ w e w', exclusive w → step w e = Some w' →
             (exclusive w' ↔ fires_on_cached w e = false)) ∧
  (∀ tr w, run init_world tr = Some w → no_fire_on_cached init_world tr = true →
           exclusive w) ∧
  (∀ w pid net f v,
     fetches w !! pid = Some f → f_state f = Pending →
     r_method (f_req f) = "GET"%string →
     response_stage (signal_aborted w (r_signal (f_req f))) net = Fulfilled v →
     truthy v = true →
     inFlightMap w !! r_url (f_req f) = Some pid →
     let mid := cache_stage (f_req f) (Fulfilled v) w in
     settle pid net w =
     foldl (fun w h => react h (Fulfilled v) w)
       (resume (f_hook f) (f_req f) (Fulfilled v)
          (set_fetches (<[pid := with_state (Settled (Fulfilled v)) f]> (fetches mid)) mid))
       (f_attached f) ∧
     JsMap.has (r_url (f_req f)) (cache mid) = true ∧
     inFlightMap mid !! r_url (f_req f) = Some pid ∧
     JsMap.has (r_url (f_req f)) (cache (settle pid net w)) = true ∧
     inFlightMap (settle pid net w) !! r_url (f_req f) = None).
Proof.
  split_and!.
  - intros w e w' Hex Hstep. split.
    + intros Hex'. apply not_true_is_false. intros Hq.
      by apply (fired_on_cached_breaks w e w' Hq Hstep).
    + intros Hq. by apply (exclusive_step w e w').
  - intros tr w.
    assert (∀ w0, exclusive w0 → run w0 tr = Some w →
                  no_fire_on_cached w0 tr = true → exclusive w) as Hgen.
    { induction tr as [|e tr IH]; simpl; intros w0 Hex Hrun Hq.
      - by injection Hrun as <-.
      - destruct (step w0 e) as [w1|] eqn:E; [|done].
        apply andb_true_iff in Hq as [Hq1 Hq2]. apply negb_true_iff in Hq1.
        eapply IH; [|done|done]. by eapply exclusive_step. }
    apply Hgen. intros u Hhas. by apply has_true, elem_of_nil in Hhas.
  - intros w pid net f v Hf Hst Hget Hs Htr Hreg mid.
    assert (mid = set_cache (cache_commit (r_url (f_req f)) v (cache w)) w) as Hmid.
    { subst mid. unfold cache_stage. rewrite Hget.
      change (shouldCache "GET") with true. by rewrite Htr. }
    assert (settle pid net w =
            foldl (fun w h => react h (Fulfilled v) w)
              (resume (f_hook f) (f_req f) (Fulfilled v)
                 (set_fetches (<[pid := with_state (Settled (Fulfilled v)) f]> (fetches mid))
                    mid))
              (f_attached f)) as Hsettle.
    { unfold settle. rewrite Hf, Hst. cbv zeta. by rewrite Hs. }
    split; [done|]. rewrite Hsettle.
    match goal with
    | |- context [foldl _ ?w0 ?l] =>
        destruct (foldl_react_only (Fulfilled v) l w0) as (-> & -> & _)
    end.
    rewrite resume_cache. unfold resume. cbv zeta. rewrite Hget.
    change (shouldCache "GET") with true. rewrite Hmid. wsimpl.
    split_and!; [apply cache_commit_has|done|apply cache_commit_has|apply lookup_delete_eq].
Qed.

Lemma exclusive_unless_fired_on_cached_witness :
  ∃ w, run init_world harmless_timers = Some w ∧
       (r_method ∘ f_req <$> fetches w) = ["POST"; "GET"]%string ∧
       data (hook_of w 2) = JNum 1 ∧ exclusive w.
Proof.
  eexists. split; [vm_compute; reflexivity|]. split; [vm_compute; reflexivity|].
  split; [vm_compute; reflexivity|].
  destruct exclusive_unless_fired_on_cached as (_ & Hrun & _).
  apply (Hrun harmless_timers); vm_compute; reflexivity.
Defined.



(** C9 as stated fails: the key [debounceMs] is not read.  A request with
    [{debounceMs: 500}] is sent at once and leaves no timer. *)
Lemma debounceMs_not_recognized : ¬ debounced_by "debounceMs".
Proof.
  intros H.
  destruct (H 0%nat "/a"%string {[ "debounceMs"%string := JNum 500 ]} 500 init_world)
    as (w' & tm & Hfd & Hf & _);
    [done|vm_compute; reflexivity|lia|eexists; vm_compute; reflexivity|
     vm_compute; reflexivity|vm_compute; reflexivity|].
  vm_compute in Hfd. injection Hfd as <-. discriminate Hf.
Qed.

(** C9 as the code has it.  [stableOptions] reads the four keys [method],
    [headers], [body] and [debounce] and nothing else; an options object
    without them gives method "GET", no headers, body [null] and debounce
    0.  A positive number under [debounce] debounces the request.  With
    every option omitted, a call for a URL that is neither cached nor
    registered sends a GET request without a body at once. *)
Theorem options_keys_and_defaults :
  stableOptions ∅ = mk_so (JStr "GET") (JObj []) JNull (JNum 0) ∧
  (∀ o o' : gmap string jsval,
     (∀ k, k ∈ ["method"; "headers"; "body"; "debounce"]%string → o !! k = o' !! k) →
     stableOptions o = stableOptions o') ∧
  debounced_by "debounce" ∧
  (∀ h u w,
     u ≠ ""%string → JsMap.has u (cache w) = false → inFlightMap w !! u = None →
     ∃ w', fetchData h (Some u) (stableOptions ∅) w = Some w' ∧
           fetches w' =
           fetches w ++
           [mk_fetch h (mk_request u "GET" [] None (length (controllers w)))
                     (now w) Pending []] ∧
           timers w' = timers (arm h w)).
Proof.
  split_and!.
  - done.
  - intros o o' Hk. unfold stableOptions, opt.
    rewrite (Hk "method"%string), (Hk "headers"%string), (Hk "body"%string),
      (Hk "debounce"%string); [done|set_solver..].
  - intros h u options d w Hu Ho Hd [m Hm] Hhas Hfl.
    rewrite (fetchData_originate h u _ m d w); [|done|done| |done].
    2:{ by rewrite (stableOptions_debounce options d). }
    cbv zeta. rewrite (proj2 (Z.ltb_lt 0 d) Hd).
    eexists _, _. split; [done|]. unfold setTimeout. cbv zeta. wsimpl.
    rewrite arm_fetches, arm_now. split; [done|].
    rewrite <- (arm_timers_length h w).
    split; [rewrite lookup_app_r by done; by rewrite Nat.sub_diag|done].
  - intros h u w Hu Hhas Hfl.
    rewrite (fetchData_originate h u _ "GET" 0 w); [|done..].
    eexists. split; [done|]. cbv zeta. change (0 <? 0) with false. cbv iota.
    unfold runFetch. cbv zeta. wsimpl. rewrite arm_fetches, arm_now.
    change (shouldCache (r_method (request_of u "GET" (stableOptions ∅)
              (length (controllers w))))) with true. cbv iota. wsimpl.
    by split.
Qed.

Lemma options_keys_and_defaults_witness :
  stableOptions {[ "debounceMs"%string := JNum 500 ]} = stableOptions ∅ ∧
  ∃ w' tm,
    fetchData 0 (Some "/a"%string)
      (stableOptions {[ "debounce"%string := JNum 500 ]}) init_world = Some w' ∧
    timers w' !! 0%nat = Some (Some tm) ∧ t_due tm = 500.
Proof.
  destruct options_keys_and_defaults as (_ & Hkeys & Hdeb & _). split.
  - apply Hkeys. intros k Hk.
    repeat (apply elem_of_cons in Hk as [->|Hk]; [vm_compute; reflexivity|]).
    by apply elem_of_nil in Hk.
  - destruct (Hdeb 0%nat "/a"%string {[ "debounce"%string := JNum 500 ]} 500 init_world)
      as (w' & tm & Hfd & _ & Ht & Hdue & _);
      [done|vm_compute; reflexivity|lia|eexists; vm_compute; reflexivity|
       vm_compute; reflexivity|vm_compute; reflexivity|].
    exists w', tm. by split_and!.
Defined.

(** C10 as stated fails.  Component 0 is rendered with an empty URL while
    its request for "/a" is in flight; when that request settles,
    [isLoading] becomes false although the URL is empty. *)
Lemma url_emptied_while_in_flight :
  ∃ w, run init_world
         [Render 0 (Some "/a"%string) ∅; Render 0 (Some ""%string) ∅;
          Settle 0 (ok_json (JNum 1))] = Some w ∧
       h_url (hook_of w 0) = Some ""%string ∧
       cells (hook_of w 0) = (JNull, None, false).
Proof. eexists. split; [vm_compute; reflexivity|]. split; vm_compute; reflexivity. Qed.

(** C10 as the code has it.  A call of [fetchData] with an absent or empty
    URL returns at once and leaves the whole world as it was; so does
    [refetch] on an instance whose URL is absent or empty.  An instance
    that is never rendered with a truthy URL keeps [data = null], [error =
    null] and [isLoading = true] through every sequence of events, and no
    [fetch] call is ever made on its behalf.  An instance whose URL is
    falsy and that has nothing outstanding from an earlier URL (no pending
    promise that it created or is attached to, no pending timer) keeps its
    three cells as they are and makes no [fetch] call, through every
    sequence of events that gives it no truthy URL. *)
Theorem falsy_url_never_loads h :
  (∀ url so w, falsy_url url = true → fetchData h url so w = Some w) ∧
  (∀ w, falsy_url (h_url (hook_of w h)) = true → step w (Refetch h) = Some w) ∧
  (∀ tr w,
     Forall (no_url_for h) tr → run init_world tr = Some w →
     data (hook_of w h) = JNull ∧ error (hook_of w h) = None ∧
     isLoading (hook_of w h) = true ∧
     ∀ pid f, fetches w !! pid = Some f → f_hook f ≠ h) ∧
  (∀ w tr w',
     falsy_url (h_url (hook_of w h)) = true →
     (∀ pid f, fetches w !! pid = Some f → f_state f = Pending →
               f_hook f ≠ h ∧ h ∉ f_attached f) →
     (∀ t tm, timers w !! t = Some (Some tm) → t_hook tm ≠ h) →
     Forall (no_url_for h) tr → run w tr = Some w' →
     cells (hook_of w' h) = cells (hook_of w h) ∧ calls_of h w' = calls_of h w).
Proof.
  split_and!.
  - intros. by apply fetchData_falsy.
  - intros w Hf. simpl. unfold refetch. by apply fetchData_falsy.
  - intros tr w Hall Hrun.
    destruct (rest_run h _ _ tr init_world w (rest_init h) Hall Hrun)
      as (Hc & Hl & _).
    unfold cells in Hc. injection Hc as -> -> ->. split_and!; [done..|].
    intros pid f Hf Hh.
    assert (f ∈ calls_of h w) as Hin.
    { apply list_elem_of_filter. split; [done|]. by eapply list_elem_of_lookup_2. }
    rewrite Hl in Hin. by apply elem_of_nil in Hin.
  - intros w tr w' Hurl Hfs Hts Hall Hrun.
    destruct (rest_run h (cells (hook_of w h)) (calls_of h w) tr w w') as (? & ? & _);
      [by split_and!|done..].
Qed.

Lemma falsy_url_never_loads_witness :
  ∃ w w',
    run init_world
      [Render 0 None ∅; Render 1 (Some "/a"%string) ∅; Refetch 0; Elapse 1000;
       Settle 0 (ok_json (JNum 1)); Render 0 (Some ""%string) ∅; Refetch 0;
       Unmount 0] = Some w ∧
    cells (hook_of w 0) = (JNull, None, true) ∧
    run (world_after emptied_url)
      [Refetch 0; Render 1 (Some "/b"%string) {[ "debounce"%string := JNum 50 ]};
       Elapse 1000; Settle 1 (NetReject (mk_error "TypeError" "Failed to fetch"));
       ClearCache; Unmount 0] = Some w' ∧
    cells (hook_of w' 0) = (JNum 1, None, false).
Proof.
  eexists _, _. split; [vm_compute; reflexivity|].
  destruct (falsy_url_never_loads 0) as (_ & _ & Hnever & Hrest).
  split.
  - match goal with
    | |- cells (hook_of ?w0 _) = _ =>
        edestruct (Hnever [Render 0 None ∅; Render 1 (Some "/a"%string) ∅; Refetch 0;
                           Elapse 1000; Settle 0 (ok_json (JNum 1));
                           Render 0 (Some ""%string) ∅; Refetch 0; Unmount 0] w0)
          as (Hd & He & Hl & _)
    end.
    + repeat constructor; simpl; intros; done.
    + vm_compute; reflexivity.
    + unfold cells. by rewrite Hd, He, Hl.
  - split; [vm_compute; reflexivity|].
    match goal with
    | |- cells (hook_of ?w0 _) = _ =>
        edestruct (Hrest (world_after emptied_url)
                     [Refetch 0;
                      Render 1 (Some "/b"%string) {[ "debounce"%string := JNum 50 ]};
                      Elapse 1000;
                      Settle 1 (NetReject (mk_error "TypeError" "Failed to fetch"));
                      ClearCache; Unmount 0] w0) as (Hc & _)
    end.
    + vm_compute; reflexivity.
    + intros pid f Hl Hst. vm_compute in Hl.
      destruct pid as [|[|pid]]; [|done..]. injection Hl as <-. done.
    + intros t tm Hl. vm_compute in Hl. by destruct t.
    + repeat constructor; simpl; intros; done.
    + vm_compute; reflexivity.
    + rewrite Hc. vm_compute. reflexivity.
Defined.

(** * Further properties of the code *)

(** ** More on the [Map] operations *)

Lemma get_set_eq k v (m : JsMap.t) : JsMap.get k (JsMap.set k v m) = v.
Proof.
  induction m as [|[k' v'] m IH]; simpl.
  - by rewrite bool_decide_eq_true_2.
  - case_bool_decide; simpl; [by rewrite bool_decide_eq_true_2|].
    by rewrite bool_decide_eq_false_2.
Qed.

Lemma get_set_ne k k' v (m : JsMap.t) :
  k ≠ k' → JsMap.get k' (JsMap.set k v m) = JsMap.get k' m.
Proof.
  intros Hne. induction m as [|[k0 v0] m IH]; simpl.
  - by rewrite bool_decide_eq_false_2.
  - case_bool_decide as E; simpl.
    + subst k0. by rewrite !bool_decide_eq_false_2.
    + case_bool_decide; [done|apply IH].
Qed.

Lemma get_delete_ne k k' (m : JsMap.t) :
  k ≠ k' → JsMap.get k' (JsMap.delete k m) = JsMap.get k' m.
Proof.
  intros Hne. induction m as [|[k0 v0] m IH]; [done|].
  unfold JsMap.delete. rewrite filter_cons. cbn [fst]. fold (JsMap.delete k m).
  case_decide as E; simpl.
  - case_bool_decide; [done|apply IH].
  - subst k0. rewrite bool_decide_eq_false_2 by done. apply IH.
Qed.

Lemma has_delete_eq k (m : JsMap.t) : JsMap.has k (JsMap.delete k m) = false.
Proof. apply has_false. intros Hin. by apply delete_elem_of in Hin as [? _]. Qed.

Lemma has_delete_ne k k' (m : JsMap.t) :
  k ≠ k' → JsMap.has k' (JsMap.delete k m) = JsMap.has k' m.
Proof.
  intros Hne. destruct (JsMap.has k' m) eqn:Hh.
  - apply has_true. apply delete_elem_of. split; [done|by apply has_true].
  - apply has_false. intros Hin. apply delete_elem_of in Hin as [_ Hin].
    by apply has_false in Hh.
Qed.

Lemma set_elem (m : JsMap.t) k v kv :
  kv ∈ JsMap.set k v m → kv = (k, v) ∨ kv ∈ m.
Proof.
  induction m as [|[k' v'] m IH]; simpl.
  - intros Hin. apply list_elem_of_singleton in Hin. by left.
  - case_bool_decide.
    + intros [->|Hin]%elem_of_cons; [by left|right; by right].
    + intros [->|Hin]%elem_of_cons; [right; by left|].
      destruct (IH Hin) as [?|?]; [by left|right; by right].
Qed.

Lemma cache_commit_elem (m : JsMap.t) k v kv :
  kv ∈ cache_commit k v m → kv = (k, v) ∨ kv ∈ m.
Proof.
  unfold cache_commit. intros Hin. apply set_elem in Hin as [?|Hin]; [by left|right].
  destruct (MAX_CACHE_SIZE <=? _); [|done].
  destruct (JsMap.first_key m); [|done].
  unfold JsMap.delete in Hin. by apply list_elem_of_filter in Hin as [_ ?].
Qed.

Lemma cache_commit_get k v (m : JsMap.t) : JsMap.get k (cache_commit k v m) = v.
Proof. unfold cache_commit. apply get_set_eq. Qed.

(** ** Settlements and the calls that follow them *)

Lemma resume_fetches h rq s w : fetches (resume h rq s w) = fetches w.
Proof.
  unfold resume. by destruct (shouldCache _), s as [v|e]; try destruct (not_abort e).
Qed.

Lemma settle_commits pid net w f v :
  fetches w !! pid = Some f → f_state f = Pending →
  r_method (f_req f) = "GET"%string →
  response_stage (signal_aborted w (r_signal (f_req f))) net = Fulfilled v →
  truthy v = true →
  cache (settle pid net w) = cache_commit (r_url (f_req f)) v (cache w).
Proof.
  intros Hf Hst Hget Hs Htr. unfold settle. rewrite Hf, Hst. cbv zeta. rewrite Hs.
  match goal with
  | |- context [foldl _ ?w0 ?l] =>
      destruct (foldl_react_only (Fulfilled v) l w0) as (-> & _)
  end.
  rewrite resume_cache. wsimpl. unfold cache_stage. rewrite Hget.
  change (shouldCache "GET") with true. by rewrite Htr.
Qed.

Lemma settle_keeps_cache pid net w f e :
  fetches w !! pid = Some f → f_state f = Pending →
  response_stage (signal_aborted w (r_signal (f_req f))) net = Rejected e →
  cache (settle pid net w) = cache w.
Proof.
  intros Hf Hst Hs.
  destruct (settle_cache pid net w) as [?|(f' & v & Hf' & _ & _ & Hs' & _)]; [done|].
  rewrite Hf in Hf'. injection Hf' as <-. congruence.
Qed.

Lemma fetchData_hit h u so m w :
  u ≠ ""%string → so_method so = JStr m → toUpperCase m = "GET"%string →
  JsMap.has u (cache w) = true →
  fetchData h (Some u) so w =
  Some (setError h None (setIsLoading h false (setData h (JsMap.get u (cache w)) w))).
Proof.
  intros Hu Hm Hget Hhas. unfold fetchData. rewrite bool_decide_eq_false_2 by done.
  rewrite Hm. cbv zeta. rewrite Hget. change (shouldCache "GET") with true.
  by rewrite Hhas.
Qed.

(** X1.  Once a GET request has fulfilled with a truthy body, a GET call
    for its URL by any instance, debounced or not, is answered from the
    cache at once: the caller holds the body as [data], [isLoading] is
    false and [error] is null, and no [fetch] call, timer or registry
    entry is made. *)
Theorem cached_get_served_without_fetch w pid net f v h so m :
  fetches w !! pid = Some f → f_state f = Pending →
  r_method (f_req f) = "GET"%string → r_url (f_req f) ≠ ""%string →
  response_stage (signal_aborted w (r_signal (f_req f))) net = Fulfilled v →
  truthy v = true →
  so_method so = JStr m → toUpperCase m = "GET"%string →
  ∃ w2,
    fetchData h (Some (r_url (f_req f))) so (settle pid net w) = Some w2 ∧
    data (hook_of w2 h) = v ∧ isLoading (hook_of w2 h) = false ∧
    error (hook_of w2 h) = None ∧
    fetches w2 = fetches (settle pid net w) ∧
    timers w2 = timers (settle pid net w) ∧
    inFlightMap w2 = inFlightMap (settle pid net w) ∧
    cache w2 = cache (settle pid net w).
Proof.
  intros Hf Hst Hget Hu Hs Htr Hm Hg.
  pose proof (settle_commits pid net w f v Hf Hst Hget Hs Htr) as Hc.
  rewrite (fetchData_hit h _ so m); [|done..|by rewrite Hc, cache_commit_has].
  eexists. split; [done|]. rewrite Hc, cache_commit_get.
  unfold setError, setIsLoading, setData. rewrite !hook_of_upd_hook_eq.
  by split_and!.
Qed.

Lemma cached_get_served_without_fetch_witness :
  ∃ w2,
    fetchData 1 (Some "/a"%string)
      (stableOptions {[ "debounce"%string := JNum 500 ]})
      (settle 0 (ok_json (JStr "x")) (world_after [Render 0 (Some "/a"%string) ∅]))
    = Some w2 ∧
    data (hook_of w2 1) = JStr "x" ∧ isLoading (hook_of w2 1) = false.
Proof.
  edestruct (cached_get_served_without_fetch
               (world_after [Render 0 (Some "/a"%string) ∅])
               0 (ok_json (JStr "x")))
    with (v := JStr "x") (h := 1%nat)
         (so := stableOptions {[ "debounce"%string := JNum 500 ]}) (m := "GET"%string)
    as (w2 & Hfd & Hd & Hl & _);
    [vm_compute; reflexivity|reflexivity|reflexivity|vm_compute; discriminate|
     vm_compute; reflexivity|reflexivity|vm_compute; reflexivity|reflexivity|].
  exists w2. split_and!; [exact Hfd|exact Hd|exact Hl].
Defined.

(** ** Administrative resets: [clearCache] and [invalidateURL] *)

Lemma originate_now h u so m d w :
  u ≠ ""%string → so_method so = JStr m → to_number (so_debounce so) = Some d →
  d ≤ 0 →
  (shouldCache (toUpperCase m) = true →
     JsMap.has u (cache w) = false ∧ inFlightMap w !! u = None) →
  ∃ w',
    fetchData h (Some u) so w = Some w' ∧
    fetches w' =
    fetches w ++
    [mk_fetch h (request_of u m so (length (controllers w))) (now w) Pending []] ∧
    cache w' = cache w ∧
    inFlightMap w' =
    (if shouldCache (toUpperCase m)
     then <[u := length (fetches w)]> (inFlightMap w) else inFlightMap w).
Proof.
  intros Hu Hm Hd Hle Hmiss.
  rewrite (fetchData_originate h u so m d w) by done. cbv zeta.
  rewrite (proj2 (Z.ltb_ge 0 d) Hle). eexists. split; [done|].
  rewrite runFetch_cache, arm_cache. unfold runFetch. cbv zeta.
  rewrite request_of_method, request_of_url.
  destruct (shouldCache (toUpperCase m)); wsimpl;
    by rewrite arm_fetches, arm_now, ?arm_inFlightMap.
Qed.

(** X2.  After [invalidateURL(u)], and likewise after [clearCache()], a
    call for [u] that is not debounced starts exactly one network call,
    whatever was cached or in flight for [u] before. *)
Theorem reset_then_call_fetches h u so m d w :
  u ≠ ""%string → so_method so = JStr m →
  to_number (so_debounce so) = Some d → d ≤ 0 →
  (∃ w', fetchData h (Some u) so (invalidateURL u w) = Some w' ∧
         fetches w' =
         fetches w ++
         [mk_fetch h (request_of u m so (length (controllers w))) (now w) Pending []]) ∧
  (∃ w', fetchData h (Some u) so (clearCache w) = Some w' ∧
         fetches w' =
         fetches w ++
         [mk_fetch h (request_of u m so (length (controllers w))) (now w) Pending []]).
Proof.
  intros Hu Hm Hd Hle. split.
  - destruct (originate_now h u so m d (invalidateURL u w)) as (w' & Hfd & Hf & _);
      [done..| |by exists w'].
    intros _. unfold invalidateURL. wsimpl. split; [apply has_delete_eq|].
    apply lookup_delete_eq.
  - destruct (originate_now h u so m d (clearCache w)) as (w' & Hfd & Hf & _);
      [done..| |by exists w'].
    intros _. unfold clearCache. wsimpl. split; [done|apply lookup_empty].
Qed.

Lemma reset_then_call_fetches_witness :
  ∃ w',
    fetchData 1 (Some "/0"%string) (stableOptions ∅)
      (invalidateURL "/0" (world_after (fill_trace 2))) = Some w' ∧
    length (fetches w') = 3%nat.
Proof.
  destruct (reset_then_call_fetches 1 "/0" (stableOptions ∅) "GET" 0
              (world_after (fill_trace 2)))
    as [(w' & Hfd & Hf) _]; [done|reflexivity|reflexivity|lia|].
  exists w'. split; [exact Hfd|]. rewrite Hf. vm_compute. reflexivity.
Defined.

(** X3.  [invalidateURL(u)] removes the cache entry and the registry
    entry of [u] and nothing else: every other URL keeps its cache entry
    with its value and its registry entry, and no promise, timer,
    controller or state cell changes, so a request in flight for [u] is
    not cancelled. *)
Theorem invalidateURL_only_its_url u w :
  JsMap.has u (cache (invalidateURL u w)) = false ∧
  inFlightMap (invalidateURL u w) !! u = None ∧
  (∀ k, k ≠ u →
     JsMap.has k (cache (invalidateURL u w)) = JsMap.has k (cache w) ∧
     JsMap.get k (cache (invalidateURL u w)) = JsMap.get k (cache w) ∧
     inFlightMap (invalidateURL u w) !! k = inFlightMap w !! k) ∧
  (JsMap.has u (cache w) = false → cache (invalidateURL u w) = cache w) ∧
  fetches (invalidateURL u w) = fetches w ∧
  hooks (invalidateURL u w) = hooks w ∧
  timers (invalidateURL u w) = timers w ∧
  controllers (invalidateURL u w) = controllers w.
Proof.
  unfold invalidateURL. wsimpl. split_and!; try done.
  - apply has_delete_eq.
  - apply lookup_delete_eq.
  - intros k Hne. split_and!.
    + by apply has_delete_ne.
    + by apply get_delete_ne.
    + by apply lookup_delete_ne.
  - intros Hno. apply delete_absent. by apply has_false.
Qed.

(** X4.  Invalidating a URL while its GET request is in flight does not
    keep the response out of the cache: when the request then fulfils
    with a truthy body, the body is committed to the cache under that URL
    and the originator holds it as [data]. *)
Theorem invalidated_request_still_caches w pid net f v :
  fetches w !! pid = Some f → f_state f = Pending →
  r_method (f_req f) = "GET"%string →
  response_stage (signal_aborted w (r_signal (f_req f))) net = Fulfilled v →
  truthy v = true →
  let w' := settle pid net (invalidateURL (r_url (f_req f)) w) in
  JsMap.has (r_url (f_req f)) (cache w') = true ∧
  JsMap.get (r_url (f_req f)) (cache w') = v ∧
  data (hook_of w' (f_hook f)) = v.
Proof.
  intros Hf Hst Hget Hs Htr w'. subst w'.
  set (w0 := invalidateURL (r_url (f_req f)) w).
  assert (fetches w0 !! pid = Some f) as Hf0 by done.
  assert (response_stage (signal_aborted w0 (r_signal (f_req f))) net = Fulfilled v)
    as Hs0 by done.
  rewrite (settle_commits pid net w0 f v Hf0 Hst Hget Hs0 Htr).
  split_and!; [apply cache_commit_has|apply cache_commit_get|].
  destruct (settle_outcome pid net w0 f (f_hook f) Hf0 Hst) as [_ Hd]; [by left|].
  by rewrite Hs0 in Hd.
Qed.

Lemma invalidated_request_still_caches_witness :
  JsMap.get "/a" (cache (settle 0 (ok_json (JStr "old"))
                           (invalidateURL "/a"
                              (world_after [Render 0 (Some "/a"%string) ∅]))))
  = JStr "old".
Proof.
  edestruct (invalidated_request_still_caches
               (world_after [Render 0 (Some "/a"%string) ∅]) 0 (ok_json (JStr "old")))
    with (v := JStr "old") as (_ & Hg & _);
    [vm_compute; reflexivity|reflexivity|reflexivity|vm_compute; reflexivity|
     reflexivity|].
  exact Hg.
Defined.

(** ** Teardown *)

(** X5.  A debounced call that is waiting for its timer is cancelled by
    the cleanup of its instance: however much time passes afterwards, and
    whatever timers of other instances fire, the instance makes no
    [fetch] call. *)
Theorem teardown_cancels_debounce tr h u so m d w :
  run init_world tr = Some w →
  u ≠ ""%string → so_method so = JStr m → to_number (so_debounce so) = Some d →
  0 < d →
  (shouldCache (toUpperCase m) = true →
     JsMap.has u (cache w) = false ∧ inFlightMap w !! u = None) →
  ∃ w1, fetchData h (Some u) so w = Some w1 ∧
        ∀ url dt, calls_of h (elapse dt (cleanup h url w1)) = calls_of h w.
Proof.
  intros Hrun Hu Hm Hd Hpos Hmiss. apply run_timers_owned in Hrun as Hown.
  destruct (debounced_call h u so m d w)
    as (w1 & t1 & H1 & Ho1 & Ht1 & _ & _ & Hf1 & _); [done..|].
  exists w1. split; [done|]. intros url dt.
  destruct (elapse_others h dt (cleanup h url w1)) as [_ Hk].
  - intros t tm Hl _ Hh. revert Hl. rewrite cleanup_timers.
    pose proof (Ho1 t1 _ Ht1) as Href. simpl in Href. rewrite Href.
    intros [Hne Hl]%insert_None_pending. apply Hne.
    by apply (owned_unique w1 t t1 tm _ Ho1 Hl Ht1).
  - rewrite Hk. unfold calls_of. by rewrite cleanup_fetches, Hf1.
Qed.

Lemma teardown_cancels_debounce_witness :
  ∃ w1,
    fetchData 2 (Some "/q"%string)
      (stableOptions {[ "debounce"%string := JNum 500 ]})
      (world_after others_at_work) = Some w1 ∧
    (f_hook <$> fetches (elapse 10000 (cleanup 2 (Some "/q"%string) w1)))
    = [0%nat; 1%nat] ∧
    calls_of 2 (elapse 10000 (cleanup 2 (Some "/q"%string) w1)) = [].
Proof.
  destruct (teardown_cancels_debounce others_at_work 2 "/q"
              (stableOptions {[ "debounce"%string := JNum 500 ]}) "GET" 500
              (world_after others_at_work))
    as (w1 & H1 & Hno); [vm_compute; reflexivity|done|vm_compute; reflexivity|vm_compute; reflexivity|lia| |].
  - intros _. split; vm_compute; reflexivity.
  - exists w1. split_and!; [exact H1| |apply Hno].
    vm_compute in H1. injection H1 as <-. vm_compute. reflexivity.
Defined.



(** ** Calls that are not GET *)

(** X7.  Requests whose method is not GET are never shared: two calls for
    one URL that are not debounced make two [fetch] calls, each with its
    own pending promise, and leave the cache and the registry as they
    were. *)
Theorem non_get_calls_are_independent h1 h2 u so1 so2 m1 m2 d1 d2 w :
  u ≠ ""%string →
  so_method so1 = JStr m1 → toUpperCase m1 ≠ "GET"%string →
  so_method so2 = JStr m2 → toUpperCase m2 ≠ "GET"%string →
  to_number (so_debounce so1) = Some d1 → d1 ≤ 0 →
  to_number (so_debounce so2) = Some d2 → d2 ≤ 0 →
  ∃ w1 w2 f1 f2,
    fetchData h1 (Some u) so1 w = Some w1 ∧
    fetchData h2 (Some u) so2 w1 = Some w2 ∧
    fetches w2 = fetches w ++ [f1; f2] ∧
    f_hook f1 = h1 ∧ f_hook f2 = h2 ∧
    f_state f1 = Pending ∧ f_state f2 = Pending ∧
    r_url (f_req f1) = u ∧ r_url (f_req f2) = u ∧
    cache w2 = cache w ∧ inFlightMap w2 = inFlightMap w.
Proof.
  intros Hu Hm1 Hn1 Hm2 Hn2 Hd1 Hle1 Hd2 Hle2.
  destruct (originate_now h1 u so1 m1 d1 w) as (w1 & H1 & Hf1 & Hc1 & Hi1); [done..| |].
  { rewrite (shouldCache_false _ Hn1). done. }
  destruct (originate_now h2 u so2 m2 d2 w1) as (w2 & H2 & Hf2 & Hc2 & Hi2); [done..| |].
  { rewrite (shouldCache_false _ Hn2). done. }
  rewrite (shouldCache_false _ Hn1) in Hi1. rewrite (shouldCache_false _ Hn2) in Hi2.
  exists w1, w2,
    (mk_fetch h1 (request_of u m1 so1 (length (controllers w))) (now w) Pending []),
    (mk_fetch h2 (request_of u m2 so2 (length (controllers w1))) (now w1) Pending []).
  split_and!; try done.
  - by rewrite Hf2, Hf1, <- app_assoc.
  - by rewrite Hc2.
  - by rewrite Hi2.
Qed.

Lemma non_get_calls_are_independent_witness :
  ∃ w1 w2,
    fetchData 0 (Some "/items"%string)
      (stableOptions {[ "method"%string := JStr "post" ]}) init_world = Some w1 ∧
    fetchData 1 (Some "/items"%string)
      (stableOptions {[ "method"%string := JStr "post" ]}) w1 = Some w2 ∧
    length (fetches w2) = 2%nat ∧ inFlightMap w2 = ∅.
Proof.
  destruct (non_get_calls_are_independent 0 1 "/items"
              (stableOptions {[ "method"%string := JStr "post" ]})
              (stableOptions {[ "method"%string := JStr "post" ]})
              "post" "post" 0 0 init_world)
    as (w1 & w2 & f1 & f2 & H1 & H2 & Hf & _ & _ & _ & _ & _ & _ & _ & Hi);
    [done|reflexivity|vm_compute; discriminate|reflexivity|vm_compute; discriminate|
     reflexivity|lia|reflexivity|lia|].
  exists w1, w2. split_and!; [exact H1|exact H2|by rewrite Hf|exact Hi].
Defined.

(** ** What the consumer sees while waiting and after a failure *)

(** X8.  A debounced call changes no instance's [data], [error] or
    [isLoading], so [isLoading] is not raised by the call.  While the call
    waits for its timer the caller's three cells stay as they were,
    whatever timers of other instances fire; from the moment the timer is
    due, one delay after the call, the caller's [isLoading] is true and
    its [error] null, with [data] unchanged. *)
Theorem debounce_wait_is_silent tr h u so m d w :
  run init_world tr = Some w →
  u ≠ ""%string → so_method so = JStr m → to_number (so_debounce so) = Some d →
  0 < d →
  (shouldCache (toUpperCase m) = true →
     JsMap.has u (cache w) = false ∧ inFlightMap w !! u = None) →
  ∃ w1, fetchData h (Some u) so w = Some w1 ∧
        (∀ h', cells (hook_of w1 h') = cells (hook_of w h')) ∧
        (∀ dt, 0 ≤ dt < d → cells (hook_of (elapse dt w1) h) = cells (hook_of w h)) ∧
        (∀ dt, d ≤ dt →
           cells (hook_of (elapse dt w1) h) = (data (hook_of w h), None, true)).
Proof.
  intros Hrun Hu Hm Hd Hpos Hmiss. apply run_timers_owned in Hrun as Hown.
  destruct (debounced_call h u so m d w)
    as (w1 & t1 & H1 & Ho1 & Ht1 & _ & _ & _ & Hn1 & Hcells); [done..|].
  exists w1. split_and!; [done|done| |].
  - intros dt [Hdt0 Hdt]. destruct (waiting h t1 _ _ dt w1 Ho1 Ht1) as [Hk _]; [lia|].
    by rewrite Hk.
  - intros dt Hdt. destruct (coming_due h t1 _ _ dt w1 Ho1 Ht1) as [_ Hk]; [lia..|].
    rewrite Hk. specialize (Hcells h). unfold cells in Hcells. by injection Hcells as -> _ _.
Qed.

Lemma debounce_wait_is_silent_witness :
  ∃ w1,
    fetchData 0 (Some "/q"%string)
      (stableOptions {[ "debounce"%string := JNum 500 ]})
      (world_after others_at_work) = Some w1 ∧
    (f_hook <$> fetches (elapse 499 w1)) = [0%nat; 1%nat] ∧
    cells (hook_of (elapse 499 w1) 0) = (JNum 1, None, false) ∧
    cells (hook_of (elapse 500 w1) 0) = (JNum 1, None, true).
Proof.
  destruct (debounce_wait_is_silent others_at_work 0 "/q"
              (stableOptions {[ "debounce"%string := JNum 500 ]}) "GET" 500
              (world_after others_at_work))
    as (w1 & H1 & _ & Hwait & Hfire); [vm_compute; reflexivity|done|vm_compute; reflexivity|vm_compute; reflexivity|lia| |].
  - intros _. split; vm_compute; reflexivity.
  - exists w1. split_and!; [exact H1| | |].
    + vm_compute in H1. injection H1 as <-. vm_compute. reflexivity.
    + rewrite (Hwait 499) by lia. vm_compute. reflexivity.
    + rewrite (Hfire 500) by lia. vm_compute. reflexivity.
Defined.

Lemma data_foldl_react_rejected e (l : list nat) k h :
  data (foldl (fun k h' => if decide (h' = h) then react_hook (Rejected e) k else k) k l)
  = data k.
Proof.
  revert k. induction l as [|h' l IH]; intros k; cbn [foldl]; [done|].
  rewrite IH. case_decide; [|done]. unfold react_hook. by destruct (not_abort e).
Qed.

(** X9.  A request that fails, for whatever reason, leaves [data] as it
    was in every instance, so what was shown before stays next to the
    error, and leaves the cache as it was. *)
Theorem failure_keeps_data w pid net f e :
  fetches w !! pid = Some f → f_state f = Pending →
  response_stage (signal_aborted w (r_signal (f_req f))) net = Rejected e →
  cache (settle pid net w) = cache w ∧
  ∀ h, data (hook_of (settle pid net w) h) = data (hook_of w h).
Proof.
  intros Hf Hst Hs. split; [by eapply settle_keeps_cache|].
  intros h. rewrite (hook_of_settle pid net w f h Hf Hst). cbv zeta. rewrite Hs.
  rewrite data_foldl_react_rejected. case_decide; [|done].
  unfold resume_hook. by destruct (not_abort e).
Qed.

Lemma failure_keeps_data_witness :
  data (hook_of (settle 1 (NetResponse false 500 (inl JNull))
                   (world_after (cached_a ++ [InvalidateURL "/a"; Refetch 0]))) 0)
  = JNum 1.
Proof.
  edestruct (failure_keeps_data
               (world_after (cached_a ++ [InvalidateURL "/a"; Refetch 0]))
               1 (NetResponse false 500 (inl JNull)))
    as (_ & Hd); [vm_compute; reflexivity|reflexivity|vm_compute; reflexivity|].
  rewrite Hd. vm_compute. reflexivity.
Defined.

(** X10.  A response that is not [ok] is reported with its status and its
    body is never looked at: the outcome is the same whatever the body
    would decode to, and unless the request was aborted the originator and
    every attached caller get the message "HTTP error! status: N". *)
Theorem not_ok_response_reports_status w pid f status json :
  fetches w !! pid = Some f → f_state f = Pending →
  (∀ json', settle pid (NetResponse false status json) w
            = settle pid (NetResponse false status json') w) ∧
  (signal_aborted w (r_signal (f_req f)) = false →
   ∀ h, h = f_hook f ∨ h ∈ f_attached f →
        error (hook_of (settle pid (NetResponse false status json) w) h)
        = Some ("HTTP error! status: " +:+ pretty status)).
Proof.
  intros Hf Hst. split.
  - intros json'. unfold settle. rewrite Hf, Hst. cbv zeta.
    assert (∀ a j, response_stage a (NetResponse false status j)
                   = response_stage a (NetResponse false status json)) as Hsame.
    { intros [] j; reflexivity. }
    by rewrite (Hsame _ json').
  - intros Hab h Hh.
    destruct (settle_outcome pid (NetResponse false status json) w f h Hf Hst Hh)
      as [_ Hout].
    rewrite Hab in Hout. exact Hout.
Qed.

Lemma not_ok_response_reports_status_witness :
  error (hook_of (settle 0 (NetResponse false 404 (inl (JStr "ignored")))
                    (world_after [Render 0 (Some "/a"%string) ∅;
                                  Render 1 (Some "/a"%string) ∅])) 1)
  = Some "HTTP error! status: 404"%string.
Proof.
  edestruct (not_ok_response_reports_status
               (world_after [Render 0 (Some "/a"%string) ∅; Render 1 (Some "/a"%string) ∅])
               0) with (status := 404) (json := @inl jsval js_error (JStr "ignored"))
    as (_ & Herr); [vm_compute; reflexivity|reflexivity|].
  rewrite (Herr eq_refl 1%nat); [vm_compute; reflexivity|right; vm_compute; set_solver].
Defined.

(** ** Request normalisation and option defaults *)

Lemma obj_get_set_eq l k v : obj_get (obj_set l k v) k = v.
Proof.
  induction l as [|[k' v'] l IH]; simpl.
  - by rewrite bool_decide_eq_true_2.
  - case_bool_decide; simpl; [by rewrite bool_decide_eq_true_2|].
    by rewrite bool_decide_eq_false_2.
Qed.

Lemma obj_get_set_ne l k k' v : k ≠ k' → obj_get (obj_set l k v) k' = obj_get l k'.
Proof.
  intros Hne. induction l as [|[k0 v0] l IH]; simpl.
  - by rewrite bool_decide_eq_false_2.
  - case_bool_decide as E; simpl.
    + subst k0. by rewrite !bool_decide_eq_false_2.
    + case_bool_decide; [done|apply IH].
Qed.

(** X11.  The request handed to [fetch] carries the method in upper case.
    A GET request, and any request whose [body] option is falsy, carries
    no body and exactly the caller's headers.  A request that is not GET
    with a truthy [body] carries that body and a truthy [Content-Type]
    header: the caller's own when there is one under that exact key, which
    is never overwritten, and "application/json" otherwise; every other
    header is the caller's. *)
Theorem request_normalisation u m so c :
  r_method (request_of u m so c) = toUpperCase m ∧
  (toUpperCase m = "GET"%string ∨ truthy (so_body so) = false →
     r_body (request_of u m so c) = None ∧
     r_headers (request_of u m so c) = spread (so_headers so)) ∧
  (toUpperCase m ≠ "GET"%string → truthy (so_body so) = true →
     r_body (request_of u m so c) = Some (so_body so) ∧
     truthy (obj_get (r_headers (request_of u m so c)) "Content-Type") = true ∧
     (truthy (obj_get (spread (so_headers so)) "Content-Type") = true →
        r_headers (request_of u m so c) = spread (so_headers so)) ∧
     (truthy (obj_get (spread (so_headers so)) "Content-Type") = false →
        obj_get (r_headers (request_of u m so c)) "Content-Type"
        = JStr "application/json") ∧
     ∀ k, k ≠ "Content-Type"%string →
          obj_get (r_headers (request_of u m so c)) k
          = obj_get (spread (so_headers so)) k).
Proof.
  unfold request_of. cbv zeta. split_and!.
  - done.
  - intros [Hget|Hfalsy]; cbn [r_body r_headers].
    + rewrite Hget. by rewrite bool_decide_eq_true_2.
    + rewrite Hfalsy, andb_false_r. done.
  - intros Hne Htr. cbn [r_body r_headers].
    rewrite bool_decide_eq_false_2 by done. rewrite Htr. cbn [negb andb].
    rewrite bool_decide_eq_true_2 by eauto. cbn [andb].
    destruct (truthy (obj_get (spread (so_headers so)) "Content-Type")) eqn:Hct;
      cbn [negb]; split_and!; try done.
    + by rewrite obj_get_set_eq.
    + intros _. apply obj_get_set_eq.
    + intros k Hk. by apply obj_get_set_ne.
Qed.

Lemma request_normalisation_witness :
  r_body (request_of "/u" "get" (stableOptions {[ "body"%string := JNum 5 ]}) 0) = None ∧
  r_headers (request_of "/u" "put"
               (stableOptions {[ "body"%string := JNum 5;
                                 "headers"%string :=
                                   JObj [("content-type"%string, JStr "text/plain")] ]}) 0)
  = [("content-type"%string, JStr "text/plain");
     ("Content-Type"%string, JStr "application/json")].
Proof.
  split.
  - destruct (request_normalisation "/u" "get"
                (stableOptions {[ "body"%string := JNum 5 ]}) 0) as (_ & Hget & _).
    by destruct Hget as [Hb _]; [left|].
  - vm_compute. reflexivity.
Defined.

(** X12.  An option given with a falsy value counts as omitted: [method:
    ""], [body: 0], [body: false], [body: ""], [debounce: 0] and the like
    give the same normalised options as leaving the key out. *)
Theorem falsy_option_is_omitted (options : gmap string jsval) k v :
  options !! k = Some v → truthy v = false →
  stableOptions options = stableOptions (delete k options).
Proof.
  intros Ho Hv.
  assert (∀ key def, js_or (opt options key) def = js_or (opt (delete k options) key) def)
    as Hkey.
  { intros key def. unfold opt. destruct (decide (k = key)) as [<-|Hne].
    - rewrite Ho, lookup_delete_eq. simpl. unfold js_or. by rewrite Hv.
    - by rewrite lookup_delete_ne. }
  unfold stableOptions. by rewrite !Hkey.
Qed.

Lemma falsy_option_is_omitted_witness :
  stableOptions {[ "body"%string := JBool false; "method"%string := JStr "post" ]}
  = stableOptions {[ "method"%string := JStr "post" ]}.
Proof.
  rewrite (falsy_option_is_omitted _ "body" (JBool false));
    [vm_compute; reflexivity|vm_compute; reflexivity|reflexivity].
Defined.

(** ** Commits of a URL that is already cached *)

(** X13.  Committing a URL that is already in the cache never refreshes
    its age below capacity: the order of the keys stays as it was and only
    the value changes.  At capacity the oldest entry is evicted all the
    same, although no room was needed: the cache shrinks to one entry
    below capacity, unless the committed URL is itself the oldest, which
    then moves to the end. *)
Theorem commit_of_cached_url k v k0 v0 (rest : JsMap.t) :
  NoDup ((k0, v0) :: rest).*1 →
  JsMap.has k ((k0, v0) :: rest) = true →
  JsMap.get k (cache_commit k v ((k0, v0) :: rest)) = v ∧
  (JsMap.size ((k0, v0) :: rest) < MAX_CACHE_SIZE →
     (cache_commit k v ((k0, v0) :: rest)).*1 = ((k0, v0) :: rest).*1) ∧
  (MAX_CACHE_SIZE ≤ JsMap.size ((k0, v0) :: rest) → k ≠ k0 →
     (cache_commit k v ((k0, v0) :: rest)).*1 = rest.*1) ∧
  (MAX_CACHE_SIZE ≤ JsMap.size ((k0, v0) :: rest) → k = k0 →
     cache_commit k v ((k0, v0) :: rest) = rest ++ [(k, v)]).
Proof.
  intros Hnd Hhas. split_and!.
  - apply cache_commit_get.
  - intros Hlt. rewrite cache_commit_below by done.
    apply set_keys_present. by apply has_true.
  - intros Hfull Hne. rewrite cache_commit_full by done.
    apply set_keys_present. apply has_true in Hhas.
    rewrite fmap_cons in Hhas. apply elem_of_cons in Hhas as [?|?]; done.
  - intros Hfull ->. rewrite cache_commit_full by done.
    apply set_absent. rewrite fmap_cons in Hnd. by apply NoDup_cons in Hnd as [? _].
Qed.

Lemma commit_of_cached_url_witness :
  cache_commit "/a" (JNum 9) [("/a"%string, JNum 1); ("/b"%string, JNum 2)]
  = [("/a"%string, JNum 9); ("/b"%string, JNum 2)] ∧
  (cache_commit "/50" (JNum 2) (cache (world_after (fill_trace 100)))).*1
  = (tail (cache (world_after (fill_trace 100)))).*1.
Proof.
  split; [vm_compute; reflexivity|].
  assert (∃ k0 v0 rest, cache (world_after (fill_trace 100)) = (k0, v0) :: rest ∧
                        k0 = "/0"%string) as (k0 & v0 & rest & Hc & Hk0).
  { eexists _, _, _. split; [vm_compute; reflexivity|reflexivity]. }
  rewrite Hc. cbn [tail].
  destruct (commit_of_cached_url "/50" (JNum 2) k0 v0 rest) as (_ & _ & Hev & _).
  - rewrite <- Hc. apply (bool_decide_unpack _). vm_compute. exact I.
  - rewrite <- Hc. vm_compute. reflexivity.
  - apply Hev; [rewrite <- Hc; vm_compute; discriminate|by subst k0].
Defined.

(** ** An input change while a request is in flight *)

Lemma cleanup_inFlightMap_ne h u k w :
  k ≠ u → inFlightMap (cleanup h (Some u) w) !! k = inFlightMap w !! k.
Proof.
  intros Hne. unfold cleanup. cbv zeta.
  destruct (controller _), (timeoutRef _), (didSetInFlight _); wsimpl;
    by rewrite ?lookup_delete_ne.
Qed.

(** X14.  When the inputs of an instance change while its request is in
    flight, the old request is aborted and a new one starts; the old
    request's settlement then sets [isLoading] to false although the new
    request is still pending. *)
Theorem input_change_leaves_stale_loading h u1 u2 so1 so2 m1 m2 d1 d2 w :
  u1 ≠ ""%string → u2 ≠ ""%string → u1 ≠ u2 →
  so_method so1 = JStr m1 → to_number (so_debounce so1) = Some d1 → d1 ≤ 0 →
  so_method so2 = JStr m2 → to_number (so_debounce so2) = Some d2 → d2 ≤ 0 →
  (shouldCache (toUpperCase m1) = true →
     JsMap.has u1 (cache w) = false ∧ inFlightMap w !! u1 = None) →
  (shouldCache (toUpperCase m2) = true →
     JsMap.has u2 (cache w) = false ∧ inFlightMap w !! u2 = None) →
  ∃ w1 w2,
    fetchData h (Some u1) so1 w = Some w1 ∧
    fetchData h (Some u2) so2 (cleanup h (Some u1) w1) = Some w2 ∧
    length (fetches w2) = S (S (length (fetches w))) ∧
    ∀ net,
      let w3 := settle (length (fetches w)) net w2 in
      isLoading (hook_of w3 h) = false ∧
      (∃ f2, fetches w3 !! S (length (fetches w)) = Some f2 ∧
             f_hook f2 = h ∧ r_url (f_req f2) = u2 ∧ f_state f2 = Pending).
Proof.
  intros Hu1 Hu2 Hne Hm1 Hd1 Hle1 Hm2 Hd2 Hle2 Hmiss1 Hmiss2.
  destruct (originate_now h u1 so1 m1 d1 w) as (w1 & H1 & Hf1 & Hc1 & Hi1); [done..|].
  set (w1' := cleanup h (Some u1) w1).
  destruct (originate_now h u2 so2 m2 d2 w1') as (w2 & H2 & Hf2 & _); [done..| |].
  { intros Hsc. destruct (Hmiss2 Hsc) as [Hhas Hfl]. subst w1'. split.
    - by rewrite cleanup_cache, Hc1.
    - rewrite cleanup_inFlightMap_ne by done. rewrite Hi1.
      destruct (shouldCache (toUpperCase m1)); [by rewrite lookup_insert_ne|done]. }
  assert (fetches w1' = fetches w1) as Hf1' by apply cleanup_fetches.
  rewrite Hf1', Hf1 in Hf2.
  exists w1, w2. split_and!; [done|done| |].
  { rewrite Hf2, !length_app. simpl. lia. }
  intros net w3.
  set (f1 := mk_fetch h (request_of u1 m1 so1 (length (controllers w))) (now w) Pending [])
    in *.
  set (f2 := mk_fetch h (request_of u2 m2 so2 (length (controllers w1'))) (now w1')
               Pending []) in *.
  assert (fetches w2 !! length (fetches w) = Some f1) as Hl1.
  { rewrite Hf2, lookup_app_l by (rewrite length_app; simpl; lia).
    by rewrite lookup_app_r, Nat.sub_diag. }
  split.
  - by destruct (settle_outcome _ net w2 f1 h Hl1 eq_refl) as [Hl _]; [left|].
  - exists f2. split; [|done]. subst w3.
    rewrite (settle_fetches _ net w2 f1 Hl1 eq_refl).
    rewrite list_lookup_insert_ne by lia. rewrite Hf2.
    rewrite lookup_app_r by (rewrite length_app; simpl; lia).
    rewrite length_app. simpl.
    by replace (S (length (fetches w)) - (length (fetches w) + 1))%nat with 0%nat by lia.
Qed.

Lemma input_change_leaves_stale_loading_witness :
  ∃ w1 w2,
    fetchData 0 (Some "/a"%string) (stableOptions ∅) init_world = Some w1 ∧
    fetchData 0 (Some "/b"%string) (stableOptions ∅)
      (cleanup 0 (Some "/a"%string) w1) = Some w2 ∧
    isLoading (hook_of (settle 0 (ok_json (JNum 1)) w2) 0) = false.
Proof.
  destruct (input_change_leaves_stale_loading 0 "/a" "/b"
              (stableOptions ∅) (stableOptions ∅) "GET" "GET" 0 0 init_world)
    as (w1 & w2 & H1 & H2 & _ & Hnet);
    [done|done|done|reflexivity|reflexivity|lia|reflexivity|reflexivity|lia| | |].
  - intros _. split; reflexivity.
  - intros _. split; reflexivity.
  - exists w1, w2. split_and!; [exact H1|exact H2|].
    by destruct (Hnet (ok_json (JNum 1))) as [Hl _].
Defined.

(** ** What the cache holds *)

Lemma has_get_elem k (m : JsMap.t) : JsMap.has k m = true → (k, JsMap.get k m) ∈ m.
Proof.
  intros Hhas. apply has_true in Hhas.
  induction m as [|[k' v'] m IH]; [by apply elem_of_nil in Hhas|].
  simpl. case_bool_decide as E.
  - subst. by left.
  - right. apply IH. rewrite fmap_cons in Hhas.
    apply elem_of_cons in Hhas as [?|?]; [by subst|done].
Qed.

Lemma step_cache_truthy w e w' :
  cache_truthy (cache w) → step w e = Some w' → cache_truthy (cache w').
Proof.
  intros Hok H. apply step_cache in H as [->|[->|[(u & ->)|(u & v & Hv & ->)]]].
  - done.
  - intros kv Hin. by apply elem_of_nil in Hin.
  - intros kv Hin. unfold JsMap.delete in Hin.
    apply list_elem_of_filter in Hin as [_ Hin]. by apply Hok.
  - intros kv Hin. apply cache_commit_elem in Hin as [->|Hin]; [done|by apply Hok].
Qed.

(** X15.  The cache never holds a falsy value: in every world the system
    can reach, each cached URL maps to a truthy body, so a cache hit never
    hands [null], [false], [0] or [""] to the consumer. *)
Theorem cache_hit_is_truthy tr w u :
  run init_world tr = Some w → JsMap.has u (cache w) = true →
  truthy (JsMap.get u (cache w)) = true.
Proof.
  intros Hrun Hhas.
  assert (cache_truthy (cache w)) as Hok.
  { apply (run_preserves (fun w => cache_truthy (cache w)) step_cache_truthy
             tr init_world w); [|done].
    intros kv Hin. by apply elem_of_nil in Hin. }
  apply (Hok (u, JsMap.get u (cache w))). by apply has_get_elem.
Qed.

Lemma cache_hit_is_truthy_witness :
  ∃ w, run init_world
         [Render 0 (Some "/a"%string) ∅; Settle 0 (ok_json (JNum 0));
          Render 1 (Some "/b"%string) ∅; Settle 1 (ok_json (JArr []))] = Some w ∧
       JsMap.has "/a" (cache w) = false ∧
       truthy (JsMap.get "/b" (cache w)) = true.
Proof.
  eexists. split; [vm_compute; reflexivity|]. split; [vm_compute; reflexivity|].
  eapply (cache_hit_is_truthy
            [Render 0 (Some "/a"%string) ∅; Settle 0 (ok_json (JNum 0));
             Render 1 (Some "/b"%string) ∅; Settle 1 (ok_json (JArr []))]);
    vm_compute; reflexivity.
Defined.

(** ** Which instances delete registry entries at teardown *)

Lemma carries_on_refl w : carries_on w w.
Proof. split; [by left|done]. Qed.

Lemma carries_on_trans w1 w2 w3 : carries_on w1 w2 → carries_on w2 w3 → carries_on w1 w3.
Proof.
  intros [Hf12 Hg12] [Hf23 Hg23]. split.
  - intros h Hh. destruct (Hf23 h Hh) as [Hh2|?]; [|by right].
    destruct (Hf12 h Hh2) as [?|?]; [by left|right; by apply Hg23].
  - intros h Hh. by apply Hg23, Hg12.
Qed.

(** Operations that keep every flag and every call of the log. *)
Lemma carries_on_same w w' :
  (∀ h, didSetInFlight (hook_of w' h) = didSetInFlight (hook_of w h)) →
  (∀ pid f, fetches w !! pid = Some f →
     ∃ f', fetches w' !! pid = Some f' ∧ f_hook f' = f_hook f ∧ f_req f' = f_req f) →
  carries_on w w'.
Proof.
  intros Hflag Hlog. split.
  - intros h Hh. left. by rewrite <- Hflag.
  - intros h (pid & f & Hf & Hh & Hm). destruct (Hlog pid f Hf) as (f' & Hf' & Hh' & Hr').
    exists pid, f'. split_and!; [done|congruence|congruence].
Qed.

Lemma carries_on_arm h w : carries_on w (arm h w).
Proof.
  apply carries_on_same.
  - intros h'. destruct (decide (h = h')) as [<-|Hne];
      [by rewrite arm_hook|by rewrite arm_hook_ne].
  - intros pid f Hf. exists f. by rewrite arm_fetches.
Qed.

Lemma carries_on_setTimeout h rq d w : carries_on w (setTimeout h rq d w).
Proof.
  apply carries_on_same.
  - intros h'. unfold setTimeout. cbv zeta. rewrite hook_of_upd_hook.
    by case_decide; subst.
  - intros pid f Hf. by exists f.
Qed.

Lemma carries_on_runFetch h rq w : carries_on w (runFetch h rq w).
Proof.
  split.
  - intros h' Hh'. destruct (decide (h = h')) as [<-|Hne].
    + rewrite runFetch_hook in Hh'. destruct (shouldCache (r_method rq)) eqn:Hsc.
      * right. exists (length (fetches w)), (mk_fetch h rq (now w) Pending []).
        rewrite runFetch_fetches. split_and!; [|done|by apply bool_decide_eq_true in Hsc].
        by rewrite lookup_app_r, Nat.sub_diag.
      * by left.
    + left. by rewrite runFetch_hook_ne in Hh'.
  - intros h' (pid & f & Hf & Hh & Hm). exists pid, f. rewrite runFetch_fetches.
    split_and!; [|done..]. by rewrite lookup_app_l by (by eapply lookup_lt_Some).
Qed.

Lemma flag_react_hook s k : didSetInFlight (react_hook s k) = didSetInFlight k.
Proof. unfold react_hook. by destruct s as [v|e]; [|destruct (not_abort e)]. Qed.

Lemma flag_resume_hook s k : didSetInFlight (resume_hook s k) = didSetInFlight k.
Proof. unfold resume_hook. by destruct s as [v|e]; [|destruct (not_abort e)]. Qed.

Lemma flag_foldl_react s (l : list nat) k h :
  didSetInFlight
    (foldl (fun k h' => if decide (h' = h) then react_hook s k else k) k l)
  = didSetInFlight k.
Proof.
  revert k. induction l as [|h' l IH]; intros k; cbn [foldl]; [done|].
  rewrite IH. case_decide; [apply flag_react_hook|done].
Qed.

Lemma carries_on_react h s w : carries_on w (react h s w).
Proof.
  apply carries_on_same.
  - intros h'. rewrite hook_of_react. case_decide; [apply flag_react_hook|done].
  - intros pid f Hf. exists f. by destruct (react_only h s w) as (_ & _ & -> & _).
Qed.

Lemma carries_on_attach h pid w : carries_on w (attach h pid w).
Proof.
  unfold attach. destruct (fetches w !! pid) as [f|] eqn:Hf; [|apply carries_on_refl].
  destruct (f_state f) as [|s]; [|apply carries_on_react].
  apply carries_on_same; [done|]. intros pid' f' Hf'. wsimpl.
  destruct (decide (pid = pid')) as [<-|Hne].
  - rewrite Hf in Hf'. injection Hf' as <-. eexists.
    split; [apply list_lookup_insert_eq; by eapply lookup_lt_Some|done].
  - exists f'. by rewrite list_lookup_insert_ne.
Qed.

Lemma carries_on_settle pid net w : carries_on w (settle pid net w).
Proof.
  destruct (fetches w !! pid) as [f|] eqn:Hf;
    [|unfold settle; rewrite Hf; apply carries_on_refl].
  destruct (f_state f) eqn:Hst;
    [|unfold settle; rewrite Hf, Hst; apply carries_on_refl].
  apply carries_on_same.
  - intros h. rewrite (hook_of_settle pid net w f h Hf Hst). cbv zeta.
    rewrite flag_foldl_react. case_decide; [apply flag_resume_hook|done].
  - intros pid' f' Hf'. rewrite (settle_fetches pid net w f Hf Hst).
    destruct (decide (pid = pid')) as [<-|Hne].
    + rewrite Hf in Hf'. injection Hf' as <-. eexists.
      split; [apply list_lookup_insert_eq; by eapply lookup_lt_Some|done].
    + exists f'. by rewrite list_lookup_insert_ne.
Qed.

Lemma carries_on_hooks_fetches w w' :
  hooks w' = hooks w → fetches w' = fetches w → carries_on w w'.
Proof.
  intros Hh Hf. apply carries_on_same.
  - intros h. unfold hook_of. by rewrite Hh.
  - intros pid f Hl. exists f. by rewrite Hf.
Qed.

Lemma carries_on_cells h g w :
  (∀ k, didSetInFlight (g k) = didSetInFlight k) → carries_on w (upd_hook h g w).
Proof.
  intros Hg. apply carries_on_same.
  - intros h'. rewrite hook_of_upd_hook. case_decide; [subst; apply Hg|done].
  - intros pid f Hl. by exists f.
Qed.

Lemma carries_on_fetchData h url so w w' :
  fetchData h url so w = Some w' → carries_on w w'.
Proof.
  intros H. apply fetchData_cases in H
    as [[_ ->]|(u & m & _ & _ & _ & [(_ & _ & ->)|[(_ & _ & pid & _ & ->)|(_ & d & _ & H)]])].
  - apply carries_on_refl.
  - unfold setError, setIsLoading, setData.
    eapply carries_on_trans; [|by apply carries_on_cells].
    eapply carries_on_trans; [|by apply carries_on_cells].
    by apply carries_on_cells.
  - eapply carries_on_trans; [|apply carries_on_attach].
    unfold setIsLoading. by apply carries_on_cells.
  - destruct H as [[_ ->]|[_ ->]].
    + eapply carries_on_trans; [apply carries_on_arm|apply carries_on_setTimeout].
    + eapply carries_on_trans; [apply carries_on_arm|apply carries_on_runFetch].
Qed.

Lemma carries_on_fire t w : carries_on w (fire t w).
Proof.
  unfold fire. destruct (timers w !! t) as [[tm|]|]; try apply carries_on_refl.
  eapply carries_on_trans; [|apply carries_on_runFetch].
  by apply carries_on_hooks_fetches.
Qed.

Lemma carries_on_foldl_fire l w : carries_on w (foldl (fun w t => fire t w) w l).
Proof.
  revert w. induction l as [|t l IH]; intros w; simpl; [apply carries_on_refl|].
  eapply carries_on_trans; [apply carries_on_fire|apply IH].
Qed.

Lemma carries_on_step w e w' : step w e = Some w' → carries_on w w'.
Proof.
  destruct e as [h url options|h|h|dt|pid net| |u]; simpl; intros H.
  - unfold render in H. eapply carries_on_trans; [|by eapply carries_on_fetchData].
    eapply carries_on_trans; [|by apply carries_on_cells].
    destruct (h_active _); [|apply carries_on_refl].
    apply carries_on_hooks_fetches; [apply cleanup_hooks|apply cleanup_fetches].
  - by eapply carries_on_fetchData.
  - injection H as <-. unfold unmount. destruct (h_active _); [|apply carries_on_refl].
    eapply carries_on_trans; [|by apply carries_on_cells].
    apply carries_on_hooks_fetches; [apply cleanup_hooks|apply cleanup_fetches].
  - injection H as <-. unfold elapse. cbv zeta.
    eapply carries_on_trans; [apply carries_on_foldl_fire|].
    by apply carries_on_hooks_fetches.
  - injection H as <-. apply carries_on_settle.
  - injection H as <-. by apply carries_on_hooks_fetches.
  - injection H as <-. by apply carries_on_hooks_fetches.
Qed.

Lemma flags_backed_step w e w' : flags_backed w → step w e = Some w' → flags_backed w'.
Proof.
  intros Hb Hstep h Hh. destruct (carries_on_step w e w' Hstep) as [Hflag Hlog].
  destruct (Hflag h Hh) as [Hold|?]; [|done]. by apply Hlog, Hb.
Qed.

(** X16.  Only an instance that has itself made a GET [fetch] call ever
    removes a registry entry at teardown: in every world the system can
    reach, the cleanup of an instance that has only attached to other
    callers' requests, used other methods, or been served from the cache
    leaves the registry as it is. *)
Theorem teardown_of_non_originator_keeps_registry tr w h url :
  run init_world tr = Some w →
  (∀ pid f, fetches w !! pid = Some f → f_hook f = h →
            r_method (f_req f) ≠ "GET"%string) →
  inFlightMap (cleanup h url w) = inFlightMap w.
Proof.
  intros Hrun Hnone.
  assert (flags_backed w) as Hb.
  { apply (run_preserves flags_backed flags_backed_step tr init_world w); [|done].
    intros h'. unfold hook_of. simpl. by rewrite lookup_empty. }
  assert (didSetInFlight (hook_of w h) = false) as Hflag.
  { destruct (didSetInFlight (hook_of w h)) eqn:E; [|done].
    destruct (Hb h E) as (pid & f & Hf & Hh & Hm). by destruct (Hnone pid f Hf Hh). }
  unfold cleanup. cbv zeta. rewrite Hflag.
  by destruct (controller _), (timeoutRef _).
Qed.

Lemma teardown_of_non_originator_keeps_registry_witness :
  ∃ w, run init_world
         [Render 0 (Some "/a"%string) ∅; Render 1 (Some "/a"%string) ∅;
          Render 1 (Some "/a"%string) {[ "method"%string := JStr "POST" ]}] = Some w ∧
       inFlightMap (cleanup 1 (Some "/a"%string) w) !! "/a"%string = Some 0%nat.
Proof.
  eexists. split; [vm_compute; reflexivity|].
  rewrite (teardown_of_non_originator_keeps_registry
             [Render 0 (Some "/a"%string) ∅; Render 1 (Some "/a"%string) ∅;
              Render 1 (Some "/a"%string) {[ "method"%string := JStr "POST" ]}]).
  - vm_compute. reflexivity.
  - vm_compute. reflexivity.
  - intros pid f Hf Hh. vm_compute in Hf.
    destruct pid as [|[|pid]]; [| |done]; injection Hf as <-; [done|].
    vm_compute. discriminate.
Defined.

(** ** One timer per instance *)

(** X17.  An instance never has two debounced calls waiting: in every
    world the system can reach, two pending timers belong to different
    instances, and the cleanup of an instance leaves no timer of that
    instance pending. *)
Theorem one_pending_timer_per_instance tr w :
  run init_world tr = Some w →
  (∀ t t' tm tm',
     timers w !! t = Some (Some tm) → timers w !! t' = Some (Some tm') →
     t_hook tm = t_hook tm' → t = t') ∧
  (∀ h url t tm, timers (cleanup h url w) !! t = Some (Some tm) → t_hook tm ≠ h).
Proof.
  intros Hrun.
  assert (timers_owned w) as Hw.
  { apply (run_preserves timers_owned owned_step tr init_world w); [|done].
    intros t tm Hl. by destruct t. }
  split.
  - intros t t' tm tm' Hl Hl' Hh. apply Hw in Hl. apply Hw in Hl'.
    rewrite Hh in Hl. congruence.
  - intros h url t tm. rewrite cleanup_timers. intros Hl Hh.
    destruct (timeoutRef (hook_of w h)) as [t0|] eqn:Href.
    + apply insert_None_pending in Hl as [Hne Hl]. apply Hw in Hl.
      rewrite Hh, Href in Hl. congruence.
    + apply Hw in Hl. rewrite Hh, Href in Hl. congruence.
Qed.

Lemma one_pending_timer_per_instance_witness :
  timers (world_after restarted_debounce)
  = [None; None;
     Some (mk_timer 700 0 (request_of "/q" "GET" (stableOptions {[ "debounce"%string := JNum 500 ]}) 2));
     Some (mk_timer 500 1 (request_of "/q" "GET" (stableOptions {[ "debounce"%string := JNum 300 ]}) 3))] ∧
  (∀ t t' tm tm',
     timers (world_after restarted_debounce) !! t = Some (Some tm) →
     timers (world_after restarted_debounce) !! t' = Some (Some tm') →
     t_hook tm = t_hook tm' → t = t') ∧
  (∀ h url t tm,
     timers (cleanup h url (world_after restarted_debounce)) !! t = Some (Some tm) →
     t_hook tm ≠ h).
Proof.
  split; [vm_compute; reflexivity|].
  apply (one_pending_timer_per_instance restarted_debounce). vm_compute. reflexivity.
Defined.

(** ** Method names *)

Lemma upper_ascii_idemp c : upper_ascii (upper_ascii c) = upper_ascii c.
Proof. by destruct c as [[] [] [] [] [] [] [] []]. Qed.

Lemma toUpperCase_idemp s : toUpperCase (toUpperCase s) = toUpperCase s.
Proof. induction s as [|c s IH]; simpl; [done|]. by rewrite upper_ascii_idemp, IH. Qed.

(** X18.  The case of the [method] option does not matter: a call behaves
    exactly as the call with the method written in upper case, so "get"
    is cached and shared like "GET". *)
Theorem method_case_is_ignored h url so m w :
  so_method so = JStr m →
  fetchData h url so w =
  fetchData h url
    (mk_so (JStr (toUpperCase m)) (so_headers so) (so_body so) (so_debounce so)) w.
Proof.
  intros Hm. unfold fetchData, request_of. rewrite Hm. cbn [so_method so_headers so_body so_debounce].
  by rewrite toUpperCase_idemp.
Qed.

Lemma method_case_is_ignored_witness :
  fetchData 0 (Some "/a"%string) (stableOptions {[ "method"%string := JStr "get" ]})
    (world_after cached_a)
  = fetchData 0 (Some "/a"%string) (stableOptions ∅) (world_after cached_a).
Proof.
  rewrite (method_case_is_ignored 0 (Some "/a"%string)
             (stableOptions {[ "method"%string := JStr "get" ]}) "get");
    [reflexivity|reflexivity].
Defined.
